(** * The entity-component scripting runtime of the 3D web editor

    A shallow embedding of [ComponentSystem] (the component registry, the
    entity-component store, the [Script] component with its compiler, the
    playback clock and the per-frame update pass) and the properties of it
    that the specification states.

    Conventions of the embedding.
    - JavaScript numbers are doubles; the model holds a number as a rational
      ([Q]).  Every arithmetic operation of the code returns the double
      nearest to the exact result, [fl] of it (round to nearest, ties to
      even, with gradual underflow).  Readings of [performance.now()] are
      non-negative doubles; sums and differences of such readings do not
      overflow, and infinities, NaN and the sign of zero are not modelled.
      A number that the code only stores or passes on (the literal 0.016,
      the [deltaTime] given to a tick) is written as its decimal.
    - A JavaScript [Map] is an association list in insertion order with
      unique keys ([Map.set] keeps the position of a key that is present and
      appends a new one).
    - Foreign code (the text of a user script, the three.js scene, classes
      registered by plugins) is not interpreted.  A call into it is described
      by how it ends ([Returns] or [Throws]); what it does to the component
      system while it runs is outside the model.  The JavaScript engine that
      parses and runs a script text is a parameter, [engine].
    - One operation reads [performance.now()] once; the reading is its
      argument [now].
    - Every operation takes the state of the component system and returns
      the new one, next to [Normal v] or [Throw]: the state survives an
      exception, as the mutated JavaScript objects do.
    - What the system does to its collaborators (calls of script hooks,
      calls of [update] and [destroy], bus notifications, console lines) is
      appended to the [journal] of the state, oldest first. *)

From Stdlib Require Import List String Bool ZArith QArith Qround Qabs Qpower Lia Lqa.
Import ListNotations.
Open Scope Q_scope.
Open Scope string_scope.
Open Scope list_scope.

Set Implicit Arguments.

(** ** JavaScript values and objects, as far as the runtime inspects them *)

Inductive JsVal :=
| JUndefined
| JNull
| JBool (b : bool)
| JNum (n : Z)
| JStr (s : string)
| JObj (props : list (string * Z)).

(** Truthiness, as [||], [!] and [if] see it. *)
Definition truthy (v : JsVal) : bool :=
  match v with
  | JUndefined | JNull => false
  | JBool b => b
  | JNum n => negb (n =? 0)%Z
  | JStr s => negb (s =? "")
  | JObj _ => true
  end.

(** [a || b] *)
Definition js_or (a b : JsVal) : JsVal := if truthy a then a else b.

(** An object literal passed as initialisation data. *)
Definition Data := list (string * JsVal).

(** [Map.get] *)
Fixpoint Map_get {A} (k : string) (m : list (string * A)) : option A :=
  match m with
  | [] => None
  | (k', v) :: m' => if k' =? k then Some v else Map_get k m'
  end.

(** [Map.has] *)
Definition Map_has {A} (k : string) (m : list (string * A)) : bool :=
  match Map_get k m with Some _ => true | None => false end.

(** [Map.set]: in place when the key is present, appended otherwise. *)
Fixpoint Map_set {A} (k : string) (v : A) (m : list (string * A)) : list (string * A) :=
  match m with
  | [] => [(k, v)]
  | (k', v') :: m' => if k' =? k then (k', v) :: m' else (k', v') :: Map_set k v m'
  end.

(** [Map.delete] *)
Fixpoint Map_delete {A} (k : string) (m : list (string * A)) : list (string * A) :=
  match m with
  | [] => []
  | (k', v') :: m' => if k' =? k then m' else (k', v') :: Map_delete k m'
  end.

(** [data.f], [undefined] when the property is missing. *)
Definition field (d : Data) (f : string) : JsVal :=
  match Map_get f d with Some v => v | None => JUndefined end.

(** ** Results of calls *)

Inductive Outcome := Returns | Throws.

Inductive Res (A : Type) :=
| Normal (a : A)
| Throw.
Arguments Throw {A}.

(** ** The Script component and its compiled instance *)

Definition EntityId := string.
Definition GameObject := nat.

(** The three lifecycle hooks; [None] where [typeof h !== 'function']. *)
Record Hooks := mkHooks {
  h_start : option Outcome;
  h_update : option Outcome;
  h_onDestroy : option Outcome
}.

Definition no_hooks : Hooks := mkHooks None None None.

(** What the engine reports for [new Function('context', ...)] followed by
    [scriptFunction.call(scriptInstance, context)]:
    - [ParseFails]: the [Function] constructor throws;
    - [EvalThrows on_this]: the body throws, after it has assigned
      [on_this] to properties of [this] (the script instance);
    - [EvalDefines on_this on_context]: the body runs to its end; the
      function-valued [start], [update], [onDestroy] of the context are
      [on_context]. *)
Inductive EvalResult :=
| ParseFails
| EvalThrows (on_this : Hooks)
| EvalDefines (on_this on_context : Hooks).

Record TimeCtx := mkTime { deltaTime : Q; time : Q }.

Record Context := mkContext {
  ctx_entity : EntityId;
  ctx_gameObject : option GameObject;
  ctx_time : TimeCtx;
  ctx_variables : JsVal
}.

Record ScriptInstance := mkInstance {
  context : Context;
  start : option Outcome;
  update : option Outcome;
  onDestroy : option Outcome
}.

Record Script := mkScript {
  entity : EntityId;
  scriptName : JsVal;
  scriptCode : JsVal;
  scriptInstance : option ScriptInstance;
  enabled : JsVal;
  variables : JsVal
}.

(** A component of another class (Collider, Light, a plugin's class): the
    data it was built from and how its [update] and [destroy] methods end,
    [None] when the class has no such method. *)
Record Foreign := mkForeign {
  f_data : Data;
  f_update : option Outcome;
  f_destroy : option Outcome
}.

Inductive Body :=
| BScript (s : Script)
| BForeign (o : Foreign).

(** A component instance: [ref] is the identity of the JavaScript object. *)
Record Component := mkComponent { ref : nat; body : Body }.

Inductive Class :=
| ScriptClass
| ForeignClass (ctor : EntityId -> Data -> option Foreign).

(** ** The editor singleton, as the runtime reads it *)

Record Editor := mkEditor {
  editorMode : string;
  objects : list (EntityId * GameObject)
}.

(** ** The journal *)

Inductive Hook := HStart | HUpdate | HOnDestroy.

Inductive BusEvent := COMPONENT_ADDED | COMPONENT_REMOVED.

Inductive Line :=
| ErrCompile (e : EntityId)
| Compiled (e : EntityId)
| ErrScriptUpdate (e : EntityId)
| ErrScriptDestroy (e : EntityId)
| ErrStart (e : EntityId)
| ErrDestroying (e : EntityId)
| WarnNoObject (e : EntityId)
| WarnAlreadyHas (e : EntityId) (name : string)
| WarnNotFound (e : EntityId) (name : string)
| Added (e : EntityId) (name : string)
| Removed (e : EntityId) (name : string)
| Registered (name : string).

Inductive Effect :=
| HookCall (h : Hook) (e : EntityId)
| UpdateCall (e : EntityId) (name : string) (dt : Q)
| DestroyCall (e : EntityId) (name : string)
| Emit (ev : BusEvent) (e : EntityId) (name : string) (c : Component)
| ConsoleError (l : Line)
| ConsoleWarn (l : Line)
| ConsoleLog (l : Line).

(** ** The component system *)

Record ComponentSystem := mkSystem {
  componentTypes : list (string * Class);
  entityComponents : list (EntityId * list (string * Component));
  scriptStartTime : Q;
  scriptPauseTime : Q;
  totalPausedTime : Q;
  updateableComponents : list nat;
  nextRef : nat;
  journal : list Effect
}.

Definition with_store (ec : list (EntityId * list (string * Component)))
    (cs : ComponentSystem) : ComponentSystem :=
  mkSystem (componentTypes cs) ec (scriptStartTime cs) (scriptPauseTime cs)
    (totalPausedTime cs) (updateableComponents cs) (nextRef cs) (journal cs).

Definition with_clock (t0 tp total : Q) (cs : ComponentSystem) : ComponentSystem :=
  mkSystem (componentTypes cs) (entityComponents cs) t0 tp total
    (updateableComponents cs) (nextRef cs) (journal cs).

Definition record (fx : list Effect) (cs : ComponentSystem) : ComponentSystem :=
  mkSystem (componentTypes cs) (entityComponents cs) (scriptStartTime cs)
    (scriptPauseTime cs) (totalPausedTime cs) (updateableComponents cs)
    (nextRef cs) (journal cs ++ fx).

(** [a > 0] on numbers *)
Definition Qpositive (a : Q) : bool := negb (Qle_bool a 0).

(** ** Double-precision arithmetic *)

(** The binary exponent of a positive number: the floor of its base-2
    logarithm. *)
Definition Qlog2 (x : Q) : Z :=
  let c := (Z.log2 (Qnum x) - Z.log2 (Zpos (Qden x)))%Z in
  if Qle_bool (2 ^ c) x then c else (c - 1)%Z.

(** The nearest integer, the even one of two that are equally near. *)
Definition round_half_even (q : Q) : Z :=
  let f := Qfloor q in
  match Qcompare (q - inject_Z f) (1 # 2) with
  | Lt => f
  | Gt => (f + 1)%Z
  | Eq => if Z.even f then f else (f + 1)%Z
  end.

(** A positive number rounded to 53 significant bits; below 2^-1022 the
    spacing stays 2^-1074 (subnormal numbers). *)
Definition round_magnitude (a : Q) : Q :=
  let e := Z.max (Qlog2 a - 52) (-1074) in
  inject_Z (round_half_even (a / 2 ^ e)) * 2 ^ e.

(** The double nearest to [x]: what [+], [-] and [/] return when the exact
    result is [x]. *)
Definition fl (x : Q) : Q :=
  if Qeq_bool x 0 then 0
  else if Qle_bool 0 x then round_magnitude x
  else - round_magnitude (- x).

(** Half the distance between 1 and the next double, and half the distance
    between subnormal doubles. *)
Definition unit_roundoff : Q := 2 ^ (-53).
Definition underflow : Q := 2 ^ (-1075).

(** [x] is a multiple of 2^j with at most 53 significant bits: sums and
    differences of such numbers that stay below 2^(53+j) are exact. *)
Definition on_grid (j : Z) (x : Q) : bool :=
  Qeq_bool (inject_Z (Qfloor (x / 2 ^ j))) (x / 2 ^ j) &&
  Qle_bool (Qabs x) (2 ^ (53 + j)).

(** ** The playback clock *)

(** [context.time.getTime()], called at [performance.now() = now]. *)
Definition getTime (cs : ComponentSystem) (now : Q) : Q :=
  if Qeq_bool (scriptStartTime cs) 0 then 0
  else fl (fl (fl (now - scriptStartTime cs) - totalPausedTime cs) / 1000).

Definition pauseScriptExecution (now : Q) (cs : ComponentSystem) : ComponentSystem :=
  with_clock (scriptStartTime cs) now (totalPausedTime cs) cs.

Definition resumeScriptExecution (now : Q) (cs : ComponentSystem) : ComponentSystem :=
  if Qpositive (scriptPauseTime cs)
  then with_clock (scriptStartTime cs) 0
         (fl (totalPausedTime cs + fl (now - scriptPauseTime cs))) cs
  else cs.

(** ** The Script class *)

Definition with_instance (i : option ScriptInstance) (s : Script) : Script :=
  mkScript (entity s) (scriptName s) (scriptCode s) i (enabled s) (variables s).

Definition with_time (t : TimeCtx) (i : ScriptInstance) : ScriptInstance :=
  mkInstance
    (mkContext (ctx_entity (context i)) (ctx_gameObject (context i)) t
       (ctx_variables (context i)))
    (start i) (update i) (onDestroy i).

Definition with_gameObject (g : GameObject) (i : ScriptInstance) : ScriptInstance :=
  mkInstance
    (mkContext (ctx_entity (context i)) (Some g) (ctx_time (context i))
       (ctx_variables (context i)))
    (start i) (update i) (onDestroy i).

(** [if (typeof c === 'function') own = c] *)
Definition extract (c own : option Outcome) : option Outcome :=
  match c with Some f => Some f | None => own end.

Section Runtime.

(** The JavaScript engine, applied to the value of [scriptCode]. *)
Variable engine : JsVal -> EvalResult.

(** [createScriptContext]; it throws when there is no editor to read the
    scene from. *)
Definition createScriptContext (ed : option Editor) (s : Script) : option Context :=
  match ed with
  | None => None
  | Some editor =>
      Some (mkContext (entity s) (Map_get (entity s) (objects editor))
              (mkTime (16 # 1000) 0) (variables s))
  end.

(** [compileScript]: everything happens inside one [try]; the handler only
    writes to the console. *)
Definition compileScript (ed : option Editor) (s : Script) : Script * list Effect :=
  match createScriptContext ed s with
  | None => (s, [ConsoleError (ErrCompile (entity s))])
  | Some ctx =>
      match engine (scriptCode s) with
      | ParseFails => (s, [ConsoleError (ErrCompile (entity s))])
      | EvalThrows on_this =>
          (with_instance
             (Some (mkInstance ctx (h_start on_this) (h_update on_this)
                      (h_onDestroy on_this))) s,
           [ConsoleError (ErrCompile (entity s))])
      | EvalDefines on_this on_context =>
          (with_instance
             (Some (mkInstance ctx
                      (extract (h_start on_context) (h_start on_this))
                      (extract (h_update on_context) (h_update on_this))
                      (extract (h_onDestroy on_context) (h_onDestroy on_this)))) s,
           [ConsoleLog (Compiled (entity s))])
      end
  end.

(** [new Script(entity, data)] *)
Definition Script_new (ed : option Editor) (e : EntityId) (data : Data)
  : Script * list Effect :=
  let s := mkScript e
             (js_or (field data "scriptName") (JStr ""))
             (js_or (field data "scriptCode") (JStr ""))
             None
             (match field data "enabled" with
              | JUndefined => JBool true
              | v => v
              end)
             (js_or (field data "variables") (JObj [])) in
  if truthy (scriptCode s) || truthy (scriptName s)
  then compileScript ed s
  else (s, []).

(** [setScript(scriptName, scriptCode)] *)
Definition setScript (ed : option Editor) (name code : JsVal) (s : Script)
  : Script * list Effect :=
  compileScript ed
    (mkScript (entity s) name code (scriptInstance s) (enabled s) (variables s)).

(** [Script.update(deltaTime)] *)
Definition Script_update (ed : option Editor) (cs : ComponentSystem)
    (now dt : Q) (s : Script) : Res unit * Script * list Effect :=
  if negb (truthy (enabled s)) then (Normal tt, s, [])
  else
    match scriptInstance s with
    | None => (Normal tt, s, [])
    | Some inst =>
        match ed with
        | None => (Throw, s, [])
        | Some editor =>
            if negb (editorMode editor =? "play") then (Normal tt, s, [])
            else
              let inst1 := with_time (mkTime dt (getTime cs now)) inst in
              match Map_get (entity s) (objects editor) with
              | None =>
                  (Normal tt, with_instance (Some inst1) s,
                   [ConsoleWarn (WarnNoObject (entity s))])
              | Some g =>
                  let s2 := with_instance (Some (with_gameObject g inst1)) s in
                  match update inst with
                  | None => (Normal tt, s2, [])
                  | Some Returns => (Normal tt, s2, [HookCall HUpdate (entity s)])
                  | Some Throws =>
                      (Normal tt, s2,
                       [HookCall HUpdate (entity s);
                        ConsoleError (ErrScriptUpdate (entity s))])
                  end
              end
        end
    end.

(** [Script.destroy()] *)
Definition Script_destroy (s : Script) : Script * list Effect :=
  (with_instance None s,
   match scriptInstance s with
   | Some inst =>
       match onDestroy inst with
       | None => []
       | Some Returns => [HookCall HOnDestroy (entity s)]
       | Some Throws =>
           [HookCall HOnDestroy (entity s);
            ConsoleError (ErrScriptDestroy (entity s))]
       end
   | None => []
   end).

(** ** Methods every component may have *)

Definition has_update (c : Component) : bool :=
  match body c with
  | BScript _ => true
  | BForeign o => match f_update o with Some _ => true | None => false end
  end.

Definition has_destroy (c : Component) : bool :=
  match body c with
  | BScript _ => true
  | BForeign o => match f_destroy o with Some _ => true | None => false end
  end.

(** [component.update(deltaTime)] *)
Definition Component_update (ed : option Editor) (cs : ComponentSystem)
    (now dt : Q) (c : Component) : Res unit * Component * list Effect :=
  match body c with
  | BScript s =>
      let '(r, s', fx) := Script_update ed cs now dt s in
      (r, mkComponent (ref c) (BScript s'), fx)
  | BForeign o =>
      match f_update o with
      | Some Throws => (Throw, c, [])
      | _ => (Normal tt, c, [])
      end
  end.

(** [component.destroy()] *)
Definition Component_destroy (c : Component) : Res unit * Component * list Effect :=
  match body c with
  | BScript s =>
      let '(s', fx) := Script_destroy s in
      (Normal tt, mkComponent (ref c) (BScript s'), fx)
  | BForeign o =>
      match f_destroy o with
      | Some Throws => (Throw, c, [])
      | _ => (Normal tt, c, [])
      end
  end.

(** ** The update pass *)

(** [components.forEach((component, componentName) => ...)] of
    [updateComponents], for the components of entity [e]; [sel] is the test
    on the component name that the branch makes.  A call that throws ends
    the iteration. *)
Fixpoint forEach_component (sel : string -> bool) (ed : option Editor)
    (cs : ComponentSystem) (now dt : Q) (e : EntityId)
    (comps : list (string * Component))
  : Res unit * list (string * Component) * list Effect :=
  match comps with
  | [] => (Normal tt, [], [])
  | (name, c) :: rest =>
      if sel name && has_update c then
        let '(r, c', fx) := Component_update ed cs now dt c in
        match r with
        | Throw => (Throw, (name, c') :: rest, UpdateCall e name dt :: fx)
        | Normal _ =>
            let '(r', rest', fx') := forEach_component sel ed cs now dt e rest in
            (r', (name, c') :: rest', (UpdateCall e name dt :: fx) ++ fx')
        end
      else
        let '(r', rest', fx') := forEach_component sel ed cs now dt e rest in
        (r', (name, c) :: rest', fx')
  end.

(** [this.entityComponents.forEach((components, entityId) => ...)] *)
Fixpoint forEach_entity (sel : string -> bool) (ed : option Editor)
    (cs : ComponentSystem) (now dt : Q)
    (store : list (EntityId * list (string * Component)))
  : Res unit * list (EntityId * list (string * Component)) * list Effect :=
  match store with
  | [] => (Normal tt, [], [])
  | (e, comps) :: rest =>
      let '(r, comps', fx) := forEach_component sel ed cs now dt e comps in
      match r with
      | Throw => (Throw, (e, comps') :: rest, fx)
      | Normal _ =>
          let '(r', rest', fx') := forEach_entity sel ed cs now dt rest in
          (r', (e, comps') :: rest', fx ++ fx')
      end
  end.

Definition all_names (name : string) : bool := true.
Definition not_Script (name : string) : bool := negb (name =? "Script").

Definition update_pass (sel : string -> bool) (ed : option Editor)
    (now dt : Q) (cs : ComponentSystem) : Res unit * ComponentSystem :=
  let '(r, store, fx) := forEach_entity sel ed cs now dt (entityComponents cs) in
  (r, record fx (with_store store cs)).

(** [updateComponents(deltaTime)] *)
Definition updateComponents (ed : option Editor) (now dt : Q)
    (cs : ComponentSystem) : Res unit * ComponentSystem :=
  match ed with
  | None => (Normal tt, cs)
  | Some editor =>
      if editorMode editor =? "play" then update_pass all_names ed now dt cs
      else if editorMode editor =? "pause" then update_pass not_Script ed now dt cs
      else update_pass not_Script ed now dt cs
  end.

(** ** Starting, stopping and resetting the scripts *)

(** The [Script] component of an entity that has a compiled instance. *)
Definition compiled_script (comps : list (string * Component))
  : option (Component * Script * ScriptInstance) :=
  match Map_get "Script" comps with
  | Some c =>
      match body c with
      | BScript s =>
          match scriptInstance s with
          | Some inst => Some (c, s, inst)
          | None => None
          end
      | BForeign _ => None
      end
  | None => None
  end.

Definition zero_time (c : Component) (s : Script) (inst : ScriptInstance)
    (comps : list (string * Component)) : list (string * Component) :=
  Map_set "Script"
    (mkComponent (ref c)
       (BScript (with_instance (Some (with_time (mkTime 0 0) inst)) s)))
    comps.

(** The body of the loop of [startScriptExecution]. *)
Definition start_entity (e : EntityId) (comps : list (string * Component))
  : list (string * Component) * list Effect :=
  match compiled_script comps with
  | Some (c, s, inst) =>
      (zero_time c s inst comps,
       match start inst with
       | None => []
       | Some Returns => [HookCall HStart e]
       | Some Throws => [HookCall HStart e; ConsoleError (ErrStart e)]
       end)
  | None => (comps, [])
  end.

Fixpoint start_all (store : list (EntityId * list (string * Component)))
  : list (EntityId * list (string * Component)) * list Effect :=
  match store with
  | [] => ([], [])
  | (e, comps) :: rest =>
      let '(comps', fx) := start_entity e comps in
      let '(rest', fx') := start_all rest in
      ((e, comps') :: rest', fx ++ fx')
  end.

(** [startScriptExecution()], at [performance.now() = now] *)
Definition startScriptExecution (now : Q) (cs : ComponentSystem) : ComponentSystem :=
  let cs1 := with_clock now (scriptPauseTime cs) 0 cs in
  let '(store, fx) := start_all (entityComponents cs1) in
  record fx (with_store store cs1).

(** The body of the loop of [stopScriptExecution]. *)
Definition stop_entity (e : EntityId) (comps : list (string * Component))
  : list Effect :=
  match compiled_script comps with
  | Some (_, _, inst) =>
      match onDestroy inst with
      | None => []
      | Some Returns => [HookCall HOnDestroy e]
      | Some Throws => [HookCall HOnDestroy e; ConsoleError (ErrDestroying e)]
      end
  | None => []
  end.

(** [stopScriptExecution()] *)
Definition stopScriptExecution (cs : ComponentSystem) : ComponentSystem :=
  record (flat_map (fun ec => stop_entity (fst ec) (snd ec)) (entityComponents cs)) cs.

Definition reset_entity (comps : list (string * Component))
  : list (string * Component) :=
  match compiled_script comps with
  | Some (c, s, inst) => zero_time c s inst comps
  | None => comps
  end.

(** [resetScriptExecution()] *)
Definition resetScriptExecution (cs : ComponentSystem) : ComponentSystem :=
  with_store
    (map (fun ec => (fst ec, reset_entity (snd ec))) (entityComponents cs))
    (with_clock 0 0 0 cs).

(** ** The registry and the entity-component store *)

(** [registerComponent(name, componentClass)] *)
Definition registerComponent (name : string) (cls : Class) (cs : ComponentSystem)
  : ComponentSystem :=
  mkSystem (Map_set name cls (componentTypes cs)) (entityComponents cs)
    (scriptStartTime cs) (scriptPauseTime cs) (totalPausedTime cs)
    (updateableComponents cs) (nextRef cs)
    (journal cs ++ [ConsoleLog (Registered name)]).

(** [new ComponentClass(entityId, data)]; [None] when the constructor throws. *)
Definition construct (ed : option Editor) (cls : Class) (e : EntityId) (data : Data)
  : option (Body * list Effect) :=
  match cls with
  | ScriptClass => let '(s, fx) := Script_new ed e data in Some (BScript s, fx)
  | ForeignClass ctor =>
      match ctor e data with
      | Some o => Some (BForeign o, [])
      | None => None
      end
  end.

(** The component map of an entity, once step "ensure entity has component
    map" of [addComponent] has run. *)
Definition ensure_entity (e : EntityId)
    (store : list (EntityId * list (string * Component)))
  : list (EntityId * list (string * Component)) :=
  if Map_has e store then store else Map_set e [] store.

Definition components_of (e : EntityId)
    (store : list (EntityId * list (string * Component)))
  : list (string * Component) :=
  match Map_get e store with Some comps => comps | None => [] end.

(** [addComponent(entityId, componentName, data)] *)
Definition addComponent (ed : option Editor) (e : EntityId) (name : string)
    (data : Data) (cs : ComponentSystem) : Res Component * ComponentSystem :=
  match Map_get name (componentTypes cs) with
  | None => (Throw, cs)
  | Some cls =>
      let store1 := ensure_entity e (entityComponents cs) in
      let comps := components_of e store1 in
      match Map_get name comps with
      | Some c =>
          (Normal c, record [ConsoleWarn (WarnAlreadyHas e name)] (with_store store1 cs))
      | None =>
          match construct ed cls e data with
          | None => (Throw, with_store store1 cs)
          | Some (b, fx) =>
              let c := mkComponent (nextRef cs) b in
              (Normal c,
               mkSystem (componentTypes cs)
                 (Map_set e (Map_set name c comps) store1)
                 (scriptStartTime cs) (scriptPauseTime cs) (totalPausedTime cs)
                 (if has_update c then updateableComponents cs ++ [ref c]
                  else updateableComponents cs)
                 (S (nextRef cs))
                 (journal cs ++ fx ++
                  [Emit COMPONENT_ADDED e name c; ConsoleLog (Added e name)]))
          end
      end
  end.

(** [removeComponent(entityId, componentName)] *)
Definition removeComponent (e : EntityId) (name : string) (cs : ComponentSystem)
  : Res bool * ComponentSystem :=
  match Map_get e (entityComponents cs) with
  | None => (Normal false, record [ConsoleWarn (WarnNotFound e name)] cs)
  | Some comps =>
      match Map_get name comps with
      | None => (Normal false, record [ConsoleWarn (WarnNotFound e name)] cs)
      | Some c =>
          let called := if has_destroy c then [DestroyCall e name] else [] in
          match Component_destroy c with
          | (Throw, _, fx) => (Throw, record (called ++ fx) cs)
          | (Normal _, c', fx) =>
              let comps' := Map_delete name comps in
              (Normal true,
               mkSystem (componentTypes cs)
                 (match comps' with
                  | [] => Map_delete e (entityComponents cs)
                  | _ => Map_set e comps' (entityComponents cs)
                  end)
                 (scriptStartTime cs) (scriptPauseTime cs) (totalPausedTime cs)
                 (remove Nat.eq_dec (ref c) (updateableComponents cs))
                 (nextRef cs)
                 (journal cs ++ called ++ fx ++
                  [Emit COMPONENT_REMOVED e name c'; ConsoleLog (Removed e name)]))
          end
      end
  end.

(** [getComponent(entityId, componentName)] *)
Definition getComponent (e : EntityId) (name : string) (cs : ComponentSystem)
  : option Component :=
  match Map_get e (entityComponents cs) with
  | None => None
  | Some comps => Map_get name comps
  end.

(** [getComponents(entityId)] *)
Definition getComponents (e : EntityId) (cs : ComponentSystem) : list Component :=
  match Map_get e (entityComponents cs) with
  | None => []
  | Some comps => map snd comps
  end.

(** [hasComponent(entityId, componentName)] *)
Definition hasComponent (e : EntityId) (name : string) (cs : ComponentSystem) : bool :=
  match Map_get e (entityComponents cs) with
  | None => false
  | Some comps => Map_has name comps
  end.

(** [componentNames.forEach(componentName => this.removeComponent(...))] *)
Fixpoint remove_each (e : EntityId) (names : list string) (cs : ComponentSystem)
  : Res unit * ComponentSystem :=
  match names with
  | [] => (Normal tt, cs)
  | name :: rest =>
      match removeComponent e name cs with
      | (Throw, cs') => (Throw, cs')
      | (Normal _, cs') => remove_each e rest cs'
      end
  end.

(** [removeAllComponents(entityId)] *)
Definition removeAllComponents (e : EntityId) (cs : ComponentSystem)
  : Res unit * ComponentSystem :=
  match Map_get e (entityComponents cs) with
  | None => (Normal tt, cs)
  | Some comps => remove_each e (map fst comps) cs
  end.

End Runtime.

(** ** Stopping playback *)

(** Modelled from the spec: the driver of the mode transitions
    ([playScene], [pauseScene], [stopScene] of the editor) is not part of the
    sources at hand; only the methods of [ComponentSystem] it calls are.  The
    specification gives the stop transition as: invoke [onDestroy()] on every
    Script instance, then reset the clock fields to zero.  These are
    [stopScriptExecution] followed by [resetScriptExecution]. *)
Definition stop_transition (cs : ComponentSystem) : ComponentSystem :=
  resetScriptExecution (stopScriptExecution cs).

(** ** Reading the journal *)

Fixpoint update_calls (fx : list Effect) : list (EntityId * string * Q) :=
  match fx with
  | [] => []
  | UpdateCall e name dt :: rest => (e, name, dt) :: update_calls rest
  | _ :: rest => update_calls rest
  end.

Fixpoint hook_calls (h : Hook) (fx : list Effect) : list EntityId :=
  match fx with
  | [] => []
  | HookCall h' e :: rest =>
      match h, h' with
      | HStart, HStart | HUpdate, HUpdate | HOnDestroy, HOnDestroy =>
          e :: hook_calls h rest
      | _, _ => hook_calls h rest
      end
  | _ :: rest => hook_calls h rest
  end.

Fixpoint emissions (fx : list Effect) : list Effect :=
  match fx with
  | [] => []
  | Emit ev e name c :: rest => Emit ev e name c :: emissions rest
  | _ :: rest => emissions rest
  end.

(** The [update] calls one pass owes: every component with an [update]
    method whose name passes [sel], entity by entity. *)
Definition due_in (sel : string -> bool) (dt : Q) (e : EntityId)
    (comps : list (string * Component)) : list (EntityId * string * Q) :=
  flat_map
    (fun nc => if sel (fst nc) && has_update (snd nc) then [(e, fst nc, dt)] else [])
    comps.

Definition due (sel : string -> bool) (dt : Q)
    (store : list (EntityId * list (string * Component)))
  : list (EntityId * string * Q) :=
  flat_map (fun ec => due_in sel dt (fst ec) (snd ec)) store.

(** Whether [component.update(deltaTime)] throws; what a script's hook
    throws stays inside [Script.update]. *)
Definition update_throws (c : Component) : bool :=
  match body c with
  | BScript _ => false
  | BForeign o => match f_update o with Some Throws => true | _ => false end
  end.

(** No [update] of a component that passes [sel] throws. *)
Definition updates_return (sel : string -> bool)
    (store : list (EntityId * list (string * Component))) : bool :=
  forallb
    (fun ec => forallb (fun nc => negb (sel (fst nc) && update_throws (snd nc))) (snd ec))
    store.

(** Whether the Script component of an entity has a compiled instance with
    an [onDestroy] function. *)
Definition exposes_onDestroy (comps : list (string * Component)) : bool :=
  match compiled_script comps with
  | Some (_, _, inst) => match onDestroy inst with Some _ => true | None => false end
  | None => false
  end.

(** Whether it has one with a [start] function. *)
Definition exposes_start (comps : list (string * Component)) : bool :=
  match compiled_script comps with
  | Some (_, _, inst) => match start inst with Some _ => true | None => false end
  | None => false
  end.

(** Whether the [onDestroy] function of the compiled instance throws. *)
Definition onDestroy_throws (comps : list (string * Component)) : bool :=
  match compiled_script comps with
  | Some (_, _, inst) => match onDestroy inst with Some Throws => true | _ => false end
  | None => false
  end.

Fixpoint console_errors (fx : list Effect) : list Line :=
  match fx with
  | [] => []
  | ConsoleError l :: rest => l :: console_errors rest
  | _ :: rest => console_errors rest
  end.

(** The entities of the store whose component map satisfies [p]. *)
Definition entities_where (p : list (string * Component) -> bool)
    (store : list (EntityId * list (string * Component))) : list EntityId :=
  map fst (filter (fun ec => p (snd ec)) store).

(** How many components entity [e] holds under the type name [name]. *)
Definition count_components (e : EntityId) (name : string) (cs : ComponentSystem) : nat :=
  List.length (filter (fun nc => fst nc =? name) (components_of e (entityComponents cs))).

(** What was appended to the journal between two states. *)
Definition new_entries (before after : ComponentSystem) : list Effect :=
  skipn (List.length (journal before)) (journal after).

(** ** States the store can reach *)

(** Keys are unique, in the store and in every component map. *)
Definition store_wf (store : list (EntityId * list (string * Component))) : Prop :=
  NoDup (map fst store) /\
  forall e comps, In (e, comps) store -> NoDup (map fst comps).

(** No entity of the store has an empty component map. *)
Definition no_empty_maps (store : list (EntityId * list (string * Component))) : Prop :=
  Forall (fun ec => snd ec <> []) store.

Definition fresh_system (types : list (string * Class)) : ComponentSystem :=
  mkSystem types [] 0 0 0 [] 0 [].

Inductive reachable (engine : JsVal -> EvalResult) : ComponentSystem -> Prop :=
| reach_fresh types : reachable engine (fresh_system types)
| reach_register name cls cs :
    reachable engine cs -> reachable engine (registerComponent name cls cs)
| reach_add ed e name data cs :
    reachable engine cs ->
    reachable engine (snd (addComponent engine ed e name data cs))
| reach_remove e name cs :
    reachable engine cs -> reachable engine (snd (removeComponent e name cs))
| reach_removeAll e cs :
    reachable engine cs -> reachable engine (snd (removeAllComponents e cs)).

(** ** Sample scripts, classes and scenes *)

(** What a JavaScript engine answers on a few script texts. *)
Definition sample_engine (code : JsVal) : EvalResult :=
  match code with
  | JStr "function update( {" => ParseFails
  | JStr "undefinedFunction();" => EvalThrows no_hooks
  | JStr "this.update = function () {}; throw new Error('late');" =>
      EvalThrows (mkHooks None (Some Returns) None)
  | JStr "function start() {} function update() {}" =>
      EvalDefines no_hooks (mkHooks (Some Returns) (Some Returns) None)
  | JStr "function start() { throw new Error('boom'); } function onDestroy() {}" =>
      EvalDefines no_hooks (mkHooks (Some Throws) None (Some Returns))
  | JStr "function update() { throw new Error('tick'); }" =>
      EvalDefines no_hooks (mkHooks None (Some Throws) None)
  | _ => EvalDefines no_hooks no_hooks
  end.

(** A class whose instances keep their data and have well-behaved [update]
    and [destroy] methods, as Collider and Light do on a healthy scene. *)
Definition Proxy : Class :=
  ForeignClass (fun _ data => Some (mkForeign data (Some Returns) (Some Returns))).

(** A plugin class whose [update] throws. *)
Definition Faulty : Class :=
  ForeignClass (fun _ data => Some (mkForeign data (Some Throws) (Some Returns))).

(** A plugin class whose constructor throws. *)
Definition Unbuildable : Class := ForeignClass (fun _ _ => None).

Definition sample_types : list (string * Class) :=
  [("Script", ScriptClass); ("Collider", Proxy); ("Light", Proxy);
   ("Faulty", Faulty); ("Unbuildable", Unbuildable)].

Definition sample_scene (mode : string) : Editor :=
  mkEditor mode [("e1", 1%nat); ("e2", 2%nat)].

Definition sample_editor (mode : string) : option Editor :=
  Some (sample_scene mode).

(** [addComponent] in a run of calls: the state after the call, whatever
    the call returned. *)
Definition add (mode : string) (e : EntityId) (name : string) (data : Data)
    (cs : ComponentSystem) : ComponentSystem :=
  snd (addComponent sample_engine (sample_editor mode) e name data cs).

Definition well_behaved : Data :=
  [("scriptCode", JStr "function start() {} function update() {}")].

(** Entity e1 with a Script and a Light, entity e2 with a Script. *)
Definition healthy_system : ComponentSystem :=
  add "edit" "e2" "Script" well_behaved
    (add "edit" "e1" "Light" []
       (add "edit" "e1" "Script" well_behaved (fresh_system sample_types))).

(** Entity e1 with a component whose [update] throws and a Light, entity e2
    with a Script. *)
Definition faulty_system : ComponentSystem :=
  add "edit" "e2" "Script" well_behaved
    (add "edit" "e1" "Light" []
       (add "edit" "e1" "Faulty" [] (fresh_system sample_types))).

(** Entity e1 with a Script whose [update] hook throws, entity e2 with a
    well-behaved Script. *)
Definition noisy_system : ComponentSystem :=
  add "edit" "e2" "Script" well_behaved
    (add "edit" "e1" "Script"
       [("scriptCode", JStr "function update() { throw new Error('tick'); }")]
       (fresh_system sample_types)).

(** Entity e1 with a Script whose [start] hook throws, entity e2 with a
    well-behaved Script. *)
Definition rough_start_system : ComponentSystem :=
  add "edit" "e2" "Script" well_behaved
    (add "edit" "e1" "Script"
       [("scriptCode",
         JStr "function start() { throw new Error('boom'); } function onDestroy() {}")]
       (fresh_system sample_types)).

(** Entity e1 with a compiled Script whose [enabled] flag is false. *)
Definition disabled_system : ComponentSystem :=
  add "edit" "e1" "Script" (("enabled", JBool false) :: well_behaved)
    (fresh_system sample_types).

(** ** Further readings of the store and the journal *)

(** Whether [component.destroy()] throws; [Script.destroy] catches what the
    [onDestroy] hook throws. *)
Definition destroy_throws (c : Component) : bool :=
  match body c with
  | BScript _ => false
  | BForeign o => match f_destroy o with Some Throws => true | _ => false end
  end.

(** The component object once [destroy()] has run on it. *)
Definition destroyed (c : Component) : Component := snd (fst (Component_destroy c)).

Fixpoint destroy_calls (fx : list Effect) : list (EntityId * string) :=
  match fx with
  | [] => []
  | DestroyCall e name :: rest => (e, name) :: destroy_calls rest
  | _ :: rest => destroy_calls rest
  end.

(** The components in front of the first one whose [destroy] throws, and
    the components from that one on. *)
Fixpoint removable (comps : list (string * Component)) : list (string * Component) :=
  match comps with
  | [] => []
  | (name, c) :: rest => if destroy_throws c then [] else (name, c) :: removable rest
  end.

Fixpoint survivors (comps : list (string * Component)) : list (string * Component) :=
  match comps with
  | [] => []
  | (name, c) :: rest => if destroy_throws c then comps else survivors rest
  end.

(** Every object in the set of updateable components was allocated. *)
Definition refs_allocated (cs : ComponentSystem) : Prop :=
  Forall (fun r => (r < nextRef cs)%nat) (updateableComponents cs).

(** [Script.serialize()] *)
Definition Script_serialize (s : Script) : Data :=
  [("scriptName", scriptName s); ("scriptCode", scriptCode s);
   ("enabled", enabled s); ("variables", variables s)].

(** Looking a component up in a store. *)
Definition lookup (store : list (EntityId * list (string * Component)))
    (e : EntityId) (name : string) : option Component :=
  match Map_get e store with
  | None => None
  | Some comps => Map_get name comps
  end.

(** A plugin class whose [destroy] throws. *)
Definition Sticky : Class :=
  ForeignClass (fun _ data => Some (mkForeign data None (Some Throws))).

(** Entity e1 with a Light, a component whose [destroy] throws and a
    Script. *)
Definition sticky_system : ComponentSystem :=
  add "edit" "e1" "Script" well_behaved
    (add "edit" "e1" "Sticky" []
       (add "edit" "e1" "Light" []
          (registerComponent "Sticky" Sticky (fresh_system sample_types)))).

(** Entity e1 with a Script that has an [onDestroy] hook. *)
Definition mortal_system : ComponentSystem :=
  add "edit" "e1" "Script"
    [("scriptCode",
      JStr "function start() { throw new Error('boom'); } function onDestroy() {}")]
    (fresh_system sample_types).

(** ** Runs of the clock *)

(** From wall-clock time [t]: for each pair (d, p) in turn, pause after
    playing for [d] and resume after a pause of [p].  The result is the
    wall-clock time of the last resume and the state then. *)
Fixpoint pause_resume_cycles (t : Q) (cycles : list (Q * Q)) (cs : ComponentSystem)
  : Q * ComponentSystem :=
  match cycles with
  | [] => (t, cs)
  | (d, p) :: rest =>
      pause_resume_cycles (t + d + p) rest
        (resumeScriptExecution (t + d + p) (pauseScriptExecution (t + d) cs))
  end.

Definition total (l : list Q) : Q := fold_right Qplus 0 l.

(** ** Scripts, templates and saved components *)

(** [registerScriptTemplate(name, scriptCode)], on the map of templates
    (its console line is not recorded). *)
Definition registerScriptTemplate (name : string) (code : JsVal)
    (scriptTemplates : list (string * JsVal)) : list (string * JsVal) :=
  Map_set name code scriptTemplates.

(** A parameter with the default value [{}]. *)
Definition or_empty_object (v : JsVal) : JsVal :=
  match v with JUndefined => JObj [] | _ => v end.

(** [addScript(entityId, scriptName, scriptCode, variables = {})] *)
Definition addScript (engine : JsVal -> EvalResult) (ed : option Editor)
    (e : EntityId) (name code vars : JsVal) (cs : ComponentSystem)
  : Res Component * ComponentSystem :=
  addComponent engine ed e "Script"
    [("scriptName", name); ("scriptCode", code); ("variables", or_empty_object vars)]
    cs.

(** [addScriptFromTemplate(entityId, templateName, variables = {})] *)
Definition addScriptFromTemplate (engine : JsVal -> EvalResult) (ed : option Editor)
    (scriptTemplates : list (string * JsVal))
    (e : EntityId) (templateName : string) (vars : JsVal) (cs : ComponentSystem)
  : Res Component * ComponentSystem :=
  match Map_get templateName scriptTemplates with
  | Some code =>
      if truthy code
      then addScript engine ed e (JStr templateName) code (or_empty_object vars) cs
      else (Throw, cs)
  | None => (Throw, cs)
  end.

(** [deserializeEntity(entityId, componentData)], on the entries of
    [componentData] in the order of [Object.entries].  Next to the state,
    the names of the components whose [addComponent] threw: one
    [console.error] line each. *)
Fixpoint deserializeEntity (engine : JsVal -> EvalResult) (ed : option Editor)
    (e : EntityId) (componentData : list (string * Data)) (cs : ComponentSystem)
  : ComponentSystem * list string :=
  match componentData with
  | [] => (cs, [])
  | (name, data) :: rest =>
      match addComponent engine ed e name data cs with
      | (Normal _, cs') => deserializeEntity engine ed e rest cs'
      | (Throw, cs') =>
          let '(cs'', failed) := deserializeEntity engine ed e rest cs' in
          (cs'', name :: failed)
      end
  end.

(** ** The event bus *)

Module EventBus.

(** A callback is a function object: [fn] is its identity ([===]), [ends]
    says how a call of it ends.  What a callback does to the bus while it
    runs is outside the model. *)
Record Callback := mkCallback { fn : nat; ends : Outcome }.

Record Listener := mkListener { callback : Callback; context : JsVal }.

Inductive Log :=
| Subscribed (eventType : string)
| SubscribedOnce (eventType : string)
| Unsubscribed (eventType : string)
| UnsubscribedOnce (eventType : string)
| Emitting (eventType : string) (data : JsVal)
| Cleared (eventType : string)
| ClearedAll
| DebugMode (enabled : bool).

(** What [this] is in a call of a callback: the context of the listener,
    when [callback.call(context, data)] is used, and otherwise the listener
    record itself, of which [callback] is called as a method. *)
Inductive This :=
| TheContext (ctx : JsVal)
| TheListener (l : Listener).

Inductive Effect :=
| Invoked (eventType : string) (f : nat) (this : This) (data : JsVal)
| ConsoleError (eventType : string) (once : bool)
| ConsoleLog (l : Log).

Record Bus := mkBus {
  events : list (string * list Listener);
  onceEvents : list (string * list Listener);
  debugMode : bool
}.

(** [new EventBus()] *)
Definition empty : Bus := mkBus [] [] false.

Definition debug (bus : Bus) (l : Log) : list Effect :=
  if debugMode bus then [ConsoleLog l] else [].

(** A parameter with the default value [null]. *)
Definition or_null (v : JsVal) : JsVal :=
  match v with JUndefined => JNull | _ => v end.

Definition listeners_of (eventType : string) (m : list (string * list Listener))
  : list Listener :=
  match Map_get eventType m with Some ls => ls | None => [] end.

(** [if (!m.has(t)) m.set(t, []); m.get(t).push(listener)] *)
Definition push (eventType : string) (l : Listener) (m : list (string * list Listener))
  : list (string * list Listener) :=
  Map_set eventType (listeners_of eventType m ++ [l]) m.

(** [on(eventType, callback, context = null)] *)
Definition on (eventType : string) (cb : Callback) (ctx : JsVal) (bus : Bus)
  : Bus * list Effect :=
  (mkBus (push eventType (mkListener cb (or_null ctx)) (events bus))
     (onceEvents bus) (debugMode bus),
   debug bus (Subscribed eventType)).

(** [once(eventType, callback, context = null)] *)
Definition once (eventType : string) (cb : Callback) (ctx : JsVal) (bus : Bus)
  : Bus * list Effect :=
  (mkBus (events bus)
     (push eventType (mkListener cb (or_null ctx)) (onceEvents bus))
     (debugMode bus),
   debug bus (SubscribedOnce eventType)).

(** [listeners.findIndex(l => l.callback === callback)] followed by
    [splice(index, 1)]: the list without the first listener of the
    callback, and whether there was one. *)
Fixpoint splice_first (cb : Callback) (ls : list Listener) : list Listener * bool :=
  match ls with
  | [] => ([], false)
  | l :: rest =>
      if Nat.eqb (fn (callback l)) (fn cb) then (rest, true)
      else let '(rest', found) := splice_first cb rest in (l :: rest', found)
  end.

(** The body shared by [off] and [offOnce], on one of the two maps. *)
Definition unsubscribe (eventType : string) (cb : Callback)
    (m : list (string * list Listener))
  : list (string * list Listener) * bool :=
  match Map_get eventType m with
  | None => (m, false)
  | Some ls =>
      let '(ls', found) := splice_first cb ls in
      (match ls' with
       | [] => Map_delete eventType m
       | _ => Map_set eventType ls' m
       end, found)
  end.

(** [off(eventType, callback)] *)
Definition off (eventType : string) (cb : Callback) (bus : Bus) : Bus * list Effect :=
  let '(m, found) := unsubscribe eventType cb (events bus) in
  (mkBus m (onceEvents bus) (debugMode bus),
   if found then debug bus (Unsubscribed eventType) else []).

(** [offOnce(eventType, callback)] *)
Definition offOnce (eventType : string) (cb : Callback) (bus : Bus) : Bus * list Effect :=
  let '(m, found) := unsubscribe eventType cb (onceEvents bus) in
  (mkBus (events bus) m (debugMode bus),
   if found then debug bus (UnsubscribedOnce eventType) else []).

(** [if (listener.context) listener.callback.call(listener.context, data);
    else listener.callback(data);]: the value of [this] in the call. *)
Definition this_of (l : Listener) : This :=
  if truthy (context l) then TheContext (context l) else TheListener l.

(** One listener called inside its [try]. *)
Definition call (isOnce : bool) (eventType : string) (data : JsVal) (l : Listener)
  : list Effect :=
  Invoked eventType (fn (callback l)) (this_of l) data
  :: match ends (callback l) with
     | Returns => []
     | Throws => [ConsoleError eventType isOnce]
     end.

(** [emit(eventType, data = null)] *)
Definition emit (eventType : string) (data : JsVal) (bus : Bus) : Bus * list Effect :=
  let d := or_null data in
  let fx0 := debug bus (Emitting eventType d) in
  let fx1 :=
    match Map_get eventType (events bus) with
    | Some ls => flat_map (call false eventType d) ls
    | None => []
    end in
  match Map_get eventType (onceEvents bus) with
  | Some ls =>
      (mkBus (events bus) (Map_delete eventType (onceEvents bus)) (debugMode bus),
       fx0 ++ fx1 ++ flat_map (call true eventType d) ls)
  | None => (bus, fx0 ++ fx1)
  end.

(** [clear(eventType)]; [None] is a call without argument or with
    [null]. *)
Definition clear (eventType : option string) (bus : Bus) : Bus * list Effect :=
  match eventType with
  | Some t =>
      if negb (t =? "")
      then (mkBus (Map_delete t (events bus)) (Map_delete t (onceEvents bus))
              (debugMode bus),
            debug bus (Cleared t))
      else (mkBus [] [] (debugMode bus), debug bus ClearedAll)
  | None => (mkBus [] [] (debugMode bus), debug bus ClearedAll)
  end.

(** [listenerCount(eventType)] *)
Definition listenerCount (eventType : string) (bus : Bus) : nat :=
  (match Map_get eventType (events bus) with
   | Some ls => List.length ls | None => 0
   end +
   match Map_get eventType (onceEvents bus) with
   | Some ls => List.length ls | None => 0
   end)%nat.

(** [[...new Set(l)]]: the first occurrence of each element, in order. *)
Fixpoint uniq (l : list string) : list string :=
  match l with
  | [] => []
  | x :: rest => x :: filter (fun y => negb (y =? x)) (uniq rest)
  end.

(** [getEventTypes()] *)
Definition getEventTypes (bus : Bus) : list string :=
  uniq (map fst (events bus) ++ map fst (onceEvents bus)).

(** [setDebugMode(enabled)] *)
Definition setDebugMode (enabled : bool) (bus : Bus) : Bus * list Effect :=
  (mkBus (events bus) (onceEvents bus) enabled, [ConsoleLog (DebugMode enabled)]).

(** The emitter that [namespace(ns)] returns. *)
Definition qualified (ns eventType : string) : string := ns ++ ":" ++ eventType.

Definition ns_on (ns eventType : string) (cb : Callback) (ctx : JsVal) (bus : Bus) :=
  on (qualified ns eventType) cb ctx bus.

Definition ns_once (ns eventType : string) (cb : Callback) (ctx : JsVal) (bus : Bus) :=
  once (qualified ns eventType) cb ctx bus.

Definition ns_off (ns eventType : string) (cb : Callback) (bus : Bus) :=
  off (qualified ns eventType) cb bus.

Definition ns_emit (ns eventType : string) (data : JsVal) (bus : Bus) :=
  emit (qualified ns eventType) data bus.

Definition ns_clear (ns : string) (eventType : option string) (bus : Bus) :=
  clear
    (match eventType with
     | Some t => if negb (t =? "") then Some (qualified ns t) else None
     | None => None
     end)
    bus.

(** The calls of callbacks among the effects: function, [this], data. *)
Fixpoint invocations (fx : list Effect) : list (nat * This * JsVal) :=
  match fx with
  | [] => []
  | Invoked _ f this data :: rest => (f, this, data) :: invocations rest
  | _ :: rest => invocations rest
  end.

Fixpoint errors (fx : list Effect) : nat :=
  match fx with
  | [] => 0
  | ConsoleError _ _ :: rest => S (errors rest)
  | _ :: rest => errors rest
  end.

Definition invocation (data : JsVal) (l : Listener) : nat * This * JsVal :=
  (fn (callback l), this_of l, data).

Definition throwing (l : Listener) : bool :=
  match ends (callback l) with Throws => true | Returns => false end.

(** How many listeners of [eventType] in [m] have the callback [cb]. *)
Definition subscriptions (eventType : string) (cb : Callback)
    (m : list (string * list Listener)) : nat :=
  List.length
    (filter (fun l => Nat.eqb (fn (callback l)) (fn cb)) (listeners_of eventType m)).

(** The buses that calls of the methods produce. *)
Inductive reachable : Bus -> Prop :=
| reach_empty : reachable empty
| reach_on t cb ctx bus : reachable bus -> reachable (fst (on t cb ctx bus))
| reach_once t cb ctx bus : reachable bus -> reachable (fst (once t cb ctx bus))
| reach_off t cb bus : reachable bus -> reachable (fst (off t cb bus))
| reach_offOnce t cb bus : reachable bus -> reachable (fst (offOnce t cb bus))
| reach_emit t data bus : reachable bus -> reachable (fst (emit t data bus))
| reach_clear t bus : reachable bus -> reachable (fst (clear t bus))
| reach_debug b bus : reachable bus -> reachable (fst (setDebugMode b bus)).

(** Every event type in a map has a listener, and is there once. *)
Definition tidy (m : list (string * list Listener)) : Prop :=
  NoDup (map fst m) /\ Forall (fun p => snd p <> []) m.

End EventBus.

(** ** The update loop *)

(** The loop that [startUpdateLoop] sets up: the flag [isUpdating] of the
    component system, the variables [lastTime] and [frameCount] of the
    closure, and whether a call of the closure is pending with
    [requestAnimationFrame]. *)
Record Loop := mkLoop {
  isUpdating : bool;
  lastTime : Q;
  frameCount : nat;
  pending : bool
}.

(** One call of the closure [update] by the host, at
    [performance.now() = now].  Next to the states, the [deltaTime] passed
    to [updateComponents], if it was called.  When [updateComponents]
    throws, the exception leaves the closure before
    [requestAnimationFrame(update)]. *)
Definition frame (ed : option Editor) (now : Q) (l : Loop) (cs : ComponentSystem)
  : Loop * ComponentSystem * list Q :=
  if negb (pending l) then (l, cs, [])
  else if negb (isUpdating l)
  then (mkLoop false (lastTime l) (frameCount l) false, cs, [])
  else
    let dt := fl (fl (now - lastTime l) / 1000) in
    match updateComponents ed now dt cs with
    | (Normal _, cs') => (mkLoop true now (S (frameCount l)) true, cs', [dt])
    | (Throw, cs') => (mkLoop true now (S (frameCount l)) false, cs', [dt])
    end.

(** [startUpdateLoop()]: it reads the clock, then calls [update] once
    itself, which reads the clock again. *)
Definition startUpdateLoop (ed : option Editor) (now now' : Q) (cs : ComponentSystem)
  : Loop * ComponentSystem * list Q :=
  frame ed now' (mkLoop true now 0 true) cs.

(** [stopUpdateLoop()] *)
Definition stopUpdateLoop (l : Loop) : Loop :=
  mkLoop false (lastTime l) (frameCount l) (pending l).

(** The frames the host renders: for each, the reading of the clock and the
    editor as it is then. *)
Fixpoint run_frames (frames : list (Q * option Editor)) (l : Loop) (cs : ComponentSystem)
  : Loop * ComponentSystem * list Q :=
  match frames with
  | [] => (l, cs, [])
  | (now, ed) :: rest =>
      let '(l1, cs1, ds) := frame ed now l cs in
      let '(l2, cs2, ds') := run_frames rest l1 cs1 in
      (l2, cs2, ds ++ ds')
  end.

(** The clock readings of the frames do not go back. *)
Fixpoint ascending (t : Q) (frames : list (Q * option Editor)) : Prop :=
  match frames with
  | [] => True
  | (now, _) :: rest => t <= now /\ ascending now rest
  end.

(** ** Disposing of the component system *)

(** [this.entityComponents.forEach((components, entityId) =>
    this.removeAllComponents(entityId))]: an entity is either removed by the
    call made for it or left untouched, so the iteration visits the entities
    that were in the store at the start. *)
Fixpoint dispose_each (ids : list EntityId) (cs : ComponentSystem)
  : Res unit * ComponentSystem :=
  match ids with
  | [] => (Normal tt, cs)
  | e :: rest =>
      match removeAllComponents e cs with
      | (Throw, cs') => (Throw, cs')
      | (Normal _, cs') => dispose_each rest cs'
      end
  end.

(** [dispose()]; the maps [scripts] and [scriptTemplates], which it clears
    too, are not part of the state modelled. *)
Definition dispose (l : Loop) (cs : ComponentSystem)
  : Res unit * Loop * ComponentSystem :=
  match dispose_each (map fst (entityComponents cs)) cs with
  | (Throw, cs') => (Throw, stopUpdateLoop l, cs')
  | (Normal _, cs') =>
      (Normal tt, stopUpdateLoop l,
       mkSystem [] [] (scriptStartTime cs') (scriptPauseTime cs') (totalPausedTime cs')
         [] (nextRef cs') (journal cs'))
  end.

(** The [destroy] calls owed to the components of a store. *)
Definition all_destroys (store : list (EntityId * list (string * Component)))
  : list (EntityId * string) :=
  flat_map
    (fun ec => map (fun nc => (fst ec, fst nc))
                 (filter (fun nc => has_destroy (snd nc)) (snd ec)))
    store.

(** No [destroy] of a component in the store throws. *)
Definition destroys_return (store : list (EntityId * list (string * Component))) : bool :=
  forallb (fun ec => forallb (fun nc => negb (destroy_throws (snd nc))) (snd ec)) store.

(** The component object after its [update(deltaTime)]. *)
Definition ticked (ed : option Editor) (cs : ComponentSystem) (now dt : Q)
    (c : Component) : Component :=
  snd (fst (Component_update ed cs now dt c)).

Unset Implicit Arguments.

(** * Properties *)

Ltac invert_result :=
  let H := fresh "H" in intros H; inversion H; subst; clear H.

(** ** Maps as association lists *)

Section MapFacts.

Context {A : Type}.
Implicit Types (k : string) (m : list (string * A)).

Lemma Map_get_set_same k (v : A) m : Map_get k (Map_set k v m) = Some v.
Proof.
  induction m as [|[k' v'] m IH]; simpl.
  - now rewrite String.eqb_refl.
  - destruct (k' =? k) eqn:E; simpl; rewrite E; auto.
Qed.

Lemma Map_get_set_other k k' (v : A) m :
  k <> k' -> Map_get k' (Map_set k v m) = Map_get k' m.
Proof.
  intros N. induction m as [|[k0 v0] m IH]; simpl.
  - destruct (k =? k') eqn:E; auto. apply String.eqb_eq in E. contradiction.
  - destruct (k0 =? k) eqn:E; simpl.
    + apply String.eqb_eq in E; subst k0.
      destruct (k =? k') eqn:E'; auto.
      apply String.eqb_eq in E'. contradiction.
    + now rewrite IH.
Qed.

Lemma Map_get_In k (v : A) m : Map_get k m = Some v -> In (k, v) m.
Proof.
  induction m as [|[k' v'] m IH]; simpl; [discriminate|].
  destruct (k' =? k) eqn:E.
  - apply String.eqb_eq in E. intros [= ->]. subst. now left.
  - intros H. right. auto.
Qed.

Lemma Map_get_None k m : Map_get k m = None -> ~ In k (map fst m).
Proof.
  induction m as [|[k' v'] m IH]; simpl; [tauto|].
  destruct (k' =? k) eqn:E; [discriminate|].
  apply String.eqb_neq in E. intros H [F|F]; [contradiction|]. now apply IH.
Qed.

Lemma In_Map_set k (v : A) m x :
  In x (Map_set k v m) -> x = (k, v) \/ In x m.
Proof.
  induction m as [|[k' v'] m IH]; simpl.
  - intuition congruence.
  - destruct (k' =? k) eqn:E; simpl.
    + apply String.eqb_eq in E; subst. intuition congruence.
    + intros [H|H]; [tauto|]. apply IH in H. tauto.
Qed.

Lemma In_Map_delete k m x : In x (Map_delete k m) -> In x m.
Proof.
  induction m as [|[k' v'] m IH]; simpl; [tauto|].
  destruct (k' =? k); simpl; [tauto|]. intros [H|H]; auto.
Qed.

Lemma In_keys_Map_set k (v : A) m k' :
  In k' (map fst (Map_set k v m)) -> k' = k \/ In k' (map fst m).
Proof.
  rewrite in_map_iff. intros [[k0 v0] [<- H]]. apply In_Map_set in H.
  destruct H as [[= -> ->]|H]; [now left|]. right. now apply (in_map fst) in H.
Qed.

Lemma NoDup_Map_set k (v : A) m :
  NoDup (map fst m) -> NoDup (map fst (Map_set k v m)).
Proof.
  induction m as [|[k' v'] m IH]; simpl; intros H.
  - constructor; [tauto|constructor].
  - inversion H as [|? ? Hn Hd]; subst.
    destruct (k' =? k) eqn:E; simpl.
    + now constructor.
    + constructor; [|auto]. intros F. apply In_keys_Map_set in F.
      apply String.eqb_neq in E. destruct F; [congruence|contradiction].
Qed.

Lemma NoDup_Map_delete k m :
  NoDup (map fst m) -> NoDup (map fst (Map_delete k m)).
Proof.
  induction m as [|[k' v'] m IH]; simpl; intros H; [constructor|].
  inversion H as [|? ? Hn Hd]; subst.
  destruct (k' =? k); simpl; [assumption|].
  constructor; [|auto]. intros F. apply Hn.
  rewrite in_map_iff in *. destruct F as [x [Hx F]]. exists x. split; [assumption|].
  eapply In_Map_delete; eauto.
Qed.

(** A map with unique keys holds at most one entry under a key. *)
Lemma NoDup_count k m :
  NoDup (map fst m) ->
  (List.length (filter (fun nc => (fst nc =? k)%string) m) <= 1)%nat.
Proof.
  induction m as [|[k' v'] m IH]; simpl; intros H; [lia|].
  inversion H as [|? ? Hn Hd]; subst.
  destruct (k' =? k) eqn:E; simpl; [|auto].
  apply String.eqb_eq in E; subst k'.
  assert (Z : filter (fun nc : string * A => fst nc =? k) m = []).
  { clear - Hn. induction m as [|[k1 v1] m IH]; simpl in *; [reflexivity|].
    destruct (k1 =? k) eqn:E.
    - apply String.eqb_eq in E. tauto.
    - apply IH. tauto. }
  rewrite Z. simpl. lia.
Qed.

End MapFacts.

(** ** The playback clock *)

Lemma start_all_clock now cs :
  scriptStartTime (startScriptExecution now cs) = now /\
  scriptPauseTime (startScriptExecution now cs) = scriptPauseTime cs /\
  totalPausedTime (startScriptExecution now cs) = 0.
Proof.
  unfold startScriptExecution. simpl.
  destruct (start_all (entityComponents cs)) as [store fx]. simpl. auto.
Qed.

Lemma Qpositive_true a : 0 < a -> Qpositive a = true.
Proof.
  intros H. unfold Qpositive. destruct (Qle_bool a 0) eqn:E; [|reflexivity].
  apply Qle_bool_iff in E. lra.
Qed.

Lemma Qnonzero a : 0 < a -> Qeq_bool a 0 = false.
Proof.
  intros H. destruct (Qeq_bool a 0) eqn:E; [|reflexivity].
  apply Qeq_bool_iff in E. lra.
Qed.

(** ** Rounding to doubles *)

Lemma two_pow_pos (k : Z) : 0 < 2 ^ k.
Proof. now apply Qpower_0_lt. Qed.

Lemma two_pow_succ (k : Z) : 2 ^ (k + 1) == 2 * 2 ^ k.
Proof. rewrite Qpower_plus by discriminate. change (2 ^ 1) with 2. ring. Qed.

Lemma two_pow_Z (k : Z) : (0 <= k)%Z -> inject_Z (2 ^ k) == 2 ^ k.
Proof. intros H. now rewrite Zpower_Qpower. Qed.

Lemma Qdiv_lt_cross a d b c : 0 < d -> 0 < c -> a * c < b * d -> a / d < b / c.
Proof.
  intros Hd Hc H. apply Qlt_shift_div_r; [assumption|].
  setoid_replace (b / c * d) with (b * d / c) by (field; lra).
  now apply Qlt_shift_div_l.
Qed.

Lemma Z_log2_bounds (a : Z) :
  (0 < a)%Z -> 2 ^ Z.log2 a <= inject_Z a /\ inject_Z a < 2 * 2 ^ Z.log2 a.
Proof.
  intros H. destruct (Z.log2_spec a H) as [L U].
  pose proof (Z.log2_nonneg a) as N.
  rewrite <- two_pow_succ. rewrite <- !two_pow_Z by lia.
  rewrite <- Zle_Qle, <- Zlt_Qlt. unfold Z.succ in U. lia.
Qed.

Lemma Qlog2_spec (x : Q) : 0 < x -> 2 ^ Qlog2 x <= x /\ x < 2 ^ (Qlog2 x + 1).
Proof.
  intros Hx. destruct x as [a d].
  assert (Ha : (0 < a)%Z) by (unfold Qlt in Hx; simpl in Hx; lia).
  destruct (Z_log2_bounds a Ha) as [La Ua].
  destruct (Z_log2_bounds (Zpos d) eq_refl) as [Ld Ud].
  pose proof (two_pow_pos (Z.log2 a)) as Pa.
  pose proof (two_pow_pos (Z.log2 (Zpos d))) as Pd.
  assert (Ex : a # d == inject_Z a / inject_Z (Zpos d)) by apply Qmake_Qdiv.
  assert (Hd : 0 < inject_Z (Zpos d)) by reflexivity.
  unfold Qlog2. simpl Qnum. simpl Qden.
  set (c := (Z.log2 a - Z.log2 (Zpos d))%Z).
  assert (Ec : 2 ^ c == 2 ^ Z.log2 a / 2 ^ Z.log2 (Zpos d))
    by (unfold c; now rewrite Qpower_minus).
  destruct (Qle_bool (2 ^ c) (a # d)) eqn:E.
  - apply Qle_bool_iff in E. split; [assumption|].
    rewrite two_pow_succ, Ec, Ex.
    setoid_replace (2 * (2 ^ Z.log2 a / 2 ^ Z.log2 (Z.pos d)))
      with (2 * 2 ^ Z.log2 a / 2 ^ Z.log2 (Z.pos d)) by (field; lra).
    apply Qdiv_lt_cross; try assumption. nra.
  - assert (E' : a # d < 2 ^ c).
    { apply Qnot_le_lt. intros H. apply Qle_bool_iff in H. congruence. }
    replace (c - 1 + 1)%Z with c by lia. split; [|assumption].
    assert (Ec' : 2 ^ (c - 1) == 2 ^ Z.log2 a / (2 * 2 ^ Z.log2 (Zpos d))).
    { assert (H := two_pow_succ (c - 1)). replace (c - 1 + 1)%Z with c in H by lia.
      rewrite Ec in H. pose proof (two_pow_pos (c - 1)).
      apply (Qmult_inj_l _ _ 2); [discriminate|]. rewrite <- H. field. lra. }
    rewrite Ec', Ex. apply Qlt_le_weak. apply Qdiv_lt_cross; try lra. nra.
Qed.

Lemma round_half_even_floor q :
  (Qfloor q <= round_half_even q <= Qfloor q + 1)%Z.
Proof.
  unfold round_half_even.
  destruct (Qcompare (q - inject_Z (Qfloor q)) (1 # 2)); try lia.
  destruct (Z.even (Qfloor q)); lia.
Qed.

Lemma round_half_even_near q : Qabs (inject_Z (round_half_even q) - q) <= 1 # 2.
Proof.
  pose proof (Qfloor_le q) as L. pose proof (Qlt_floor q) as U.
  rewrite inject_Z_plus in U. change (inject_Z 1) with 1 in U.
  apply Qabs_Qle_condition. unfold round_half_even.
  destruct (Qcompare (q - inject_Z (Qfloor q)) (1 # 2)) eqn:E.
  - apply Qeq_alt in E.
    destruct (Z.even (Qfloor q)); rewrite ?inject_Z_plus; change (inject_Z 1) with 1; lra.
  - apply Qlt_alt in E. lra.
  - apply Qgt_alt in E. rewrite inject_Z_plus. change (inject_Z 1) with 1. lra.
Qed.

Lemma round_half_even_Z q z : q == inject_Z z -> round_half_even q = z.
Proof.
  intros H. unfold round_half_even. rewrite (Qfloor_comp _ _ H), Qfloor_Z.
  assert (E : Qcompare (q - inject_Z z) (1 # 2) = Lt) by (apply (proj1 (Qlt_alt _ _)); lra).
  now rewrite E.
Qed.

Lemma round_half_even_mono p q :
  p <= q -> (round_half_even p <= round_half_even q)%Z.
Proof.
  intros H. pose proof (Qfloor_resp_le _ _ H) as F.
  pose proof (round_half_even_floor p) as Bp.
  pose proof (round_half_even_floor q) as Bq.
  destruct (Z.eq_dec (Qfloor p) (Qfloor q)) as [E|E]; [|lia].
  revert Bp Bq. unfold round_half_even. rewrite E.
  destruct (Qcompare (p - inject_Z (Qfloor q)) (1 # 2)) eqn:Cp;
    destruct (Qcompare (q - inject_Z (Qfloor q)) (1 # 2)) eqn:Cq;
    try (destruct (Z.even (Qfloor q))); intros; try lia;
    first [apply (proj2 (Qeq_alt _ _)) in Cp | apply (proj2 (Qlt_alt _ _)) in Cp
          | apply (proj2 (Qgt_alt _ _)) in Cp];
    first [apply (proj2 (Qeq_alt _ _)) in Cq | apply (proj2 (Qlt_alt _ _)) in Cq
          | apply (proj2 (Qgt_alt _ _)) in Cq];
    lra.
Qed.

Lemma round_half_even_le q z : q <= inject_Z z -> (round_half_even q <= z)%Z.
Proof.
  intros H. apply round_half_even_mono in H.
  now rewrite (round_half_even_Z (inject_Z z) z) in H by reflexivity.
Qed.

Lemma round_half_even_ge q z : inject_Z z <= q -> (z <= round_half_even q)%Z.
Proof.
  intros H. apply round_half_even_mono in H.
  now rewrite (round_half_even_Z (inject_Z z) z) in H by reflexivity.
Qed.

Lemma two_pow_add (n m : Z) : 2 ^ (n + m) == 2 ^ n * 2 ^ m.
Proof. now rewrite Qpower_plus. Qed.

(** The mantissa is below 2^53, up to the rounding. *)
Lemma mantissa_bound (a : Q) :
  0 < a ->
  (0 <= round_half_even (a / 2 ^ Z.max (Qlog2 a - 52) (-1074)) <= 2 ^ 53)%Z.
Proof.
  intros Ha. destruct (Qlog2_spec a Ha) as [L U].
  set (e := Z.max (Qlog2 a - 52) (-1074)).
  pose proof (two_pow_pos e) as P.
  split.
  - apply round_half_even_ge. apply Qle_shift_div_l; [assumption|].
    change (inject_Z 0) with 0. lra.
  - apply round_half_even_le. apply Qle_shift_div_r; [assumption|].
    rewrite two_pow_Z by lia. rewrite <- two_pow_add.
    apply Qlt_le_weak. eapply Qlt_le_trans; [exact U|].
    apply Qpower_le_compat_l; [unfold e; lia|discriminate].
Qed.

Lemma round_magnitude_nonneg (a : Q) : 0 < a -> 0 <= round_magnitude a.
Proof.
  intros Ha. unfold round_magnitude.
  apply Qmult_le_0_compat.
  - change 0 with (inject_Z 0). rewrite <- Zle_Qle. now apply mantissa_bound.
  - apply Qlt_le_weak, two_pow_pos.
Qed.

Lemma round_magnitude_error (a : Q) :
  0 < a -> Qabs (round_magnitude a - a) <= a * unit_roundoff + underflow.
Proof.
  intros Ha. destruct (Qlog2_spec a Ha) as [L _].
  unfold round_magnitude.
  set (e := Z.max (Qlog2 a - 52) (-1074)).
  pose proof (two_pow_pos e) as P.
  pose proof (round_half_even_near (a / 2 ^ e)) as N.
  set (m := inject_Z (round_half_even (a / 2 ^ e))) in *.
  assert (E : m * 2 ^ e - a == (m - a / 2 ^ e) * 2 ^ e) by (field; lra).
  rewrite E, Qabs_Qmult, (Qabs_pos (2 ^ e)) by lra.
  assert (H : 2 ^ e * (1 # 2) <= a * unit_roundoff + underflow).
  { pose proof (two_pow_pos (-1075)) as Pu.
    pose proof (two_pow_pos (-53)) as Pr.
    destruct (Z.max_spec (Qlog2 a - 52) (-1074)) as [[_ M]|[_ M]]; fold e in M; rewrite M.
    - unfold underflow, unit_roundoff.
      setoid_replace (2 ^ (-1074) * (1 # 2)) with (2 ^ (-1075)) by reflexivity.
      nra.
    - unfold underflow, unit_roundoff.
      replace (Qlog2 a - 52)%Z with (Qlog2 a + (-52))%Z by lia.
      rewrite two_pow_add.
      setoid_replace (2 ^ Qlog2 a * 2 ^ (-52) * (1 # 2)) with (2 ^ Qlog2 a * 2 ^ (-53))
        by (setoid_replace (2 ^ (-52)) with (2 * 2 ^ (-53)) by reflexivity; ring).
      nra. }
  eapply Qle_trans; [|exact H].
  rewrite (Qmult_comm (2 ^ e)). apply Qmult_le_compat_r; lra.
Qed.

Lemma round_magnitude_exact (a : Q) (m j : Z) :
  a == inject_Z m * 2 ^ j -> (0 < m < 2 ^ 53)%Z -> (-1074 <= j)%Z ->
  round_magnitude a == a.
Proof.
  intros E Hm Hj.
  pose proof (two_pow_pos j) as Pj.
  assert (Hm' : 0 < inject_Z m) by (change 0 with (inject_Z 0); rewrite <- Zlt_Qlt; lia).
  assert (Ha : 0 < a) by (rewrite E; now apply Qmult_lt_0_compat).
  destruct (Qlog2_spec a Ha) as [L _].
  assert (Hl : (Qlog2 a < 53 + j)%Z).
  { apply (Qpower_lt_compat_l_inv 2); [|reflexivity].
    eapply Qle_lt_trans; [exact L|]. rewrite E, two_pow_add.
    apply Qmult_lt_compat_r; [assumption|].
    rewrite <- (two_pow_Z 53) by lia. rewrite <- Zlt_Qlt. lia. }
  unfold round_magnitude.
  set (e := Z.max (Qlog2 a - 52) (-1074)).
  assert (He : (e <= j)%Z) by (unfold e; lia).
  pose proof (two_pow_pos e) as P.
  assert (Eq : a / 2 ^ e == inject_Z (m * 2 ^ (j - e))).
  { rewrite inject_Z_mult, two_pow_Z by lia. rewrite E.
    replace j with ((j - e) + e)%Z at 1 by lia. rewrite two_pow_add. field. lra. }
  rewrite (round_half_even_Z _ _ Eq), <- Eq. field. lra.
Qed.

Lemma Qlog2_mono (a b : Q) : 0 < a -> a <= b -> (Qlog2 a <= Qlog2 b)%Z.
Proof.
  intros Ha Hab. assert (Hb : 0 < b) by lra.
  destruct (Qlog2_spec a Ha) as [La _]. destruct (Qlog2_spec b Hb) as [_ Ub].
  assert (H : (Qlog2 a < Qlog2 b + 1)%Z).
  { apply (Qpower_lt_compat_l_inv 2); [lra|reflexivity]. }
  lia.
Qed.

Lemma round_magnitude_mono (a b : Q) :
  0 < a -> a <= b -> round_magnitude a <= round_magnitude b.
Proof.
  intros Ha Hab. assert (Hb : 0 < b) by lra.
  pose proof (Qlog2_mono a b Ha Hab) as Hl.
  pose proof (mantissa_bound a Ha) as Ma.
  destruct (Qlog2_spec b Hb) as [Lb _].
  unfold round_magnitude.
  set (ea := Z.max (Qlog2 a - 52) (-1074)) in *.
  set (eb := Z.max (Qlog2 b - 52) (-1074)) in *.
  pose proof (two_pow_pos ea) as Pa. pose proof (two_pow_pos eb) as Pb.
  destruct (Z.eq_dec ea eb) as [E|E].
  - rewrite E. apply Qmult_le_compat_r; [|lra].
    rewrite <- Zle_Qle. apply round_half_even_mono.
    rewrite E in Pa. unfold Qdiv. apply Qmult_le_compat_r; [assumption|].
    apply Qlt_le_weak, Qinv_lt_0_compat, Pa.
  - assert (Hlt : (ea + 1 <= eb)%Z) by (unfold ea, eb in *; lia).
    assert (Heb : eb = (Qlog2 b - 52)%Z) by (unfold ea, eb in *; lia).
    apply Qle_trans with (2 ^ (53 + ea)).
    + rewrite two_pow_add. apply Qmult_le_compat_r; [|lra].
      rewrite <- (two_pow_Z 53) by lia. rewrite <- Zle_Qle. apply Ma.
    + apply Qle_trans with (2 ^ (52 + eb)).
      * apply Qpower_le_compat_l; [lia|discriminate].
      * rewrite two_pow_add. apply Qmult_le_compat_r; [|lra].
        rewrite <- (two_pow_Z 52) by lia. rewrite <- Zle_Qle.
        apply round_half_even_ge. apply Qle_shift_div_l; [assumption|].
        rewrite two_pow_Z by lia. rewrite <- two_pow_add.
        replace (52 + eb)%Z with (Qlog2 b) by lia. exact Lb.
Qed.

Lemma fl_cases (x : Q) :
  (x == 0 /\ fl x = 0) \/
  (0 < x /\ fl x = round_magnitude x) \/
  (x < 0 /\ fl x = - round_magnitude (- x)).
Proof.
  unfold fl. destruct (Qeq_bool x 0) eqn:E0.
  - left. apply Qeq_bool_iff in E0. now split.
  - apply Qeq_bool_neq in E0. right. destruct (Qle_bool 0 x) eqn:E1.
    + apply Qle_bool_iff in E1. left. split; [|reflexivity].
      destruct (Qlt_le_dec 0 x); [assumption|]. exfalso. apply E0. lra.
    + right. split; [|reflexivity]. apply Qnot_le_lt. intros H.
      apply Qle_bool_iff in H. congruence.
Qed.

Lemma fl_nonneg (x : Q) : 0 <= x -> 0 <= fl x.
Proof.
  intros H. destruct (fl_cases x) as [[_ E]|[[P E]|[P _]]]; try lra; rewrite E.
  - lra.
  - now apply round_magnitude_nonneg.
Qed.

Lemma fl_nonpos (x : Q) : x <= 0 -> fl x <= 0.
Proof.
  intros H. destruct (fl_cases x) as [[_ E]|[[P _]|[P E]]]; try lra; rewrite E.
  - lra.
  - assert (0 <= round_magnitude (- x)) by (apply round_magnitude_nonneg; lra). lra.
Qed.

Lemma fl_error (x : Q) : Qabs (fl x - x) <= Qabs x * unit_roundoff + underflow.
Proof.
  destruct (fl_cases x) as [[Z E]|[[P E]|[P E]]]; rewrite E.
  - assert (0 <= Qabs x * unit_roundoff + underflow).
    { pose proof (Qabs_nonneg x). pose proof (two_pow_pos (-53)).
      pose proof (two_pow_pos (-1075)). unfold unit_roundoff, underflow. nra. }
    setoid_replace (0 - x) with 0 by lra. assumption.
  - rewrite (Qabs_pos x) by lra. now apply round_magnitude_error.
  - rewrite (Qabs_neg x) by lra.
    setoid_replace (- round_magnitude (- x) - x) with (- (round_magnitude (- x) - - x)) by ring.
    rewrite Qabs_opp. apply round_magnitude_error. lra.
Qed.

Lemma round_magnitude_double (a : Q) (m j : Z) :
  a == inject_Z m * 2 ^ j -> (0 < m <= 2 ^ 53)%Z -> (-1074 <= j)%Z ->
  round_magnitude a == a.
Proof.
  intros E Hm Hj. destruct (Z.eq_dec m (2 ^ 53)) as [Em|Em].
  - apply (round_magnitude_exact a (2 ^ 52) (j + 1)); try lia.
    rewrite E, Em, two_pow_succ. change (inject_Z (2 ^ 53)) with (2 * inject_Z (2 ^ 52)). ring.
  - apply (round_magnitude_exact a m j); try assumption. lia.
Qed.

(** A number with a 53-bit mantissa and an exponent in range is a double:
    rounding leaves it as it is. *)
Lemma fl_exact (x : Q) (m j : Z) :
  x == inject_Z m * 2 ^ j -> (Z.abs m <= 2 ^ 53)%Z -> (-1074 <= j)%Z -> fl x == x.
Proof.
  intros E Hm Hj. pose proof (two_pow_pos j) as Pj.
  destruct (fl_cases x) as [[Z F]|[[P F]|[P F]]]; rewrite F.
  - now symmetry.
  - apply (round_magnitude_double x m j); try assumption.
    assert (0 < inject_Z m) by (rewrite E in P; nra).
    change 0 with (inject_Z 0) in H. rewrite <- Zlt_Qlt in H. lia.
  - assert (R : round_magnitude (- x) == - x).
    { apply (round_magnitude_double (- x) (- m) j); try assumption.
      - rewrite E, inject_Z_opp. ring.
      - assert (inject_Z m < 0) by (rewrite E in P; nra).
        change 0 with (inject_Z 0) in H. rewrite <- Zlt_Qlt in H. lia. }
    rewrite R. ring.
Qed.

(** Every result of [fl] is a double. *)
Lemma fl_is_double (x : Q) :
  exists m j, fl x == inject_Z m * 2 ^ j /\ (Z.abs m <= 2 ^ 53)%Z /\ (-1074 <= j)%Z.
Proof.
  destruct (fl_cases x) as [[Z F]|[[P F]|[P F]]]; rewrite F.
  - exists 0%Z, 0%Z. split; [reflexivity|split; discriminate].
  - exists (round_half_even (x / 2 ^ Z.max (Qlog2 x - 52) (-1074))),
      (Z.max (Qlog2 x - 52) (-1074)).
    pose proof (mantissa_bound x P). split; [reflexivity|split; lia].
  - assert (P' : 0 < - x) by lra.
    exists (- round_half_even (- x / 2 ^ Z.max (Qlog2 (- x) - 52) (-1074)))%Z,
      (Z.max (Qlog2 (- x) - 52) (-1074)).
    pose proof (mantissa_bound (- x) P'). split; [|split; lia].
    unfold round_magnitude. rewrite inject_Z_opp. ring.
Qed.

Lemma fl_idempotent (x : Q) : fl (fl x) == fl x.
Proof.
  destruct (fl_is_double x) as (m & j & E & Hm & Hj). exact (fl_exact _ m j E Hm Hj).
Qed.

Lemma fl_mono (x y : Q) : x <= y -> fl x <= fl y.
Proof.
  intros H.
  destruct (fl_cases x) as [[Zx Fx]|[[Px Fx]|[Px Fx]]].
  - rewrite Fx. apply fl_nonneg. lra.
  - destruct (fl_cases y) as [[Zy Fy]|[[Py Fy]|[Py Fy]]]; try lra.
    rewrite Fx, Fy. now apply round_magnitude_mono.
  - destruct (fl_cases y) as [[Zy Fy]|[[Py Fy]|[Py Fy]]].
    + rewrite Fy. apply fl_nonpos. lra.
    + apply Qle_trans with 0; [apply fl_nonpos|apply fl_nonneg]; lra.
    + rewrite Fx, Fy. apply Qopp_le_compat. apply round_magnitude_mono; lra.
Qed.

Lemma fl_comp (x y : Q) : x == y -> fl x == fl y.
Proof.
  intros H. apply Qle_antisym; apply fl_mono; lra.
Qed.

Lemma unit_roundoff_value : unit_roundoff = 1 # 9007199254740992.
Proof. reflexivity. Qed.

Lemma underflow_pos : 0 < underflow.
Proof. apply two_pow_pos. Qed.

(** The rounding error, without absolute values. *)
Lemma fl_near (x : Q) :
  (0 <= x ->
   x - (x * (1 # 9007199254740992) + underflow) <= fl x /\
   fl x <= x + (x * (1 # 9007199254740992) + underflow)) /\
  (x <= 0 ->
   x - (- x * (1 # 9007199254740992) + underflow) <= fl x /\
   fl x <= x + (- x * (1 # 9007199254740992) + underflow)).
Proof.
  pose proof (fl_error x) as H. rewrite unit_roundoff_value in H.
  split; intros Hx.
  - rewrite (Qabs_pos x Hx) in H. apply Qabs_Qle_condition in H. lra.
  - rewrite (Qabs_neg x Hx) in H. apply Qabs_Qle_condition in H. lra.
Qed.

(** The numbers that [on_grid] accepts. *)
Lemma on_grid_iff (j : Z) (x : Q) :
  on_grid j x = true <->
  (exists n : Z, x == inject_Z n * 2 ^ j) /\ Qabs x <= 2 ^ (53 + j).
Proof.
  pose proof (two_pow_pos j) as P. unfold on_grid.
  rewrite andb_true_iff, Qeq_bool_iff, Qle_bool_iff. split.
  - intros [E B]. split; [|assumption].
    exists (Qfloor (x / 2 ^ j)). rewrite E. field. lra.
  - intros [[n E] B]. split; [|assumption].
    assert (E' : x / 2 ^ j == inject_Z n) by (rewrite E; field; lra).
    now rewrite (Qfloor_comp _ _ E'), Qfloor_Z, E'.
Qed.

(** A multiple of 2^j below 2^(53+j) is a double. *)
Lemma fl_grid (j : Z) (x : Q) :
  (-1074 <= j)%Z -> (exists n : Z, x == inject_Z n * 2 ^ j) -> Qabs x <= 2 ^ (53 + j) ->
  fl x == x.
Proof.
  intros Hj [n E] B. pose proof (two_pow_pos j) as P.
  apply (fl_exact x n j); try assumption.
  rewrite E, Qabs_Qmult, (Qabs_pos (2 ^ j)), two_pow_add in B by lra.
  apply Qmult_le_r in B; [|assumption].
  rewrite <- (two_pow_Z 53) in B by lia.
  change (Qabs (inject_Z n)) with (inject_Z (Z.abs n)) in B.
  now rewrite <- Zle_Qle in B.
Qed.

Lemma multiple_plus (j : Z) (x y : Q) :
  (exists n : Z, x == inject_Z n * 2 ^ j) -> (exists n : Z, y == inject_Z n * 2 ^ j) ->
  exists n : Z, x + y == inject_Z n * 2 ^ j.
Proof.
  intros [n Ex] [m Ey]. exists (n + m)%Z. rewrite Ex, Ey, inject_Z_plus. ring.
Qed.

Lemma multiple_minus (j : Z) (x y : Q) :
  (exists n : Z, x == inject_Z n * 2 ^ j) -> (exists n : Z, y == inject_Z n * 2 ^ j) ->
  exists n : Z, x - y == inject_Z n * 2 ^ j.
Proof.
  intros [n Ex] [m Ey]. exists (n - m)%Z.
  rewrite Ex, Ey. unfold Z.sub. rewrite inject_Z_plus, inject_Z_opp. ring.
Qed.

Lemma multiple_comp (j : Z) (x y : Q) :
  x == y -> (exists n : Z, x == inject_Z n * 2 ^ j) -> exists n : Z, y == inject_Z n * 2 ^ j.
Proof. intros E [n Ex]. exists n. now rewrite <- E. Qed.

(** While the clock fields stay as they are (playing, no transition), the
    elapsed time does not decrease from one reading of the wall clock to a
    later one. *)
Lemma getTime_monotone cs (t t' : Q) : t <= t' -> getTime cs t <= getTime cs t'.
Proof.
  intros H. unfold getTime. destruct (Qeq_bool (scriptStartTime cs) 0).
  - lra.
  - apply fl_mono. unfold Qdiv. apply Qmult_le_compat_r; [|discriminate].
    apply fl_mono.
    assert (fl (t - scriptStartTime cs) <= fl (t' - scriptStartTime cs))
      by (apply fl_mono; lra).
    lra.
Qed.

Lemma getTime_while_paused now cs (t : Q) :
  getTime (pauseScriptExecution now cs) t = getTime cs t.
Proof. reflexivity. Qed.

(** Play at [t0], pause at [t1], resume at [t2]: the clock fields. *)
Lemma resume_after_pause cs (t0 t1 t2 : Q) :
  0 < t0 -> t0 <= t1 ->
  let resumed :=
    resumeScriptExecution t2 (pauseScriptExecution t1 (startScriptExecution t0 cs)) in
  scriptStartTime resumed = t0 /\
  scriptPauseTime resumed = 0 /\
  totalPausedTime resumed = fl (0 + fl (t2 - t1)).
Proof.
  intros H0 H1. destruct (start_all_clock t0 cs) as (Hs & _ & Ht).
  unfold resumeScriptExecution. simpl.
  rewrite Qpositive_true by lra. simpl. rewrite Hs, Ht. auto.
Qed.

(** What the claim says of the elapsed time fails in double arithmetic.
    Two runs start at 1000.1 ms and pause at 1500.4 ms; one resumes at
    1501.1 ms, the other at 61500.7 ms; both read the clock 250 ms after the
    resume, so the playing intervals are the same in both.  The run with the
    short pause reports the double nearest to the playing time, the run with
    the long pause another value: the elapsed time depends on the pause, and
    neither value is the playing time itself. *)
Lemma C3_elapsed_time_depends_on_pause :
  let t0 := fl (10001 # 10) in
  let t1 := fl (15004 # 10) in
  let short := fl (15011 # 10) in
  let long := fl (615007 # 10) in
  let run t2 :=
    resumeScriptExecution t2
      (pauseScriptExecution t1 (startScriptExecution t0 (fresh_system sample_types))) in
  let played := (t1 - t0) + 250 in
  fl (short + 250) == short + 250 /\
  fl (long + 250) == long + 250 /\
  getTime (run short) (short + 250) == fl (played / 1000) /\
  ~ getTime (run long) (long + 250) == fl (played / 1000) /\
  ~ getTime (run short) (short + 250) == getTime (run long) (long + 250) /\
  ~ getTime (run short) (short + 250) == played / 1000 /\
  ~ getTime (run long) (long + 250) == played / 1000.
Proof.
  vm_compute. repeat split; discriminate.
Qed.

(** C3 (pause exclusion), as amended.  Play at [t0], pause at [t1], resume
    at [t2], read the clock at [t3]; the readings are positive and in order.
    Play sets [scriptStartTime] to the time of the call and
    [totalPausedTime] to 0; resume adds the double nearest to
    (now - scriptPauseTime) to [totalPausedTime].  The elapsed time read
    afterwards is the time spanned by the two playing intervals up to the
    rounding of the arithmetic: it differs from it by at most four units of
    roundoff of the wall-clock time since play, and two of underflow.  When
    the four readings are multiples of 2^j with at most 53 significant bits
    (whole milliseconds, for j = 0), nothing is rounded but the division:
    [totalPausedTime] is the length of the pause and the elapsed time is the
    double nearest to the playing time, whatever the pause was. *)
Theorem C3_pause_exclusion :
  forall cs (t0 t1 t2 t3 : Q),
    0 < t0 -> t0 <= t1 -> t1 <= t2 -> t2 <= t3 ->
    let playing := startScriptExecution t0 cs in
    let paused := pauseScriptExecution t1 playing in
    let resumed := resumeScriptExecution t2 paused in
    let played := (t1 - t0) + (t3 - t2) in
    scriptStartTime playing = t0 /\
    totalPausedTime playing = 0 /\
    totalPausedTime resumed == fl (t2 - scriptPauseTime paused) /\
    Qabs (getTime resumed t3 - played / 1000)
      <= 4 * unit_roundoff * ((t3 - t0) / 1000) + 2 * underflow /\
    (forall j : Z,
       (-1074 <= j)%Z ->
       on_grid j t0 = true -> on_grid j t1 = true ->
       on_grid j t2 = true -> on_grid j t3 = true ->
       totalPausedTime resumed == t2 - t1 /\
       getTime resumed t3 == fl (played / 1000)).
Proof.
  intros cs t0 t1 t2 t3 H0 H1 H2 H3 playing paused resumed played.
  destruct (start_all_clock t0 cs) as (Hs & _ & Ht). fold playing in Hs, Ht.
  destruct (resume_after_pause cs t0 t1 t2 H0 H1) as (Rs & _ & Rt).
  fold playing in Rs, Rt. fold paused in Rs, Rt. fold resumed in Rs, Rt.
  assert (Et : totalPausedTime resumed == fl (t2 - t1)).
  { rewrite Rt. rewrite (fl_comp (0 + fl (t2 - t1)) (fl (t2 - t1))) by ring.
    apply fl_idempotent. }
  assert (Eg : getTime resumed t3 =
               fl (fl (fl (t3 - t0) - totalPausedTime resumed) / 1000)).
  { unfold getTime. rewrite Rs. now rewrite Qnonzero. }
  split; [exact Hs|]. split; [exact Ht|]. split; [exact Et|]. split.
  - rewrite Eg, unit_roundoff_value.
    set (T := totalPausedTime resumed) in *.
    destruct (fl_near (t2 - t1)) as [Np _]. specialize (Np ltac:(lra)).
    rewrite <- Et in Np.
    destruct (fl_near (t3 - t0)) as [Nx _]. specialize (Nx ltac:(lra)).
    set (x1 := fl (t3 - t0)) in *.
    pose proof (fl_near (x1 - T)) as [Nd Nd'].
    pose proof (fl_nonneg (x1 - T)) as Sd. pose proof (fl_nonpos (x1 - T)) as Sd'.
    set (x2 := fl (x1 - T)) in *.
    pose proof (fl_near (x2 / 1000)) as [Ny Ny'].
    set (y := fl (x2 / 1000)) in *.
    pose proof underflow_pos as Pu.
    apply Qabs_Qle_condition. unfold played.
    unfold Qdiv in *. change (/ 1000) with (1 # 1000) in *.
    destruct (Qlt_le_dec (x1 - T) 0) as [S|S].
    + specialize (Nd' ltac:(lra)). specialize (Sd' ltac:(lra)).
      specialize (Ny' ltac:(lra)). lra.
    + specialize (Nd S). specialize (Sd S). specialize (Ny ltac:(lra)). lra.
  - intros j Hj G0 G1 G2 G3.
    apply on_grid_iff in G0, G1, G2, G3.
    destruct G0 as [M0 B0], G1 as [M1 B1], G2 as [M2 B2], G3 as [M3 B3].
    rewrite Qabs_pos in B0, B1, B2, B3 by lra.
    assert (Ep : totalPausedTime resumed == t2 - t1).
    { rewrite Et. apply (fl_grid j); [assumption|now apply multiple_minus|].
      rewrite Qabs_pos by lra. lra. }
    split; [exact Ep|].
    assert (E1 : fl (t3 - t0) == t3 - t0).
    { apply (fl_grid j); [assumption|now apply multiple_minus|].
      rewrite Qabs_pos by lra. lra. }
    assert (E2 : fl (fl (t3 - t0) - totalPausedTime resumed) == played).
    { assert (E : fl (t3 - t0) - totalPausedTime resumed == played)
        by (rewrite E1, Ep; unfold played; ring).
      rewrite (fl_comp _ _ E). apply (fl_grid j); [assumption| |].
      - apply (multiple_comp j ((t1 - t0) + (t3 - t2))); [reflexivity|].
        apply multiple_plus; now apply multiple_minus.
      - unfold played. rewrite Qabs_pos by lra. lra. }
    rewrite Eg. apply fl_comp. now rewrite E2.
Qed.

Lemma C3_pause_exclusion_witness :
  let playing := startScriptExecution 1000 (fresh_system sample_types) in
  let paused := pauseScriptExecution 1500 playing in
  let resumed := resumeScriptExecution 61500 paused in
  let played := (1500 - 1000) + (61750 - 61500) in
  scriptStartTime playing = 1000 /\
  totalPausedTime playing = 0 /\
  totalPausedTime resumed == fl (61500 - scriptPauseTime paused) /\
  Qabs (getTime resumed 61750 - played / 1000)
    <= 4 * unit_roundoff * ((61750 - 1000) / 1000) + 2 * underflow /\
  totalPausedTime resumed == 61500 - 1500 /\
  getTime resumed 61750 == fl (played / 1000).
Proof.
  intros playing paused resumed played.
  destruct (C3_pause_exclusion (fresh_system sample_types) 1000 1500 61500 61750)
    as (H1 & H2 & H3 & H4 & H5).
  - reflexivity.
  - discriminate.
  - discriminate.
  - discriminate.
  - destruct (H5 0%Z) as [H6 H7]; try reflexivity; [discriminate|].
    repeat split; assumption.
Defined.

(** C2 (clock monotonicity, frozen while paused).  The elapsed time is
    non-decreasing while playing ([getTime_monotone]), but it is not frozen
    while paused: [getTime] reads (now - scriptStartTime - totalPausedTime)
    and [pauseScriptExecution] only stores [scriptPauseTime], so readings
    taken during one pause differ.  Play at 1000 ms, pause at 2000 ms: the
    elapsed time read at 2500 ms is 1.5 s and at 3000 ms it is 2 s; after a
    resume at 3000 ms it is 1 s again. *)
Theorem C2_elapsed_time_runs_on_while_paused :
  let paused :=
    pauseScriptExecution 2000 (startScriptExecution 1000 (fresh_system sample_types)) in
  getTime paused 2000 == 1 /\
  getTime paused 2500 == 15 # 10 /\
  getTime paused 3000 == 2 /\
  ~ getTime paused 2500 == getTime paused 3000 /\
  getTime (resumeScriptExecution 3000 paused) 3000 == 1.
Proof.
  repeat split; try reflexivity.
  vm_compute. discriminate.
Qed.

(** ** Compiling a script *)

(** A script without instance ignores [update]: no hook runs, nothing is
    thrown, the component stays as it is. *)
Lemma Script_update_without_instance ed cs now dt s :
  scriptInstance s = None -> Script_update ed cs now dt s = (Normal tt, s, []).
Proof.
  intros H. unfold Script_update. rewrite H. now destruct (negb (truthy (enabled s))).
Qed.

(** A text that does not parse leaves the instance as it was: [null] for a
    script that is being constructed. *)
Lemma compileScript_parse_fails engine ed s :
  engine (scriptCode s) = ParseFails ->
  fst (compileScript engine ed s) = s.
Proof.
  intros H. unfold compileScript.
  destruct (createScriptContext ed s); [rewrite H|]; reflexivity.
Qed.

Lemma Script_new_parse_fails engine ed e data :
  engine (js_or (field data "scriptCode") (JStr "")) = ParseFails ->
  scriptInstance (fst (Script_new engine ed e data)) = None.
Proof.
  intros H. unfold Script_new.
  match goal with |- context [if ?b then _ else _] => destruct b end;
    [|reflexivity].
  rewrite compileScript_parse_fails; [reflexivity|exact H].
Qed.

(** A text that parses and throws while it runs leaves a fresh instance. *)
Lemma compileScript_eval_throws engine editor s on_this :
  engine (scriptCode s) = EvalThrows on_this ->
  exists ctx,
    scriptInstance (fst (compileScript engine (Some editor) s)) =
    Some (mkInstance ctx (h_start on_this) (h_update on_this) (h_onDestroy on_this)).
Proof.
  intros H. unfold compileScript. simpl. rewrite H. simpl. eauto.
Qed.

(** C1 (compilation failure).  [compileScript] catches every error, but
    the component is not always left with [scriptInstance = null]: the
    instance is assigned before the script body runs and the handler does
    not reset it.
    - A text whose evaluation throws (here a call of an undefined function)
      leaves an instance, with no hook.
    - If the body assigned a hook to [this] before it threw, that hook
      stays: a partial hook set.
    - [setScript] with a text that does not parse leaves the previous
      instance, hooks included. *)
Theorem C1_failed_compilation_keeps_an_instance :
  let fresh := fresh_system sample_types in
  let thrown := add "edit" "e1" "Script" [("scriptCode", JStr "undefinedFunction();")] fresh in
  let partial :=
    add "edit" "e1" "Script"
      [("scriptCode", JStr "this.update = function () {}; throw new Error('late');")]
      fresh in
  let good :=
    fst (Script_new sample_engine (sample_editor "edit") "e1"
           [("scriptCode", JStr "function start() {} function update() {}")]) in
  let recompiled :=
    setScript sample_engine (sample_editor "edit") (JStr "") (JStr "function update( {") good in
  (exists c s inst,
     getComponent "e1" "Script" thrown = Some c /\ body c = BScript s /\
     scriptInstance s = Some inst /\
     start inst = None /\ update inst = None /\ onDestroy inst = None /\
     In (ConsoleError (ErrCompile "e1")) (journal thrown)) /\
  (exists c s inst,
     getComponent "e1" "Script" partial = Some c /\ body c = BScript s /\
     scriptInstance s = Some inst /\
     start inst = None /\ update inst = Some Returns /\
     In (ConsoleError (ErrCompile "e1")) (journal partial)) /\
  (snd recompiled = [ConsoleError (ErrCompile "e1")] /\
   scriptInstance (fst recompiled) = scriptInstance good /\
   exists inst, scriptInstance (fst recompiled) = Some inst /\
                update inst = Some Returns).
Proof.
  repeat split.
  - do 3 eexists. repeat split; try reflexivity. simpl. auto.
  - do 3 eexists. repeat split; try reflexivity. simpl. auto.
  - eexists. split; reflexivity.
Qed.

(** ** The update pass *)

Lemma update_calls_app fx fx' :
  update_calls (fx ++ fx') = update_calls fx ++ update_calls fx'.
Proof.
  induction fx as [|x fx IH]; simpl; [reflexivity|].
  destruct x; simpl; now rewrite IH.
Qed.

Lemma new_entries_appended cs cs' fx :
  journal cs' = journal cs ++ fx -> new_entries cs cs' = fx.
Proof.
  unfold new_entries. intros ->.
  induction (journal cs) as [|x j IH]; simpl; auto.
Qed.

(** What a component does inside its [update] is no call of the scheduler. *)
Lemma Component_update_quiet ed cs now dt c r c' fx :
  Component_update ed cs now dt c = (r, c', fx) -> update_calls fx = [].
Proof.
  unfold Component_update, Script_update.
  destruct (body c) as [s|o].
  - destruct (negb (truthy (enabled s))); [now intros [= <- <- <-]|].
    destruct (scriptInstance s) as [inst|]; [|now intros [= <- <- <-]].
    destruct ed as [editor|]; [|now intros [= <- <- <-]].
    destruct (negb (editorMode editor =? "play")); [now intros [= <- <- <-]|].
    destruct (Map_get (entity s) (objects editor)); [|now intros [= <- <- <-]].
    destruct (update inst) as [[|]|]; now intros [= <- <- <-].
  - destruct (f_update o) as [[|]|]; now intros [= <- <- <-].
Qed.

Lemma forEach_component_normal sel ed cs now dt e comps u comps' fx :
  forEach_component sel ed cs now dt e comps = (Normal u, comps', fx) ->
  update_calls fx = due_in sel dt e comps.
Proof.
  revert comps' fx. induction comps as [|[name c] rest IH]; intros comps' fx; simpl.
  - now invert_result.
  - unfold due_in in *. simpl.
    destruct (sel name && has_update c).
    + destruct (Component_update ed cs now dt c) as [[r c1] fx1] eqn:Ec.
      destruct r; [|discriminate].
      destruct (forEach_component sel ed cs now dt e rest) as [[r' rest'] fx'] eqn:Er.
      invert_result. simpl.
      rewrite update_calls_app, (Component_update_quiet _ _ _ _ _ _ _ _ Ec). simpl.
      f_equal. eapply IH; reflexivity.
    + destruct (forEach_component sel ed cs now dt e rest) as [[r' rest'] fx'] eqn:Er.
      invert_result. simpl. eapply IH; reflexivity.
Qed.

Lemma forEach_entity_normal sel ed cs now dt store u store' fx :
  forEach_entity sel ed cs now dt store = (Normal u, store', fx) ->
  update_calls fx = due sel dt store.
Proof.
  revert store' fx. induction store as [|[e comps] rest IH]; intros store' fx; simpl.
  - now invert_result.
  - destruct (forEach_component sel ed cs now dt e comps) as [[r comps1] fx1] eqn:Ec.
    destruct r; [|discriminate].
    destruct (forEach_entity sel ed cs now dt rest) as [[r' rest'] fx'] eqn:Er.
    invert_result. unfold due in *. simpl.
    rewrite update_calls_app, (forEach_component_normal _ _ _ _ _ _ _ _ _ _ Ec).
    f_equal. eapply IH; reflexivity.
Qed.

(** An error thrown by the [update] hook of a script stays inside
    [Script.update]. *)
Lemma Script_update_catches editor cs now dt s :
  fst (fst (Script_update (Some editor) cs now dt s)) = Normal tt.
Proof.
  unfold Script_update.
  destruct (negb (truthy (enabled s))); [reflexivity|].
  destruct (scriptInstance s) as [inst|]; [|reflexivity].
  destruct (negb (editorMode editor =? "play")); [reflexivity|].
  destruct (Map_get (entity s) (objects editor)); [|reflexivity].
  now destruct (update inst) as [[|]|].
Qed.

Lemma Component_update_returns editor cs now dt c :
  update_throws c = false ->
  exists c' fx, Component_update (Some editor) cs now dt c = (Normal tt, c', fx).
Proof.
  unfold update_throws, Component_update. destruct (body c) as [s|o].
  - intros _. pose proof (Script_update_catches editor cs now dt s) as H.
    destruct (Script_update (Some editor) cs now dt s) as [[r s'] fx].
    simpl in H. subst r. eauto.
  - destruct (f_update o) as [[|]|]; [eauto|discriminate|eauto].
Qed.

(** The calls made are an initial segment of the calls that are due. *)
Lemma forEach_component_prefix sel ed cs now dt e comps :
  exists rest,
    due_in sel dt e comps =
    update_calls (snd (forEach_component sel ed cs now dt e comps)) ++ rest.
Proof.
  unfold due_in. induction comps as [|[name c] tl [rest IH]]; simpl.
  - now exists [].
  - destruct (sel name && has_update c).
    + destruct (Component_update ed cs now dt c) as [[r c1] fx1] eqn:Ec.
      pose proof (Component_update_quiet _ _ _ _ _ _ _ _ Ec) as Hq.
      destruct r.
      * destruct (forEach_component sel ed cs now dt e tl) as [[r' tl'] fx'].
        simpl in *. rewrite update_calls_app, Hq. simpl.
        exists rest. now rewrite IH.
      * simpl. rewrite Hq. simpl. eexists. reflexivity.
    + destruct (forEach_component sel ed cs now dt e tl) as [[r' tl'] fx'].
      simpl in *. eauto.
Qed.

Lemma forEach_entity_prefix sel ed cs now dt store :
  exists rest,
    due sel dt store =
    update_calls (snd (forEach_entity sel ed cs now dt store)) ++ rest.
Proof.
  unfold due. induction store as [|[e comps] tl [rest IH]]; simpl.
  - now exists [].
  - destruct (forEach_component_prefix sel ed cs now dt e comps) as [rest1 H1].
    destruct (forEach_component sel ed cs now dt e comps) as [[r comps1] fx1] eqn:Ec.
    simpl in H1. destruct r.
    + pose proof (forEach_component_normal _ _ _ _ _ _ _ _ _ _ Ec) as Hn.
      destruct (forEach_entity sel ed cs now dt tl) as [[r' tl'] fx'].
      simpl in *. rewrite update_calls_app, Hn.
      exists rest. now rewrite IH, app_assoc.
    + simpl. rewrite H1. eexists. now rewrite <- app_assoc.
Qed.

Lemma forEach_component_returns sel editor cs now dt e comps :
  forallb (fun nc => negb (sel (fst nc) && update_throws (snd nc))) comps = true ->
  fst (fst (forEach_component sel (Some editor) cs now dt e comps)) = Normal tt.
Proof.
  induction comps as [|[name c] tl IH]; simpl; [reflexivity|].
  rewrite andb_true_iff. intros [Hc Htl]. specialize (IH Htl).
  destruct (forEach_component sel (Some editor) cs now dt e tl) as [[r' tl'] fx'].
  simpl in IH. subst r'.
  destruct (sel name) eqn:Es; simpl in *; [|reflexivity].
  destruct (has_update c); [|reflexivity].
  apply negb_true_iff in Hc.
  destruct (Component_update_returns editor cs now dt c Hc) as (c' & fx & ->).
  reflexivity.
Qed.

Lemma forEach_entity_returns sel editor cs now dt store :
  updates_return sel store = true ->
  fst (fst (forEach_entity sel (Some editor) cs now dt store)) = Normal tt.
Proof.
  unfold updates_return.
  induction store as [|[e comps] tl IH]; simpl; [reflexivity|].
  rewrite andb_true_iff. intros [Hc Htl]. specialize (IH Htl).
  pose proof (forEach_component_returns sel editor cs now dt e comps Hc) as H.
  destruct (forEach_component sel (Some editor) cs now dt e comps) as [[r comps1] fx1].
  simpl in H. subst r.
  destruct (forEach_entity sel (Some editor) cs now dt tl) as [[r' tl'] fx'].
  simpl in *. assumption.
Qed.

(** One pass with the test [sel] on component names. *)
Lemma update_pass_calls sel editor now dt cs :
  let r := update_pass sel (Some editor) now dt cs in
  exists fx,
    journal (snd r) = journal cs ++ fx /\
    (exists rest, due sel dt (entityComponents cs) = update_calls fx ++ rest) /\
    (fst r = Normal tt -> update_calls fx = due sel dt (entityComponents cs)) /\
    (updates_return sel (entityComponents cs) = true -> fst r = Normal tt).
Proof.
  unfold update_pass.
  pose proof (forEach_entity_prefix sel (Some editor) cs now dt (entityComponents cs)) as Hp.
  pose proof (forEach_entity_returns sel editor cs now dt (entityComponents cs)) as Hr.
  destruct (forEach_entity sel (Some editor) cs now dt (entityComponents cs))
    as [[r store] fx] eqn:E.
  simpl in *. exists fx. repeat split; try assumption.
  intros ->. eapply forEach_entity_normal; eauto.
Qed.

(** X29.  Mode gating of the update pass.  The [update(deltaTime)] calls
    due in a tick are those on the components that have an [update]
    function, entity by entity: all of them when the editor mode is play,
    all but those stored under the name Script when the mode is pause or
    anything else (stopped).  The calls a tick makes are an initial segment
    of the calls due; they are all of them when the tick runs to its end,
    which it does when no [update] of a due component throws. *)
Theorem update_pass_by_mode :
  forall editor now dt cs,
    let r := updateComponents (Some editor) now dt cs in
    let sel := fun name => (editorMode editor =? "play") || negb (name =? "Script") in
    exists fx,
      journal (snd r) = journal cs ++ fx /\
      (exists rest, due sel dt (entityComponents cs) = update_calls fx ++ rest) /\
      (fst r = Normal tt -> update_calls fx = due sel dt (entityComponents cs)) /\
      (updates_return sel (entityComponents cs) = true -> fst r = Normal tt).
Proof.
  intros editor now dt cs. unfold updateComponents.
  destruct (editorMode editor =? "play") eqn:Eplay.
  - exact (update_pass_calls all_names editor now dt cs).
  - pose proof (update_pass_calls not_Script editor now dt cs) as P.
    destruct (editorMode editor =? "pause"); exact P.
Qed.

Lemma update_pass_by_mode_witness :
  let dt := 16 # 1000 in
  let r := updateComponents (sample_editor "pause") 5000 dt healthy_system in
  fst r = Normal tt /\
  update_calls (new_entries healthy_system (snd r)) = [("e1", "Light", dt)] /\
  update_calls (new_entries healthy_system (snd (updateComponents (sample_editor "play") 5000 dt healthy_system))) =
    [("e1", "Script", dt); ("e1", "Light", dt); ("e2", "Script", dt)].
Proof.
  intros dt r. subst r. unfold sample_editor.
  destruct (update_pass_by_mode (sample_scene "pause") 5000 dt healthy_system)
    as (fx & Hj & _ & Hcalls & Hret).
  destruct (update_pass_by_mode (sample_scene "play") 5000 dt healthy_system)
    as (fx' & Hj' & _ & Hcalls' & Hret').
  split; [exact (Hret eq_refl)|]. split.
  - rewrite (new_entries_appended _ _ _ Hj). exact (Hcalls (Hret eq_refl)).
  - rewrite (new_entries_appended _ _ _ Hj'). exact (Hcalls' (Hret' eq_refl)).
Defined.

(** C4 (mode gating of the update pass).  A tick does not call [update] on
    every component that has one.  Entity e1 holds a component whose
    [update] throws, then a Light; entity e2 holds a Script; Light and
    Script have an [update] function.  In play mode three calls are due, in
    pause mode and in edit mode (stopped) the two on e1; in each mode the
    tick makes the first call and throws, so the Light of e1 gets no
    [update] call in any mode and the Script of e2 none in play mode. *)
Theorem C4_due_updates_are_skipped :
  let dt := 16 # 1000 in
  let tick mode := updateComponents (sample_editor mode) 5000 dt faulty_system in
  let made mode := update_calls (new_entries faulty_system (snd (tick mode))) in
  option_map has_update (getComponent "e1" "Light" faulty_system) = Some true /\
  option_map has_update (getComponent "e2" "Script" faulty_system) = Some true /\
  due all_names dt (entityComponents faulty_system) =
    [("e1", "Faulty", dt); ("e1", "Light", dt); ("e2", "Script", dt)] /\
  due not_Script dt (entityComponents faulty_system) =
    [("e1", "Faulty", dt); ("e1", "Light", dt)] /\
  fst (tick "play") = Throw /\ made "play" = [("e1", "Faulty", dt)] /\
  fst (tick "pause") = Throw /\ made "pause" = [("e1", "Faulty", dt)] /\
  fst (tick "edit") = Throw /\ made "edit" = [("e1", "Faulty", dt)].
Proof.
  repeat split.
Qed.

Example throwing_update_hook_is_contained :
  let dt := 16 # 1000 in
  let r := updateComponents (sample_editor "play") 5000 dt noisy_system in
  let fx := new_entries noisy_system (snd r) in
  fst r = Normal tt /\
  update_calls fx = [("e1", "Script", dt); ("e2", "Script", dt)] /\
  hook_calls HUpdate fx = ["e1"; "e2"] /\
  console_errors fx = [ErrScriptUpdate "e1"].
Proof. repeat split. Qed.

(** C5 (isolation of update errors).  [updateComponents] calls
    [component.update(deltaTime)] with no handler around it; only the hook of
    a script is called inside a [try], within [Script.update].  With a
    component on e1 whose [update] throws, followed by a Light on e1 and a
    Script on e2, a tick in play mode throws out of [updateComponents] after
    the first call: the two other calls that were due are not made, and
    nothing is written to the console. *)
Theorem C5_update_error_aborts_the_tick :
  let dt := 16 # 1000 in
  let r := updateComponents (sample_editor "play") 5000 dt faulty_system in
  fst r = Throw /\
  due all_names dt (entityComponents faulty_system) =
    [("e1", "Faulty", dt); ("e1", "Light", dt); ("e2", "Script", dt)] /\
  update_calls (journal (snd r)) = [("e1", "Faulty", dt)] /\
  console_errors (journal (snd r)) = [].
Proof.
  repeat split.
Qed.

(** ** Starting and stopping the scripts *)

Lemma hook_calls_app h fx fx' :
  hook_calls h (fx ++ fx') = hook_calls h fx ++ hook_calls h fx'.
Proof.
  induction fx as [|x fx IH]; simpl; [reflexivity|].
  destruct x; simpl; try exact IH.
  destruct h, h0; simpl; now rewrite IH.
Qed.

Lemma console_errors_app fx fx' :
  console_errors (fx ++ fx') = console_errors fx ++ console_errors fx'.
Proof.
  induction fx as [|x fx IH]; simpl; [reflexivity|].
  destruct x; simpl; now rewrite IH.
Qed.

(** [startScriptExecution] calls [start()] once for every entity whose
    Script component has a compiled instance with a [start] function, in the
    order of the store; a [start()] that throws does not stop the loop.  The
    [enabled] flag is not read. *)
Lemma start_all_calls store :
  hook_calls HStart (snd (start_all store)) = entities_where exposes_start store.
Proof.
  unfold entities_where.
  induction store as [|[e comps] rest IH]; simpl; [reflexivity|].
  destruct (start_entity e comps) as [comps' fx] eqn:Ee.
  destruct (start_all rest) as [rest' fx'] eqn:Er. simpl in *.
  rewrite hook_calls_app, IH.
  unfold start_entity, exposes_start in *.
  destruct (compiled_script comps) as [[[c s] inst]|].
  - inversion Ee; subst. now destruct (start inst) as [[|]|].
  - inversion Ee; subst. reflexivity.
Qed.

Lemma startScriptExecution_calls now cs :
  exists fx,
    journal (startScriptExecution now cs) = journal cs ++ fx /\
    hook_calls HStart fx = entities_where exposes_start (entityComponents cs).
Proof.
  unfold startScriptExecution. simpl.
  pose proof (start_all_calls (entityComponents cs)) as H.
  destruct (start_all (entityComponents cs)) as [store fx]. simpl in *.
  exists fx. auto.
Qed.

Example throwing_start_is_contained :
  let fx := new_entries rough_start_system (startScriptExecution 1000 rough_start_system) in
  hook_calls HStart fx = ["e1"; "e2"] /\ console_errors fx = [ErrStart "e1"].
Proof. repeat split. Qed.

(** C6 (start on play).  [startScriptExecution] skips a Script without
    compiled instance, and a [start()] that throws does not keep the other
    scripts from starting ([startScriptExecution_calls]); but it never reads
    the [enabled] flag.  A Script built with [enabled: false] and a text that
    defines [start] has its [start()] called on play, while [update] on the
    same component does nothing, in play mode too. *)
Theorem C6_disabled_script_is_started :
  let played := startScriptExecution 1000 disabled_system in
  (exists c s,
     getComponent "e1" "Script" disabled_system = Some c /\
     body c = BScript s /\ enabled s = JBool false /\
     Script_update (sample_editor "play") played 1016 (16 # 1000) s = (Normal tt, s, [])) /\
  hook_calls HStart (journal disabled_system) = [] /\
  hook_calls HStart (journal played) = ["e1"].
Proof.
  repeat split.
  do 2 eexists. repeat split; reflexivity.
Qed.

Lemma stop_calls store :
  let fx := flat_map (fun ec => stop_entity (fst ec) (snd ec)) store in
  hook_calls HOnDestroy fx = entities_where exposes_onDestroy store /\
  console_errors fx = map ErrDestroying (entities_where onDestroy_throws store).
Proof.
  unfold entities_where.
  induction store as [|[e comps] rest [IH1 IH2]]; simpl; [split; reflexivity|].
  rewrite hook_calls_app, console_errors_app, IH1, IH2.
  unfold stop_entity, exposes_onDestroy, onDestroy_throws.
  destruct (compiled_script comps) as [[[c s] inst]|]; [|split; reflexivity].
  destruct (onDestroy inst) as [[|]|]; split; reflexivity.
Qed.

(** C7 (stop).  The stop transition calls [onDestroy()] once for every
    entity whose Script component has a compiled instance with an
    [onDestroy] function, in the order of the store; a call that throws is
    reported on the console and the loop goes on.  Afterwards the three
    clock fields are 0 and the elapsed time read at any time is 0. *)
Theorem C7_stop_transition :
  forall cs now,
    let stopped := stop_transition cs in
    (exists fx,
       journal stopped = journal cs ++ fx /\
       hook_calls HOnDestroy fx =
         entities_where exposes_onDestroy (entityComponents cs) /\
       console_errors fx =
         map ErrDestroying (entities_where onDestroy_throws (entityComponents cs))) /\
    scriptStartTime stopped = 0 /\
    scriptPauseTime stopped = 0 /\
    totalPausedTime stopped = 0 /\
    getTime stopped now = 0.
Proof.
  intros cs now stopped. split; [|repeat split].
  destruct (stop_calls (entityComponents cs)) as [H1 H2].
  eexists. split; [reflexivity|]. split; assumption.
Qed.

(** ** The entity-component store *)

Lemma store_wf_set e comps store :
  store_wf store -> NoDup (map fst comps) -> store_wf (Map_set e comps store).
Proof.
  intros [Hk Hc] Hn. split.
  - now apply NoDup_Map_set.
  - intros e' comps' H. apply In_Map_set in H. destruct H as [H|H].
    + now inversion H; subst.
    + eauto.
Qed.

Lemma store_wf_delete e store : store_wf store -> store_wf (Map_delete e store).
Proof.
  intros [Hk Hc]. split.
  - now apply NoDup_Map_delete.
  - intros e' comps' H. apply In_Map_delete in H. eauto.
Qed.

Lemma store_wf_components e store :
  store_wf store -> NoDup (map fst (components_of e store)).
Proof.
  intros [Hk Hc]. unfold components_of.
  destruct (Map_get e store) as [comps|] eqn:E.
  - apply Map_get_In in E. eauto.
  - constructor.
Qed.

Lemma store_wf_ensure e store : store_wf store -> store_wf (ensure_entity e store).
Proof.
  intros H. unfold ensure_entity. destruct (Map_has e store); [assumption|].
  apply store_wf_set; [assumption|constructor].
Qed.

Lemma addComponent_wf engine ed e name data cs :
  store_wf (entityComponents cs) ->
  store_wf (entityComponents (snd (addComponent engine ed e name data cs))).
Proof.
  intros H. unfold addComponent.
  destruct (Map_get name (componentTypes cs)) as [cls|]; [|assumption].
  pose proof (store_wf_ensure e _ H) as H1.
  destruct (Map_get name (components_of e (ensure_entity e (entityComponents cs)))).
  - exact H1.
  - destruct (construct engine ed cls e data) as [[b fx]|]; simpl; [|exact H1].
    apply store_wf_set; [assumption|].
    apply NoDup_Map_set. now apply store_wf_components.
Qed.

Lemma removeComponent_wf e name cs :
  store_wf (entityComponents cs) ->
  store_wf (entityComponents (snd (removeComponent e name cs))).
Proof.
  intros H. unfold removeComponent.
  destruct (Map_get e (entityComponents cs)) as [comps|] eqn:Ee; [|assumption].
  destruct (Map_get name comps) as [c|]; [|assumption].
  destruct (Component_destroy c) as [[r c'] fx]. destruct r; simpl; [|assumption].
  assert (Hn : NoDup (map fst (Map_delete name comps))).
  { apply NoDup_Map_delete. apply Map_get_In in Ee. destruct H as [_ H]. eauto. }
  destruct (Map_delete name comps) eqn:Ed.
  - now apply store_wf_delete.
  - now apply store_wf_set.
Qed.

Lemma remove_each_wf e names cs :
  store_wf (entityComponents cs) ->
  store_wf (entityComponents (snd (remove_each e names cs))).
Proof.
  revert cs. induction names as [|name rest IH]; intros cs H; simpl; [assumption|].
  pose proof (removeComponent_wf e name cs H) as H1.
  destruct (removeComponent e name cs) as [[b|] cs']; simpl in *; auto.
Qed.

Lemma reachable_wf engine cs : reachable engine cs -> store_wf (entityComponents cs).
Proof.
  induction 1; simpl.
  - split; [constructor|intros ? ? []].
  - assumption.
  - now apply addComponent_wf.
  - now apply removeComponent_wf.
  - unfold removeAllComponents.
    destruct (Map_get e (entityComponents cs)); [|assumption].
    now apply remove_each_wf.
Qed.

(** After a call of [addComponent] that returns, the entity holds the
    returned component under the type name. *)
Lemma addComponent_stores engine ed e name data cs c cs' :
  addComponent engine ed e name data cs = (Normal c, cs') ->
  componentTypes cs' = componentTypes cs /\
  exists comps, Map_get e (entityComponents cs') = Some comps /\
                Map_get name comps = Some c.
Proof.
  unfold addComponent.
  destruct (Map_get name (componentTypes cs)) as [cls|]; [|discriminate].
  set (store1 := ensure_entity e (entityComponents cs)).
  destruct (Map_get name (components_of e store1)) as [c0|] eqn:Ec.
  - invert_result. split; [reflexivity|]. simpl.
    unfold components_of in Ec.
    destruct (Map_get e store1) as [comps|]; [|discriminate]. eauto.
  - destruct (construct engine ed cls e data) as [[b fx]|]; [|discriminate].
    invert_result. split; [reflexivity|]. simpl.
    rewrite Map_get_set_same. eexists. split; [reflexivity|].
    apply Map_get_set_same.
Qed.

(** When the entity holds a component under the type name, [addComponent]
    returns it, warns, and builds nothing. *)
Lemma addComponent_present engine ed e name data cs cls comps c :
  Map_get name (componentTypes cs) = Some cls ->
  Map_get e (entityComponents cs) = Some comps ->
  Map_get name comps = Some c ->
  addComponent engine ed e name data cs =
    (Normal c, record [ConsoleWarn (WarnAlreadyHas e name)] cs).
Proof.
  intros Ht He Hc. unfold addComponent, ensure_entity, components_of, Map_has.
  rewrite Ht, He, He, Hc. now destruct cs.
Qed.

(** [addComponent] returns an instance when the type is registered and its
    constructor does not throw; the constructor of Script never does. *)
Lemma addComponent_returns engine ed e name data cs cls :
  Map_get name (componentTypes cs) = Some cls ->
  construct engine ed cls e data <> None ->
  exists c cs', addComponent engine ed e name data cs = (Normal c, cs').
Proof.
  intros Ht Hb. unfold addComponent. rewrite Ht.
  destruct (Map_get name (components_of e (ensure_entity e (entityComponents cs)))).
  - eauto.
  - destruct (construct engine ed cls e data) as [[b fx]|]; [eauto|congruence].
Qed.

Lemma construct_Script engine ed e data : construct engine ed ScriptClass e data <> None.
Proof.
  unfold construct. now destruct (Script_new engine ed e data).
Qed.

(** C8 (idempotent add, uniqueness).  In every state the store can reach:
    an entity holds at most one component under a type name;
    [addComponent(E, T, d1)] returns an instance when [T] is registered and
    its constructor does not throw; and when it has returned an instance, a
    following [addComponent(E, T, d2)] returns that same instance without
    throwing, builds nothing (no new object is allocated) and leaves the
    store, hence the instance and the data it was built from, as they
    were. *)
Theorem C8_idempotent_add :
  forall engine cs,
    reachable engine cs ->
    (forall e T, (count_components e T cs <= 1)%nat) /\
    (forall ed e T d1 cls,
        Map_get T (componentTypes cs) = Some cls ->
        construct engine ed cls e d1 <> None ->
        exists c1 cs1, addComponent engine ed e T d1 cs = (Normal c1, cs1)) /\
    (forall ed ed' e T d1 d2 c1 cs1,
        addComponent engine ed e T d1 cs = (Normal c1, cs1) ->
        exists cs2,
          addComponent engine ed' e T d2 cs1 = (Normal c1, cs2) /\
          entityComponents cs2 = entityComponents cs1 /\
          nextRef cs2 = nextRef cs1 /\
          getComponent e T cs2 = Some c1).
Proof.
  intros engine cs Hr. split; [|split].
  - intros e T. unfold count_components. apply NoDup_count.
    apply store_wf_components. now apply reachable_wf with engine.
  - intros ed e T d1 cls. apply addComponent_returns.
  - intros ed ed' e T d1 d2 c1 cs1 H1.
    pose proof H1 as H1'. apply addComponent_stores in H1'.
    destruct H1' as (Ht & comps & He & Hc).
    assert (exists cls, Map_get T (componentTypes cs1) = Some cls) as [cls Hcls].
    { rewrite Ht. unfold addComponent in H1.
      destruct (Map_get T (componentTypes cs)); [eauto|discriminate]. }
    eexists. split; [eapply addComponent_present; eassumption|].
    unfold getComponent. simpl. rewrite He. auto.
Qed.

Lemma C8_idempotent_add_witness :
  let cs := fresh_system sample_types in
  let d1 := [("intensity", JNum 2)] in
  let d2 := [("intensity", JNum 7)] in
  let r1 := addComponent sample_engine (sample_editor "edit") "e1" "Light" d1 cs in
  (count_components "e1" "Light" cs <= 1)%nat /\
  exists c1 cs2,
    fst r1 = Normal c1 /\
    body c1 = BForeign (mkForeign d1 (Some Returns) (Some Returns)) /\
    addComponent sample_engine (sample_editor "play") "e1" "Light" d2 (snd r1) =
      (Normal c1, cs2) /\
    entityComponents cs2 = entityComponents (snd r1) /\
    nextRef cs2 = nextRef (snd r1) /\
    getComponent "e1" "Light" cs2 = Some c1.
Proof.
  intros cs d1 d2 r1.
  destruct (C8_idempotent_add sample_engine cs (reach_fresh sample_engine sample_types))
    as (H1 & _ & H3).
  split; [apply H1|].
  destruct (H3 (sample_editor "edit") (sample_editor "play") "e1" "Light" d1 d2
              (mkComponent 0 (BForeign (mkForeign d1 (Some Returns) (Some Returns))))
              (snd r1) eq_refl) as [cs2 H].
  exists (mkComponent 0 (BForeign (mkForeign d1 (Some Returns) (Some Returns)))), cs2.
  repeat split; apply H.
Defined.

(** ** Bus notifications *)

Lemma emissions_app fx fx' : emissions (fx ++ fx') = emissions fx ++ emissions fx'.
Proof.
  induction fx as [|x fx IH]; simpl; [reflexivity|].
  destruct x; simpl; now rewrite IH.
Qed.

(** Building a component notifies nobody. *)
Lemma construct_quiet engine ed cls e data b fx :
  construct engine ed cls e data = Some (b, fx) -> emissions fx = [].
Proof.
  unfold construct. destruct cls as [|ctor].
  - destruct (Script_new engine ed e data) as [s fx0] eqn:E. invert_result.
    unfold Script_new, compileScript in E.
    destruct (_ || _) in E; [|now inversion E].
    destruct (createScriptContext ed _) in E; [|now inversion E].
    destruct (engine _) in E; now inversion E.
  - destruct (ctor e data); [|discriminate]. now invert_result.
Qed.

(** Neither does destroying one; the object stays the same. *)
Lemma Component_destroy_quiet c r c' fx :
  Component_destroy c = (r, c', fx) -> emissions fx = [] /\ ref c' = ref c.
Proof.
  unfold Component_destroy, Script_destroy. destruct (body c) as [s|o].
  - invert_result. split; [|reflexivity].
    destruct (scriptInstance s) as [inst|]; [|reflexivity].
    now destruct (onDestroy inst) as [[|]|].
  - destruct (f_destroy o) as [[|]|]; invert_result; auto.
Qed.

Lemma lookup_after_ensure e name store :
  Map_get name (components_of e (ensure_entity e store)) =
  match Map_get e store with
  | Some comps => Map_get name comps
  | None => None
  end.
Proof.
  unfold ensure_entity, components_of, Map_has.
  destruct (Map_get e store) as [comps|] eqn:E.
  - now rewrite E.
  - now rewrite Map_get_set_same.
Qed.

(** C9, as stated, fails.  With a Light on e1 already, a second
    [addComponent] for it returns the Light, warns on the console and emits
    nothing; a [removeComponent] of a Collider that e1 does not have returns
    false and emits nothing. *)
Lemma C9_silent_calls :
  let cs := add "edit" "e1" "Light" [] (fresh_system sample_types) in
  let again := addComponent sample_engine (sample_editor "edit") "e1" "Light" [] cs in
  let absent := removeComponent "e1" "Collider" cs in
  getComponent "e1" "Light" cs = Some (mkComponent 0 (BForeign (mkForeign [] (Some Returns) (Some Returns)))) /\
  fst again = Normal (mkComponent 0 (BForeign (mkForeign [] (Some Returns) (Some Returns)))) /\
  new_entries cs (snd again) = [ConsoleWarn (WarnAlreadyHas "e1" "Light")] /\
  emissions (new_entries cs (snd again)) = [] /\
  fst absent = Normal false /\
  emissions (new_entries cs (snd absent)) = [].
Proof.
  repeat split.
Qed.

(** C9, amended (bus notifications).  A call of [addComponent] that returns
    emits exactly one COMPONENT_ADDED, with the entity id, the type name and
    the returned instance, when the entity did not hold the component, and
    nothing when it did.  A call of [removeComponent] that returns true
    emits exactly one COMPONENT_REMOVED, with the entity id, the type name
    and the removed instance; a call that returns false found nothing to
    remove and emits nothing. *)
Theorem C9_notifications_on_change :
  forall engine ed e name data cs,
    (forall c cs',
        addComponent engine ed e name data cs = (Normal c, cs') ->
        emissions (new_entries cs cs') =
          if hasComponent e name cs then [] else [Emit COMPONENT_ADDED e name c]) /\
    (forall b cs',
        removeComponent e name cs = (Normal b, cs') ->
        if b
        then exists c c',
               getComponent e name cs = Some c /\ ref c' = ref c /\
               emissions (new_entries cs cs') = [Emit COMPONENT_REMOVED e name c']
        else hasComponent e name cs = false /\
             emissions (new_entries cs cs') = []).
Proof.
  intros engine ed e name data cs. split.
  - intros c cs'. unfold addComponent, hasComponent, Map_has.
    destruct (Map_get name (componentTypes cs)) as [cls|]; [|discriminate].
    rewrite lookup_after_ensure.
    destruct (Map_get e (entityComponents cs)) as [comps|] eqn:Ee.
    + destruct (Map_get name comps) as [c0|] eqn:Ec.
      * invert_result.
        now rewrite (new_entries_appended _ _ [ConsoleWarn (WarnAlreadyHas e name)]).
      * destruct (construct engine ed cls e data) as [[b fx]|] eqn:Eb; [|discriminate].
        invert_result.
        erewrite new_entries_appended by reflexivity.
        rewrite emissions_app, (construct_quiet _ _ _ _ _ _ _ Eb). reflexivity.
    + destruct (construct engine ed cls e data) as [[b fx]|] eqn:Eb; [|discriminate].
      invert_result.
      erewrite new_entries_appended by reflexivity.
      rewrite emissions_app, (construct_quiet _ _ _ _ _ _ _ Eb). reflexivity.
  - intros b cs'. unfold removeComponent, hasComponent, getComponent, Map_has.
    destruct (Map_get e (entityComponents cs)) as [comps|] eqn:Ee.
    + destruct (Map_get name comps) as [c|] eqn:Ec.
      * destruct (Component_destroy c) as [[r c'] fx] eqn:Ed.
        destruct r; [|discriminate]. invert_result.
        destruct (Component_destroy_quiet _ _ _ _ Ed) as [Hq Hr].
        exists c, c'. repeat split; [assumption|].
        erewrite new_entries_appended by reflexivity.
        rewrite !emissions_app, Hq.
        now destruct (has_destroy c).
      * invert_result. split; [reflexivity|].
        now rewrite (new_entries_appended _ _ [ConsoleWarn (WarnNotFound e name)]).
    + invert_result. split; [reflexivity|].
      now rewrite (new_entries_appended _ _ [ConsoleWarn (WarnNotFound e name)]).
Qed.

Lemma C9_notifications_on_change_witness :
  let cs := fresh_system sample_types in
  let light := mkComponent 0 (BForeign (mkForeign [] (Some Returns) (Some Returns))) in
  let cs1 := add "edit" "e1" "Light" [] cs in
  let cs2 := snd (removeComponent "e1" "Light" cs1) in
  emissions (new_entries cs cs1) = [Emit COMPONENT_ADDED "e1" "Light" light] /\
  exists c c',
    getComponent "e1" "Light" cs1 = Some c /\ ref c' = ref c /\
    emissions (new_entries cs1 cs2) = [Emit COMPONENT_REMOVED "e1" "Light" c'].
Proof.
  intros cs light cs1 cs2. split.
  - exact (proj1 (C9_notifications_on_change sample_engine (sample_editor "edit")
                    "e1" "Light" [] cs) light cs1 eq_refl).
  - exact (proj2 (C9_notifications_on_change sample_engine (sample_editor "edit")
                    "e1" "Light" [] cs1) true cs2 eq_refl).
Defined.

(** ** Entities without components *)

Lemma no_empty_maps_set e comps store :
  no_empty_maps store -> comps <> [] -> no_empty_maps (Map_set e comps store).
Proof.
  unfold no_empty_maps. intros H Hn.
  induction store as [|[e' comps'] rest IH]; simpl.
  - repeat constructor. exact Hn.
  - inversion H; subst. destruct (e' =? e); constructor; auto.
Qed.

Lemma no_empty_maps_delete e store :
  no_empty_maps store -> no_empty_maps (Map_delete e store).
Proof.
  unfold no_empty_maps. intros H.
  induction store as [|[e' comps'] rest IH]; simpl; [constructor|].
  inversion H; subst. destruct (e' =? e); [assumption|constructor; auto].
Qed.

Lemma Map_set_nonempty {A} k (v : A) m : Map_set k v m <> [].
Proof. destruct m as [|[k' v'] m]; simpl; [|destruct (k' =? k)]; discriminate. Qed.

Lemma Map_set_twice {A} k (v w : A) m : Map_set k v (Map_set k w m) = Map_set k v m.
Proof.
  induction m as [|[k' v'] m IH]; simpl.
  - now rewrite String.eqb_refl.
  - destruct (k' =? k) eqn:E; simpl; rewrite E; [reflexivity|now rewrite IH].
Qed.

(** [removeComponent] prunes the map it empties. *)
Lemma removeComponent_prunes e name cs :
  no_empty_maps (entityComponents cs) ->
  no_empty_maps (entityComponents (snd (removeComponent e name cs))).
Proof.
  intros H. unfold removeComponent.
  destruct (Map_get e (entityComponents cs)) as [comps|]; [|assumption].
  destruct (Map_get name comps) as [c|]; [|assumption].
  destruct (Component_destroy c) as [[r c'] fx]. destruct r; simpl; [|assumption].
  destruct (Map_delete name comps) eqn:Ed.
  - now apply no_empty_maps_delete.
  - apply no_empty_maps_set; [assumption|discriminate].
Qed.

(** So does [addComponent] leave none, when it returns. *)
Lemma addComponent_returns_nonempty engine ed e name data cs c cs' :
  addComponent engine ed e name data cs = (Normal c, cs') ->
  no_empty_maps (entityComponents cs) ->
  no_empty_maps (entityComponents cs').
Proof.
  unfold addComponent.
  destruct (Map_get name (componentTypes cs)) as [cls|]; [|discriminate].
  rewrite lookup_after_ensure.
  unfold ensure_entity, components_of, Map_has.
  destruct (Map_get e (entityComponents cs)) as [comps|] eqn:Ee.
  - destruct (Map_get name comps) as [c0|].
    + now invert_result.
    + destruct (construct engine ed cls e data) as [[b fx]|]; [|discriminate].
      invert_result. intros H. simpl.
      apply no_empty_maps_set; [assumption|apply Map_set_nonempty].
  - destruct (construct engine ed cls e data) as [[b fx]|]; [|discriminate].
    invert_result. intros H. simpl.
    rewrite Map_set_twice.
    apply no_empty_maps_set; [assumption|apply Map_set_nonempty].
Qed.

(** C10 (no entity without components).  [addComponent] creates the
    component map of a new entity before it calls the constructor; when the
    constructor throws, the empty map stays in the store, while
    [removeComponent] takes care to prune the maps it empties
    ([removeComponent_prunes]).  On a fresh system, adding to e1 a component
    whose constructor throws leaves e1 in the store with zero components. *)
Theorem C10_constructor_throw_leaves_empty_map :
  let r :=
    addComponent sample_engine (sample_editor "edit") "e1" "Unbuildable" []
      (fresh_system sample_types) in
  fst r = Throw /\
  reachable sample_engine (snd r) /\
  entityComponents (snd r) = [("e1", [])] /\
  ~ no_empty_maps (entityComponents (snd r)).
Proof.
  repeat split.
  - apply reach_add. apply reach_fresh.
  - intros H. inversion H as [|? ? Hne]. now apply Hne.
Qed.

(** * Further properties of the store *)

Lemma Map_get_delete_same {A} k (m : list (string * A)) :
  NoDup (map fst m) -> Map_get k (Map_delete k m) = None.
Proof.
  induction m as [|[k' v'] m IH]; simpl; intros H; [reflexivity|].
  inversion H as [|? ? Hn Hd]; subst.
  destruct (k' =? k) eqn:E; simpl.
  - apply String.eqb_eq in E; subst k'.
    destruct (Map_get k m) eqn:G; [|reflexivity].
    apply Map_get_In in G. apply (in_map fst) in G. contradiction.
  - rewrite E. auto.
Qed.

Lemma Map_get_delete_other {A} k k' (m : list (string * A)) :
  k <> k' -> Map_get k' (Map_delete k m) = Map_get k' m.
Proof.
  intros N. induction m as [|[k0 v0] m IH]; simpl; [reflexivity|].
  destruct (k0 =? k) eqn:E; simpl.
  - apply String.eqb_eq in E; subst k0.
    destruct (k =? k') eqn:E'; [|reflexivity].
    apply String.eqb_eq in E'. contradiction.
  - now rewrite IH.
Qed.

Lemma Map_delete_set_absent {A} k (v : A) m :
  Map_get k m = None -> Map_delete k (Map_set k v m) = m.
Proof.
  induction m as [|[k' v'] m IH]; simpl.
  - now rewrite String.eqb_refl.
  - destruct (k' =? k) eqn:E; [discriminate|]. simpl. rewrite E.
    intros H. now rewrite IH.
Qed.

Lemma Map_set_get_same {A} k (v : A) m : Map_get k m = Some v -> Map_set k v m = m.
Proof.
  induction m as [|[k' v'] m IH]; simpl; [discriminate|].
  destruct (k' =? k) eqn:E.
  - now intros [= ->].
  - intros H. now rewrite IH.
Qed.

Lemma lookup_ensure e store e' name' :
  lookup (ensure_entity e store) e' name' = lookup store e' name'.
Proof.
  unfold lookup, ensure_entity, Map_has.
  destruct (Map_get e store) eqn:G; [reflexivity|].
  destruct (String.eqb_spec e e') as [->|N].
  - now rewrite Map_get_set_same, G.
  - now rewrite Map_get_set_other.
Qed.

Lemma lookup_set_other e comps store e' name' :
  e <> e' -> lookup (Map_set e comps store) e' name' = lookup store e' name'.
Proof. intros N. unfold lookup. now rewrite Map_get_set_other. Qed.

Lemma pair_neq (e e' name name' : string) :
  (e', name') <> (e, name) -> e = e' -> name <> name'.
Proof. intros N -> ->. now apply N. Qed.

(** X1.  When [addComponent] returns, the entity holds the returned
    component under the type name, [hasComponent] is true for it, and no
    other lookup has changed. *)
Theorem addComponent_then_lookup :
  forall engine ed e name data cs c cs',
    addComponent engine ed e name data cs = (Normal c, cs') ->
    getComponent e name cs' = Some c /\
    hasComponent e name cs' = true /\
    forall e' name', (e', name') <> (e, name) ->
      getComponent e' name' cs' = getComponent e' name' cs.
Proof.
  intros engine ed e name data cs c cs' H.
  destruct (addComponent_stores _ _ _ _ _ _ _ _ H) as (_ & comps & He & Hc).
  split; [|split].
  - unfold getComponent. now rewrite He.
  - unfold hasComponent, Map_has. now rewrite He, Hc.
  - intros e' name' N. change (lookup (entityComponents cs') e' name' =
                               lookup (entityComponents cs) e' name').
    revert H. unfold addComponent.
    destruct (Map_get name (componentTypes cs)) as [cls|]; [|discriminate].
    set (store1 := ensure_entity e (entityComponents cs)).
    destruct (Map_get name (components_of e store1)) as [c0|] eqn:Ec.
    + invert_result. simpl. apply lookup_ensure.
    + destruct (construct engine ed cls e data) as [[b fx]|]; [|discriminate].
      invert_result. simpl.
      destruct (String.eqb_spec e e') as [<-|Ne].
      * unfold lookup at 1. rewrite Map_get_set_same.
        rewrite Map_get_set_other by (eapply pair_neq; eauto).
        rewrite <- (lookup_ensure e (entityComponents cs) e name').
        unfold lookup, components_of. fold store1.
        now destruct (Map_get e store1).
      * rewrite lookup_set_other by assumption. apply lookup_ensure.
Qed.

Lemma addComponent_then_lookup_witness :
  let cs := fresh_system sample_types in
  let r := addComponent sample_engine (sample_editor "edit") "e1" "Light" [] cs in
  exists c,
    fst r = Normal c /\
    getComponent "e1" "Light" (snd r) = Some c /\
    hasComponent "e1" "Light" (snd r) = true /\
    getComponent "e1" "Script" (snd r) = getComponent "e1" "Script" cs.
Proof.
  intros cs r.
  exists (mkComponent 0 (BForeign (mkForeign [] (Some Returns) (Some Returns)))).
  destruct (addComponent_then_lookup sample_engine (sample_editor "edit") "e1" "Light" []
              cs (mkComponent 0 (BForeign (mkForeign [] (Some Returns) (Some Returns))))
              (snd r) eq_refl) as (H1 & H2 & H3).
  split; [reflexivity|]. split; [exact H1|]. split; [exact H2|].
  apply H3. discriminate.
Defined.

(** X2.  A call of [addComponent] that throws (unknown type, or a
    constructor that throws) changes no lookup, allocates nothing, adds
    nothing to the updateable set and emits nothing. *)
Theorem addComponent_throw_changes_no_lookup :
  forall engine ed e name data cs cs',
    addComponent engine ed e name data cs = (Throw, cs') ->
    (forall e' name', getComponent e' name' cs' = getComponent e' name' cs) /\
    nextRef cs' = nextRef cs /\
    updateableComponents cs' = updateableComponents cs /\
    journal cs' = journal cs.
Proof.
  intros engine ed e name data cs cs'. unfold addComponent.
  destruct (Map_get name (componentTypes cs)) as [cls|].
  - destruct (Map_get name (components_of e (ensure_entity e (entityComponents cs))));
      [discriminate|].
    destruct (construct engine ed cls e data) as [[b fx]|]; [discriminate|].
    invert_result. repeat split.
    intros e' name'. apply (lookup_ensure e (entityComponents cs) e' name').
  - invert_result. repeat split.
Qed.

Lemma addComponent_throw_changes_no_lookup_witness :
  let cs := add "edit" "e1" "Light" [] (fresh_system sample_types) in
  let r := addComponent sample_engine (sample_editor "edit") "e2" "Unbuildable" [] cs in
  fst r = Throw /\
  getComponent "e1" "Light" (snd r) = getComponent "e1" "Light" cs /\
  getComponent "e2" "Unbuildable" (snd r) = None /\
  nextRef (snd r) = nextRef cs /\
  journal (snd r) = journal cs.
Proof.
  intros cs r.
  destruct (addComponent_throw_changes_no_lookup sample_engine (sample_editor "edit")
              "e2" "Unbuildable" [] cs (snd r) eq_refl) as (H1 & H2 & _ & H4).
  split; [reflexivity|]. split; [apply H1|]. split; [apply H1|].
  split; assumption.
Defined.

Lemma lookup_delete_other e store e' name' :
  e <> e' -> lookup (Map_delete e store) e' name' = lookup store e' name'.
Proof. intros N. unfold lookup. now rewrite Map_get_delete_other. Qed.

(** X3.  In a state the store can reach, when [removeComponent] returns
    true the entity no longer holds a component under the type name, and no
    other lookup has changed. *)
Theorem removeComponent_then_lookup :
  forall engine cs e name cs',
    reachable engine cs ->
    removeComponent e name cs = (Normal true, cs') ->
    getComponent e name cs' = None /\
    hasComponent e name cs' = false /\
    forall e' name', (e', name') <> (e, name) ->
      getComponent e' name' cs' = getComponent e' name' cs.
Proof.
  intros engine cs e name cs' Hr. apply reachable_wf in Hr.
  unfold removeComponent.
  destruct (Map_get e (entityComponents cs)) as [comps|] eqn:Ee; [|discriminate].
  destruct (Map_get name comps) as [c|] eqn:Ec; [|discriminate].
  destruct (Component_destroy c) as [[r c'] fx]. destruct r; [|discriminate].
  invert_result.
  assert (Hn : NoDup (map fst comps)).
  { destruct Hr as [_ Hr]. apply Map_get_In in Ee. eauto. }
  assert (Hk : NoDup (map fst (entityComponents cs))) by apply Hr.
  assert (L : forall e' name',
             lookup (match Map_delete name comps with
                     | [] => Map_delete e (entityComponents cs)
                     | _ :: _ => Map_set e (Map_delete name comps) (entityComponents cs)
                     end) e' name' =
             if (e =? e') && (name =? name') then None
             else lookup (entityComponents cs) e' name').
  { intros e' name'.
    destruct (String.eqb_spec e e') as [<-|Ne]; simpl.
    - assert (G : lookup (entityComponents cs) e name' = Map_get name' comps)
        by (unfold lookup; now rewrite Ee).
      rewrite G.
      destruct (String.eqb_spec name name') as [<-|Nn].
      + destruct (Map_delete name comps) eqn:Ed.
        * unfold lookup. now rewrite Map_get_delete_same.
        * unfold lookup. rewrite Map_get_set_same. rewrite <- Ed.
          now apply Map_get_delete_same.
      + rewrite <- (Map_get_delete_other name name' comps) by assumption.
        destruct (Map_delete name comps) eqn:Ed.
        * unfold lookup. now rewrite Map_get_delete_same.
        * unfold lookup. now rewrite Map_get_set_same.
    - destruct (Map_delete name comps).
      + now apply lookup_delete_other.
      + now apply lookup_set_other. }
  split; [|split].
  - change (lookup (match Map_delete name comps with
                    | [] => Map_delete e (entityComponents cs)
                    | _ :: _ => Map_set e (Map_delete name comps) (entityComponents cs)
                    end) e name = None).
    rewrite L. now rewrite !String.eqb_refl.
  - specialize (L e name). rewrite !String.eqb_refl in L. simpl in L.
    unfold hasComponent, Map_has. cbn [entityComponents].
    unfold lookup in L.
    match goal with
    | |- context [Map_get e ?X] => destruct (Map_get e X) as [m|] eqn:G
    end; [now rewrite L|reflexivity].
  - intros e' name' N.
    change (lookup (match Map_delete name comps with
                    | [] => Map_delete e (entityComponents cs)
                    | _ :: _ => Map_set e (Map_delete name comps) (entityComponents cs)
                    end) e' name' = lookup (entityComponents cs) e' name').
    rewrite L.
    destruct (String.eqb_spec e e') as [<-|]; [|reflexivity].
    destruct (String.eqb_spec name name') as [<-|]; [|reflexivity].
    now contradiction N.
Qed.

Lemma removeComponent_then_lookup_witness :
  let cs := healthy_system in
  let r := removeComponent "e1" "Script" cs in
  fst r = Normal true /\
  getComponent "e1" "Script" (snd r) = None /\
  hasComponent "e1" "Script" (snd r) = false /\
  getComponent "e1" "Light" (snd r) = getComponent "e1" "Light" cs /\
  getComponent "e2" "Script" (snd r) = getComponent "e2" "Script" cs.
Proof.
  intros cs r.
  assert (R : reachable sample_engine cs).
  { unfold cs, healthy_system, add. repeat apply reach_add. apply reach_fresh. }
  destruct (removeComponent_then_lookup sample_engine cs "e1" "Script" (snd r) R eq_refl)
    as (H1 & H2 & H3).
  split; [reflexivity|]. split; [exact H1|]. split; [exact H2|].
  split; apply H3; discriminate.
Defined.

(** In the states the store can reach, the objects of the updateable set
    were all allocated. *)
Lemma remove_each_refs e names cs :
  refs_allocated cs -> refs_allocated (snd (remove_each e names cs)).
Proof.
  revert cs. induction names as [|name rest IH]; intros cs H; simpl; [assumption|].
  assert (H1 : refs_allocated (snd (removeComponent e name cs))).
  { revert H. unfold removeComponent, refs_allocated.
    destruct (Map_get e (entityComponents cs)) as [comps|]; [|now simpl].
    destruct (Map_get name comps) as [c|]; [|now simpl].
    destruct (Component_destroy c) as [[r c'] fx]. destruct r; simpl; [|auto].
    rewrite !Forall_forall. intros H x Hx. apply in_remove in Hx. apply H, Hx. }
  destruct (removeComponent e name cs) as [[b|] cs1]; simpl in *; auto.
Qed.

Lemma reachable_refs engine cs : reachable engine cs -> refs_allocated cs.
Proof.
  induction 1.
  - constructor.
  - assumption.
  - revert IHreachable. unfold addComponent, refs_allocated.
    destruct (Map_get name (componentTypes cs)) as [cls|]; [|now simpl].
    destruct (Map_get name (components_of e (ensure_entity e (entityComponents cs))));
      [now simpl|].
    destruct (construct engine ed cls e data) as [[b fx]|]; [|now simpl].
    simpl. intros Hu.
    assert (H' : Forall (fun r => (r < S (nextRef cs))%nat) (updateableComponents cs)).
    { eapply Forall_impl; [|exact Hu]. simpl. intros; lia. }
    destruct (has_update _); [|assumption].
    apply Forall_app. split; [assumption|]. repeat constructor.
  - apply (remove_each_refs e [name] cs) in IHreachable. simpl in IHreachable.
    destruct (removeComponent e name cs) as [[b|] cs1]; exact IHreachable.
  - unfold removeAllComponents.
    destruct (Map_get e (entityComponents cs)); [|assumption].
    now apply remove_each_refs.
Qed.

(** X4.  In a state the store can reach where entity [e] is absent or
    holds some components, none under [name]: adding the component and
    removing it again leaves the store and the updateable set exactly as
    they were (provided its [destroy] does not throw). *)
Theorem add_then_remove_restores_store :
  forall engine ed e name data cs c cs1,
    reachable engine cs ->
    Map_get e (entityComponents cs) <> Some [] ->
    hasComponent e name cs = false ->
    addComponent engine ed e name data cs = (Normal c, cs1) ->
    destroy_throws c = false ->
    exists cs2,
      removeComponent e name cs1 = (Normal true, cs2) /\
      entityComponents cs2 = entityComponents cs /\
      updateableComponents cs2 = updateableComponents cs.
Proof.
  intros engine ed e name data cs c cs1 Hr Hne Hh Ha Hd.
  pose proof (reachable_refs _ _ Hr) as Hrefs.
  revert Ha. unfold addComponent.
  destruct (Map_get name (componentTypes cs)) as [cls|]; [|discriminate].
  rewrite lookup_after_ensure.
  unfold hasComponent, Map_has in Hh.
  unfold ensure_entity, components_of, Map_has.
  assert (Hc : exists r c' fx, Component_destroy c = (Normal r, c', fx)).
  { unfold Component_destroy, destroy_throws in *. destruct (body c) as [s|o].
    - destruct (Script_destroy s). eauto.
    - destruct (f_destroy o) as [[|]|]; eauto. discriminate. }
  destruct Hc as (r0 & c' & fx0 & Hc).
  assert (Hu : forall l, Forall (fun r => (r < nextRef cs)%nat) l ->
                 remove Nat.eq_dec (nextRef cs) l = l).
  { intros l Hl. apply notin_remove. intros F.
    rewrite Forall_forall in Hl. apply Hl in F. lia. }
  destruct (Map_get e (entityComponents cs)) as [comps|] eqn:Ee.
  - destruct (Map_get name comps) as [c0|] eqn:Ec; [discriminate|].
    destruct (construct engine ed cls e data) as [[b fx]|]; [|discriminate].
    invert_result. unfold removeComponent. simpl. rewrite ?Ee.
    rewrite Map_get_set_same, Map_get_set_same. simpl in Hc. rewrite Hc.
    rewrite (Map_delete_set_absent _ _ _ Ec), Map_set_twice.
    rewrite (Map_set_get_same _ _ _ Ee).
    destruct comps as [|p comps]; [congruence|].
    eexists. split; [reflexivity|]. split; [reflexivity|]. simpl.
    destruct (has_update _).
    + rewrite remove_app. simpl.
      destruct (Nat.eq_dec (nextRef cs) (nextRef cs)); [|congruence].
      rewrite app_nil_r. now apply Hu.
    + now apply Hu.
  - destruct (construct engine ed cls e data) as [[b fx]|]; [|discriminate].
    invert_result. unfold removeComponent. simpl. rewrite ?Ee.
    rewrite !Map_get_set_same. simpl. rewrite !String.eqb_refl.
    simpl in Hc. rewrite Hc.
    rewrite Map_set_twice, (Map_delete_set_absent _ _ _ Ee).
    eexists. split; [reflexivity|]. split; [reflexivity|]. simpl.
    destruct (has_update _).
    + rewrite remove_app. simpl.
      destruct (Nat.eq_dec (nextRef cs) (nextRef cs)); [|congruence].
      rewrite app_nil_r. now apply Hu.
    + now apply Hu.
Qed.

Lemma add_then_remove_restores_store_witness :
  let cs := healthy_system in
  let r := addComponent sample_engine (sample_editor "edit") "e2" "Collider" [] cs in
  exists c cs2,
    fst r = Normal c /\
    removeComponent "e2" "Collider" (snd r) = (Normal true, cs2) /\
    entityComponents cs2 = entityComponents cs /\
    updateableComponents cs2 = updateableComponents cs.
Proof.
  intros cs r.
  assert (R : reachable sample_engine cs).
  { unfold cs, healthy_system, add. repeat apply reach_add. apply reach_fresh. }
  exists (mkComponent 3 (BForeign (mkForeign [] (Some Returns) (Some Returns)))).
  assert (N : Map_get "e2" (entityComponents cs) <> Some []) by discriminate.
  destruct (add_then_remove_restores_store sample_engine (sample_editor "edit")
              "e2" "Collider" [] cs
              (mkComponent 3 (BForeign (mkForeign [] (Some Returns) (Some Returns))))
              (snd r) R N eq_refl eq_refl eq_refl) as (cs2 & H).
  exists cs2. split; [reflexivity|exact H].
Defined.

(** ** Removing all the components of an entity *)

Lemma destroy_calls_app fx fx' :
  destroy_calls (fx ++ fx') = destroy_calls fx ++ destroy_calls fx'.
Proof.
  induction fx as [|x fx IH]; simpl; [reflexivity|].
  destruct x; simpl; now rewrite IH.
Qed.

Lemma Map_delete_set_present {A} k (v w : A) m :
  Map_get k m = Some w -> Map_delete k (Map_set k v m) = Map_delete k m.
Proof.
  induction m as [|[k' v'] m IH]; simpl; [discriminate|].
  destruct (k' =? k) eqn:E; simpl; rewrite E; [reflexivity|].
  intros H. now rewrite IH.
Qed.

(** What one [destroy()] writes: no notification, no call of another
    [destroy]. *)
Lemma Component_destroy_effects c :
  emissions (snd (Component_destroy c)) = [] /\
  destroy_calls (snd (Component_destroy c)) = [] /\
  fst (fst (Component_destroy c)) = if destroy_throws c then Throw else Normal tt.
Proof.
  unfold Component_destroy, Script_destroy, destroy_throws. destruct (body c) as [s|o].
  - simpl. destruct (scriptInstance s) as [inst|]; [|auto].
    destruct (onDestroy inst) as [[|]|]; auto.
  - destruct (f_destroy o) as [[|]|]; auto.
Qed.

Lemma destroy_throws_has_destroy c : destroy_throws c = true -> has_destroy c = true.
Proof.
  unfold destroy_throws, has_destroy. destruct (body c) as [s|o]; [discriminate|].
  destruct (f_destroy o) as [[|]|]; auto.
Qed.

(** The loop of [removeAllComponents] over the names of a non-empty
    component map: it removes the components in front of the first one
    whose [destroy] throws, and stops there. *)
Lemma remove_each_spec e comps :
  comps <> [] ->
  forall cs,
    Map_get e (entityComponents cs) = Some comps ->
    let r := remove_each e (map fst comps) cs in
    fst r = match survivors comps with [] => Normal tt | _ => Throw end /\
    entityComponents (snd r) =
      match survivors comps with
      | [] => Map_delete e (entityComponents cs)
      | held => Map_set e held (entityComponents cs)
      end /\
    exists fx,
      journal (snd r) = journal cs ++ fx /\
      emissions fx =
        map (fun nc => Emit COMPONENT_REMOVED e (fst nc) (destroyed (snd nc)))
          (removable comps) /\
      destroy_calls fx =
        map (fun nc => (e, fst nc))
          (filter (fun nc => has_destroy (snd nc))
             (removable comps ++ firstn 1 (survivors comps))).
Proof.
  induction comps as [|[name c] rest IH]; [congruence|].
  intros _ cs He. simpl map. cbn [remove_each].
  unfold removeComponent. rewrite He. simpl Map_get. rewrite String.eqb_refl.
  destruct (Component_destroy_effects c) as (Qe & Qd & Qr).
  unfold destroyed.
  destruct (Component_destroy c) as [[r0 c'] fx0] eqn:Ed. simpl in Qe, Qd, Qr.
  simpl survivors. simpl removable.
  destruct (destroy_throws c) eqn:Ht; subst r0.
  - (* the first destroy throws *)
    simpl. rewrite (destroy_throws_has_destroy _ Ht).
    split; [reflexivity|]. split; [now rewrite (Map_set_get_same _ _ _ He)|].
    eexists. split; [reflexivity|].
    rewrite emissions_app, destroy_calls_app, Qe, Qd. simpl. auto.
  - simpl Map_delete. rewrite String.eqb_refl.
    set (cs1 := mkSystem _ _ _ _ _ _ _ _).
    destruct rest as [|p rest'].
    + (* the last component *)
      simpl. split; [reflexivity|]. split; [reflexivity|].
      eexists. split; [reflexivity|].
      rewrite !emissions_app, !destroy_calls_app, Qe, Qd. simpl.
      rewrite Ed. destruct (has_destroy c); simpl; auto.
    + assert (He1 : Map_get e (entityComponents cs1) = Some (p :: rest'))
        by (simpl; apply Map_get_set_same).
      destruct (IH ltac:(discriminate) cs1 He1) as (R1 & R2 & fx & Rj & Re & Rd).
      split; [exact R1|]. split.
      * rewrite R2. simpl entityComponents.
        destruct (survivors (p :: rest')).
        -- now apply Map_delete_set_present with (w := (name, c) :: p :: rest').
        -- apply Map_set_twice.
      * eexists. split; [rewrite Rj; simpl journal; rewrite <- app_assoc; reflexivity|].
        rewrite !emissions_app, !destroy_calls_app, Qe, Qd, Re, Rd. simpl.
        rewrite Ed. destruct (has_destroy c); simpl; auto.
Qed.

Lemma survivors_none comps :
  forallb (fun nc => negb (destroy_throws (snd nc))) comps = true ->
  survivors comps = [] /\ removable comps = comps.
Proof.
  induction comps as [|[name c] rest IH]; simpl; [auto|].
  rewrite andb_true_iff, negb_true_iff. intros [-> H].
  destruct (IH H) as [-> ->]. auto.
Qed.

Lemma survivors_head comps :
  survivors comps <> [] ->
  exists name c rest,
    survivors comps = (name, c) :: rest /\ destroy_throws c = true.
Proof.
  induction comps as [|[name c] rest IH]; simpl; [congruence|].
  destruct (destroy_throws c) eqn:E; eauto.
Qed.

(** X5.  In a state the store can reach, when no [destroy] of a component of
    the entity throws, [removeAllComponents] returns and the entity has no
    components afterwards.  If it had at least one, it is no longer in the
    store; if it had none (it was absent, or held an empty component map),
    nothing changes, so an empty map stays in the store.  [destroy] has been
    called once on each of its components that has one and one
    COMPONENT_REMOVED has been emitted per component, in the order of the
    component map, and the other entities keep their components. *)
Theorem removeAllComponents_clears_entity :
  forall engine cs e,
    reachable engine cs ->
    let comps := components_of e (entityComponents cs) in
    let r := removeAllComponents e cs in
    forallb (fun nc => negb (destroy_throws (snd nc))) comps = true ->
    fst r = Normal tt /\
    getComponents e (snd r) = [] /\
    (comps <> [] -> Map_get e (entityComponents (snd r)) = None) /\
    (comps = [] -> snd r = cs) /\
    (forall e', e' <> e ->
       Map_get e' (entityComponents (snd r)) = Map_get e' (entityComponents cs)) /\
    emissions (new_entries cs (snd r)) =
      map (fun nc => Emit COMPONENT_REMOVED e (fst nc) (destroyed (snd nc))) comps /\
    destroy_calls (new_entries cs (snd r)) =
      map (fun nc => (e, fst nc)) (filter (fun nc => has_destroy (snd nc)) comps).
Proof.
  intros engine cs e Hr comps r Hok. subst r.
  unfold removeAllComponents, getComponents. subst comps. unfold components_of in *.
  assert (Hq : new_entries cs cs = []).
  { apply new_entries_appended. now rewrite app_nil_r. }
  destruct (Map_get e (entityComponents cs)) as [comps|] eqn:He.
  - destruct comps as [|nc rest].
    + simpl. rewrite He, Hq. repeat split; auto; congruence.
    + set (comps := nc :: rest) in *.
      assert (Hne : comps <> []) by discriminate.
      destruct (remove_each_spec e comps Hne cs He) as (R1 & R2 & fx & Rj & Re & Rd).
      destruct (survivors_none comps Hok) as [Hs Hrm].
      rewrite Hs in R1, R2. rewrite Hs, Hrm in Rd. rewrite Hrm in Re.
      simpl firstn in Rd. rewrite app_nil_r in Rd.
      assert (Hk : NoDup (map fst (entityComponents cs)))
        by (apply reachable_wf in Hr; apply Hr).
      assert (Hg : Map_get e (entityComponents (snd (remove_each e (map fst comps) cs)))
                   = None).
      { rewrite R2. now apply Map_get_delete_same. }
      split; [exact R1|]. split; [now rewrite Hg|]. split; [intros _; exact Hg|].
      split; [intros E; contradiction|]. split.
      { intros e' N. rewrite R2. apply Map_get_delete_other. congruence. }
      rewrite (new_entries_appended _ _ _ Rj). auto.
  - simpl. rewrite He, Hq. repeat split; auto; congruence.
Qed.

Lemma removeAllComponents_clears_entity_witness :
  let cs := healthy_system in
  let r := removeAllComponents "e1" cs in
  let left_empty :=
    snd (addComponent sample_engine (sample_editor "edit") "e9" "Unbuildable" []
           (fresh_system sample_types)) in
  fst r = Normal tt /\
  Map_get "e1" (entityComponents (snd r)) = None /\
  getComponents "e1" (snd r) = [] /\
  Map_get "e2" (entityComponents (snd r)) = Map_get "e2" (entityComponents cs) /\
  destroy_calls (new_entries cs (snd r)) = [("e1", "Script"); ("e1", "Light")] /\
  Map_get "e9" (entityComponents left_empty) = Some [] /\
  removeAllComponents "e9" left_empty = (Normal tt, left_empty).
Proof.
  intros cs r left_empty.
  assert (R : reachable sample_engine cs).
  { unfold cs, healthy_system, add. repeat apply reach_add. apply reach_fresh. }
  assert (N : components_of "e1" (entityComponents cs) <> []) by discriminate.
  destruct (removeAllComponents_clears_entity sample_engine cs "e1" R eq_refl)
    as (H1 & H2 & H3 & _ & H4 & _ & H6).
  assert (R' : reachable sample_engine left_empty).
  { unfold left_empty. apply reach_add, reach_fresh. }
  destruct (removeAllComponents_clears_entity sample_engine left_empty "e9" R' eq_refl)
    as (K1 & _ & _ & K2 & _).
  split; [exact H1|]. split; [exact (H3 N)|]. split; [exact H2|].
  split; [apply H4; discriminate|]. split; [exact H6|]. split; [reflexivity|].
  rewrite (surjective_pairing (removeAllComponents "e9" left_empty)).
  now rewrite K1, (K2 eq_refl).
Defined.

(** X6.  When [removeAllComponents] throws, it has stopped at the first
    component whose [destroy] throws: that component and the ones after it
    in the component map are still held by the entity, the ones before it
    are removed. *)
Theorem removeAllComponents_stops_at_throwing_destroy :
  forall e cs,
    let comps := components_of e (entityComponents cs) in
    let r := removeAllComponents e cs in
    fst r = Throw ->
    components_of e (entityComponents (snd r)) = survivors comps /\
    exists name c rest,
      survivors comps = (name, c) :: rest /\
      destroy_throws c = true /\
      getComponent e name (snd r) = Some c /\
      emissions (new_entries cs (snd r)) =
        map (fun nc => Emit COMPONENT_REMOVED e (fst nc) (destroyed (snd nc)))
          (removable comps).
Proof.
  intros e cs comps r. subst r comps.
  unfold removeAllComponents, components_of.
  destruct (Map_get e (entityComponents cs)) as [comps|] eqn:He; [|discriminate].
  destruct comps as [|p comps']; [discriminate|].
  destruct (remove_each_spec e (p :: comps') ltac:(discriminate) cs He)
    as (R1 & R2 & fx & Rj & Re & Rd).
  intros Ht. rewrite Ht in R1.
  destruct (survivors (p :: comps')) as [|[name c] rest] eqn:Es; [discriminate|].
  destruct (survivors_head (p :: comps')) as (name' & c' & rest' & Hs & Hthrow);
    [congruence|].
  rewrite Es in Hs. inversion Hs; subst name' c' rest'.
  rewrite R2, Map_get_set_same. split; [reflexivity|].
  exists name, c, rest. split; [reflexivity|]. split; [assumption|]. split.
  - unfold getComponent. rewrite R2, Map_get_set_same. simpl.
    now rewrite String.eqb_refl.
  - now rewrite (new_entries_appended _ _ _ Rj).
Qed.

Lemma removeAllComponents_stops_at_throwing_destroy_witness :
  let cs := sticky_system in
  let r := removeAllComponents "e1" cs in
  fst r = Throw /\
  map fst (components_of "e1" (entityComponents (snd r))) = ["Sticky"; "Script"] /\
  hasComponent "e1" "Light" (snd r) = false /\
  exists c, getComponent "e1" "Sticky" (snd r) = Some c /\ destroy_throws c = true.
Proof.
  intros cs r.
  destruct (removeAllComponents_stops_at_throwing_destroy "e1" cs eq_refl)
    as (H1 & name & c & rest & Hs & Ht & Hg & _).
  split; [reflexivity|]. split; [unfold r; now rewrite H1|]. split; [reflexivity|].
  injection Hs as <- <- <-. eexists. split; [exact Hg|exact Ht].
Defined.

(** ** Removing and serializing a Script *)

(** X7.  Removing a Script component never throws: its [onDestroy] hook, if
    the compiled instance has one, is called exactly once, also when it
    throws; the component is removed all the same, and the notification
    carries the component with [scriptInstance] set to null. *)
Theorem removeComponent_script_runs_onDestroy :
  forall cs e name c s,
    getComponent e name cs = Some c ->
    body c = BScript s ->
    let r := removeComponent e name cs in
    fst r = Normal true /\
    hook_calls HOnDestroy (new_entries cs (snd r)) =
      match scriptInstance s with
      | Some inst => match onDestroy inst with Some _ => [entity s] | None => [] end
      | None => []
      end /\
    emissions (new_entries cs (snd r)) =
      [Emit COMPONENT_REMOVED e name
         (mkComponent (ref c) (BScript (with_instance None s)))].
Proof.
  intros cs e name c s Hg Hb r. subst r.
  unfold getComponent in Hg. unfold removeComponent.
  destruct (Map_get e (entityComponents cs)) as [comps|]; [|discriminate].
  rewrite Hg. unfold Component_destroy, has_destroy. rewrite Hb. simpl.
  split; [reflexivity|].
  erewrite new_entries_appended by reflexivity.
  simpl.
  destruct (scriptInstance s) as [inst|]; [|split; reflexivity].
  destruct (onDestroy inst) as [[|]|]; split; reflexivity.
Qed.

Lemma removeComponent_script_runs_onDestroy_witness :
  let cs := mortal_system in
  let r := removeComponent "e1" "Script" cs in
  fst r = Normal true /\
  hook_calls HOnDestroy (new_entries cs (snd r)) = ["e1"] /\
  exists c, emissions (new_entries cs (snd r)) = [Emit COMPONENT_REMOVED "e1" "Script" c] /\
            exists s, body c = BScript s /\ scriptInstance s = None.
Proof.
  intros cs r.
  destruct (getComponent "e1" "Script" cs) as [c|] eqn:G; [|discriminate].
  destruct (body c) as [s|o] eqn:B; [|vm_compute in G; inversion G; subst; discriminate].
  destruct (removeComponent_script_runs_onDestroy cs "e1" "Script" c s G B)
    as (H1 & H2 & H3).
  split; [exact H1|]. split; [reflexivity|].
  eexists. split; [exact H3|]. eexists. split; reflexivity.
Defined.

Lemma js_or_idempotent a b : js_or (js_or a b) b = js_or a b.
Proof.
  unfold js_or. destruct (truthy a) eqn:E; [now rewrite E|].
  now destruct (truthy b).
Qed.

(** X8.  A Script built by the constructor survives a round trip through
    [serialize()]: a Script built from the serialized data has the same
    name, code, [enabled] flag and variables, and, built for the same entity
    in the same editor, it is the same Script, compiled instance
    included. *)
Theorem Script_serialize_round_trip :
  forall engine ed e data ed' e',
    let s := fst (Script_new engine ed e data) in
    let s' := fst (Script_new engine ed' e' (Script_serialize s)) in
    scriptName s' = scriptName s /\
    scriptCode s' = scriptCode s /\
    enabled s' = enabled s /\
    variables s' = variables s /\
    (ed' = ed -> e' = e -> s' = s).
Proof.
  intros engine ed e data ed' e'.
  set (n := js_or (field data "scriptName") (JStr "")).
  set (c := js_or (field data "scriptCode") (JStr "")).
  set (en := match field data "enabled" with JUndefined => JBool true | v => v end).
  set (v := js_or (field data "variables") (JObj [])).
  assert (Hen : match en with
                | JUndefined => JBool true
                | JNull => JNull
                | JBool b => JBool b
                | JNum k => JNum k
                | JStr t => JStr t
                | JObj props => JObj props
                end = en).
  { unfold en. now destruct (field data "enabled"). }
  assert (Fields : forall ed0 e0 s0,
            s0 = fst (Script_new engine ed0 e0 data) ->
            scriptName s0 = n /\ scriptCode s0 = c /\ enabled s0 = en /\ variables s0 = v).
  { intros ed0 e0 s0 ->. unfold Script_new, compileScript. fold n c en v. simpl.
    destruct (truthy c || truthy n); [|auto].
    destruct (createScriptContext ed0 _); [|auto].
    destruct (engine c); auto. }
  intros s s'.
  destruct (Fields ed e s eq_refl) as (Hn & Hc & He & Hv).
  assert (Again : forall ed0 e0,
            fst (Script_new engine ed0 e0 (Script_serialize s)) =
            fst (Script_new engine ed0 e0 data)).
  { intros ed0 e0. unfold Script_new at 1. unfold Script_serialize, field.
    cbn [Map_get String.eqb Ascii.eqb Bool.eqb].
    rewrite Hn, Hc, He, Hv. unfold n, c, v.
    rewrite !js_or_idempotent. fold n c v. rewrite Hen.
    unfold Script_new. fold n c en v. reflexivity. }
  subst s'. rewrite Again.
  destruct (Fields ed' e' _ eq_refl) as (Hn' & Hc' & He' & Hv').
  rewrite Hn', Hc', He', Hv'.
  repeat split; try congruence.
  intros -> ->. reflexivity.
Qed.

(** X9.  [stopScriptExecution] changes neither the store nor the clock: the
    compiled instances stay in place, so a second call makes the same
    [onDestroy] calls again. *)
Theorem stopScriptExecution_repeats :
  forall cs,
    let once := stopScriptExecution cs in
    let twice := stopScriptExecution once in
    entityComponents once = entityComponents cs /\
    scriptStartTime once = scriptStartTime cs /\
    totalPausedTime once = totalPausedTime cs /\
    hook_calls HOnDestroy (new_entries cs once) =
      entities_where exposes_onDestroy (entityComponents cs) /\
    hook_calls HOnDestroy (new_entries once twice) =
      hook_calls HOnDestroy (new_entries cs once).
Proof.
  intros cs once twice. subst once twice.
  destruct (stop_calls (entityComponents cs)) as [H _].
  assert (E1 : new_entries cs (stopScriptExecution cs) =
               flat_map (fun ec => stop_entity (fst ec) (snd ec)) (entityComponents cs))
    by (apply new_entries_appended; reflexivity).
  assert (E2 : new_entries (stopScriptExecution cs)
                 (stopScriptExecution (stopScriptExecution cs)) =
               flat_map (fun ec => stop_entity (fst ec) (snd ec)) (entityComponents cs))
    by (apply new_entries_appended; reflexivity).
  rewrite E1, E2.
  split; [reflexivity|]. split; [reflexivity|]. split; [reflexivity|].
  split; [exact H|reflexivity].
Qed.

(** ** Several pauses *)

Lemma total_grid (j : Z) (l : list Q) :
  Forall (fun x => 0 <= x /\ on_grid j x = true) l ->
  0 <= total l /\ exists n : Z, total l == inject_Z n * 2 ^ j.
Proof.
  induction 1 as [|x l [Hx Gx] _ [IH1 IH2]]; unfold total in *; simpl.
  - split; [discriminate|]. exists 0%Z. ring.
  - apply on_grid_iff in Gx. destruct Gx as [Mx _].
    split; [lra|]. now apply multiple_plus.
Qed.

Lemma pause_resume_cycles_spec (j : Z) cycles :
  forall t cs,
    (-1074 <= j)%Z -> 0 < t ->
    Forall (fun x => 0 <= x /\ on_grid j x = true) (map fst cycles) ->
    Forall (fun x => 0 <= x /\ on_grid j x = true) (map snd cycles) ->
    (exists n : Z, totalPausedTime cs == inject_Z n * 2 ^ j) ->
    0 <= totalPausedTime cs -> totalPausedTime cs <= t ->
    t + total (map fst cycles) + total (map snd cycles) <= 2 ^ (53 + j) ->
    let r := pause_resume_cycles t cycles cs in
    scriptStartTime (snd r) = scriptStartTime cs /\
    totalPausedTime (snd r) == totalPausedTime cs + total (map snd cycles) /\
    fst r == t + total (map fst cycles) + total (map snd cycles).
Proof.
  induction cycles as [|[d p] rest IH]; intros t cs Hj Ht Hds Hps Mt T0 Tt Hb; simpl.
  - unfold total. simpl. repeat split; try reflexivity; ring.
  - simpl in Hds, Hps.
    inversion Hds as [|? ? [Hd Gd] Hds']; subst.
    inversion Hps as [|? ? [Hp Gp] Hps']; subst.
    destruct (total_grid j _ Hds') as [Nd _]. destruct (total_grid j _ Hps') as [Np _].
    apply on_grid_iff in Gp. destruct Gp as [Mp Bp]. rewrite Qabs_pos in Bp by assumption.
    change (t + (d + total (map fst rest)) + (p + total (map snd rest)) <= 2 ^ (53 + j))
      in Hb.
    set (T := fl (totalPausedTime cs + fl (t + d + p - (t + d)))).
    assert (E : resumeScriptExecution (t + d + p) (pauseScriptExecution (t + d) cs) =
                with_clock (scriptStartTime cs) 0 T (pauseScriptExecution (t + d) cs)).
    { unfold resumeScriptExecution. simpl. rewrite Qpositive_true by lra. reflexivity. }
    assert (ET : T == totalPausedTime cs + p).
    { assert (E1 : fl (t + d + p - (t + d)) == p).
      { rewrite (fl_comp _ p) by ring.
        apply (fl_grid j); [assumption|assumption|]. now rewrite Qabs_pos. }
      unfold T. rewrite (fl_comp _ (totalPausedTime cs + p)) by now rewrite E1.
      apply (fl_grid j); [assumption|now apply multiple_plus|].
      rewrite Qabs_pos by lra. lra. }
    rewrite E.
    assert (MT : exists n : Z, T == inject_Z n * 2 ^ j).
    { apply (multiple_comp j (totalPausedTime cs + p)); [now symmetry|].
      now apply multiple_plus. }
    destruct (IH (t + d + p)
                (with_clock (scriptStartTime cs) 0 T (pauseScriptExecution (t + d) cs))
                Hj ltac:(lra) Hds' Hps' MT ltac:(change (0 <= T); lra)
                ltac:(change (T <= t + d + p); lra) ltac:(lra))
      as (H1 & H2 & H3).
    split; [exact H1|]. split.
    + change (total (map snd ((d, p) :: rest))) with (p + total (map snd rest)).
      rewrite H2. change (T + total (map snd rest) == totalPausedTime cs + (p + total (map snd rest))).
      rewrite ET. ring.
    + change (total (map fst ((d, p) :: rest))) with (d + total (map fst rest)).
      change (total (map snd ((d, p) :: rest))) with (p + total (map snd rest)).
      rewrite H3. ring.
Qed.

(** X10.  Pause exclusion over any number of pauses, where the arithmetic
    is exact.  Play at [t0], then any sequence of pause/resume cycles
    (playing for d, then paused for p), with every duration a multiple of
    2^j and every reading of the clock below 2^(53+j) (whole milliseconds,
    for j = 0): [totalPausedTime] is the sum of the pauses, and the elapsed
    time read after playing [d'] more is the double nearest to the total
    playing time, (sum of the d's + d') / 1000.  No pause is counted, however
    many there were and however long they lasted. *)
Theorem elapsed_time_excludes_every_pause :
  forall cs (j : Z) (t0 : Q) (cycles : list (Q * Q)) (d' : Q),
    (-1074 <= j)%Z ->
    0 < t0 -> on_grid j t0 = true ->
    Forall (fun x => 0 <= x /\ on_grid j x = true) (map fst cycles) ->
    Forall (fun x => 0 <= x /\ on_grid j x = true) (map snd cycles) ->
    0 <= d' -> on_grid j d' = true ->
    t0 + total (map fst cycles) + total (map snd cycles) + d' <= 2 ^ (53 + j) ->
    let r := pause_resume_cycles t0 cycles (startScriptExecution t0 cs) in
    totalPausedTime (snd r) == total (map snd cycles) /\
    getTime (snd r) (fst r + d') == fl ((total (map fst cycles) + d') / 1000).
Proof.
  intros cs j t0 cycles d' Hj Ht G0 Hds Hps Hd' Gd' Hb r.
  destruct (start_all_clock t0 cs) as (Hs & _ & Hp).
  destruct (total_grid j _ Hds) as [Nd Md]. destruct (total_grid j _ Hps) as [Np Mp].
  apply on_grid_iff in Gd'. destruct Gd' as [Md' _].
  destruct (pause_resume_cycles_spec j cycles t0 (startScriptExecution t0 cs))
    as (H1 & H2 & H3); try assumption; try (rewrite Hp; lra); try lra.
  { exists 0%Z. rewrite Hp. ring. }
  fold r in H1, H2, H3. rewrite Hs in H1. rewrite Hp in H2.
  assert (ET : totalPausedTime (snd r) == total (map snd cycles)) by (rewrite H2; ring).
  split; [exact ET|].
  unfold getTime. rewrite H1, (Qnonzero _ Ht).
  assert (E1 : fl (fst r + d' - t0) ==
               total (map fst cycles) + total (map snd cycles) + d').
  { rewrite (fl_comp _ (total (map fst cycles) + total (map snd cycles) + d'))
      by (rewrite H3; ring).
    apply (fl_grid j); [assumption|repeat apply multiple_plus; assumption|].
    rewrite Qabs_pos by lra. lra. }
  assert (E2 : fl (fl (fst r + d' - t0) - totalPausedTime (snd r)) ==
               total (map fst cycles) + d').
  { rewrite (fl_comp _ (total (map fst cycles) + d')) by (rewrite E1, ET; ring).
    apply (fl_grid j); [assumption|now apply multiple_plus|].
    rewrite Qabs_pos by lra. lra. }
  apply fl_comp. now rewrite E2.
Qed.

Lemma elapsed_time_excludes_every_pause_witness :
  let r :=
    pause_resume_cycles 1000 [(500, 60000); (250, 10); (0, 7)]
      (startScriptExecution 1000 healthy_system) in
  totalPausedTime (snd r) == 60017 /\
  getTime (snd r) (fst r + 250) == 1.
Proof.
  intros r.
  destruct (elapsed_time_excludes_every_pause healthy_system 0 1000
              [(500, 60000); (250, 10); (0, 7)] 250) as [H1 H2].
  - discriminate.
  - reflexivity.
  - reflexivity.
  - repeat constructor; discriminate.
  - repeat constructor; discriminate.
  - discriminate.
  - reflexivity.
  - discriminate.
  - fold r in H1, H2. split; [rewrite H1|rewrite H2]; reflexivity.
Defined.

(** X11.  A resume when no pause is pending changes nothing, so resuming
    twice after one pause counts the pause once. *)
Theorem resumeScriptExecution_idempotent :
  forall cs (t t' : Q),
    resumeScriptExecution t' (resumeScriptExecution t cs) = resumeScriptExecution t cs.
Proof.
  intros cs t t'. unfold resumeScriptExecution at 2.
  destruct (Qpositive (scriptPauseTime cs)) eqn:E.
  - unfold resumeScriptExecution. rewrite E. reflexivity.
  - unfold resumeScriptExecution. now rewrite E.
Qed.

(** ** Saved components and script templates *)

Lemma addComponent_types engine ed e name data cs :
  componentTypes (snd (addComponent engine ed e name data cs)) = componentTypes cs.
Proof.
  unfold addComponent.
  destruct (Map_get name (componentTypes cs)) as [cls|]; [|reflexivity].
  destruct (Map_get name _); [reflexivity|].
  now destruct (construct engine ed cls e data) as [[b fx]|].
Qed.

(** [addComponent] never replaces or drops a component. *)
Lemma addComponent_keeps engine ed e name data cs e' name' c0 :
  getComponent e' name' cs = Some c0 ->
  getComponent e' name' (snd (addComponent engine ed e name data cs)) = Some c0.
Proof.
  intros H. change (lookup (entityComponents cs) e' name' = Some c0) in H.
  change (lookup (entityComponents (snd (addComponent engine ed e name data cs)))
            e' name' = Some c0).
  unfold addComponent.
  destruct (Map_get name (componentTypes cs)) as [cls|]; [|exact H].
  destruct (Map_get name (components_of e (ensure_entity e (entityComponents cs))))
    as [c1|] eqn:Ec.
  - simpl. now rewrite lookup_ensure.
  - assert (F : lookup (ensure_entity e (entityComponents cs)) e' name' = Some c0)
      by now rewrite lookup_ensure.
    destruct (construct engine ed cls e data) as [[b fx]|]; simpl; [|exact F].
    destruct (String.eqb_spec e e') as [<-|Ne].
    + unfold lookup. rewrite Map_get_set_same.
      unfold lookup, components_of in *.
      destruct (Map_get e (ensure_entity e (entityComponents cs))) as [comps|];
        [|discriminate].
      destruct (String.eqb_spec name name') as [<-|Nn]; [congruence|].
      now rewrite Map_get_set_other.
    + now rewrite lookup_set_other.
Qed.

Lemma hasComponent_getComponent e name cs :
  hasComponent e name cs = true <-> exists c, getComponent e name cs = Some c.
Proof.
  unfold hasComponent, getComponent, Map_has.
  destruct (Map_get e (entityComponents cs)) as [comps|].
  - destruct (Map_get name comps) as [c0|].
    + split; eauto.
    + split; [discriminate|]. intros [c H]. discriminate.
  - split; [discriminate|]. intros [c H]. discriminate.
Qed.

Lemma deserializeEntity_keeps engine ed e entries :
  forall cs e' name',
    hasComponent e' name' cs = true ->
    hasComponent e' name' (fst (deserializeEntity engine ed e entries cs)) = true /\
    componentTypes (fst (deserializeEntity engine ed e entries cs)) = componentTypes cs.
Proof.
  induction entries as [|[name data] rest IH]; intros cs e' name' H; simpl; [auto|].
  assert (H1 : hasComponent e' name' (snd (addComponent engine ed e name data cs)) = true).
  { apply hasComponent_getComponent in H. destruct H as [c0 H].
    apply hasComponent_getComponent. exists c0. now apply addComponent_keeps. }
  pose proof (addComponent_types engine ed e name data cs) as Ht.
  destruct (addComponent engine ed e name data cs) as [[c|] cs1]; simpl in *.
  - destruct (IH cs1 e' name' H1) as [A B]. split; [exact A|congruence].
  - destruct (IH cs1 e' name' H1) as [A B].
    destruct (deserializeEntity engine ed e rest cs1). simpl in *.
    split; [exact A|congruence].
Qed.

Lemma deserializeEntity_types engine ed e entries :
  forall cs,
    componentTypes (fst (deserializeEntity engine ed e entries cs)) = componentTypes cs.
Proof.
  induction entries as [|[name data] rest IH]; intros cs; simpl; [reflexivity|].
  pose proof (addComponent_types engine ed e name data cs) as Ht.
  destruct (addComponent engine ed e name data cs) as [[c|] cs1]; simpl in *.
  - rewrite IH. exact Ht.
  - specialize (IH cs1). destruct (deserializeEntity engine ed e rest cs1).
    simpl in *. congruence.
Qed.

(** X12.  [deserializeEntity] goes through every entry, whatever the
    others do: after it, the entity holds a component for each entry whose
    type is registered and whose constructor does not throw, also when
    entries before or after it name unknown types or fail to construct. *)
Theorem deserializeEntity_adds_every_good_entry :
  forall engine ed e entries cs name data cls,
    In (name, data) entries ->
    Map_get name (componentTypes cs) = Some cls ->
    construct engine ed cls e data <> None ->
    hasComponent e name (fst (deserializeEntity engine ed e entries cs)) = true.
Proof.
  intros engine ed e entries.
  induction entries as [|[n d] rest IH]; intros cs name data cls Hin Ht Hc; [destruct Hin|].
  simpl. destruct Hin as [Heq|Hin].
  - inversion Heq; subst n d.
    destruct (addComponent_returns engine ed e name data cs cls Ht Hc) as (c & cs1 & Ha).
    rewrite Ha.
    destruct (addComponent_stores _ _ _ _ _ _ _ _ Ha) as (_ & comps & He & Hg).
    apply deserializeEntity_keeps.
    unfold hasComponent, Map_has. now rewrite He, Hg.
  - pose proof (addComponent_types engine ed e n d cs) as Hty.
    destruct (addComponent engine ed e n d cs) as [[c|] cs1]; simpl in Hty.
    + apply IH with data cls; [assumption|congruence|assumption].
    + specialize (IH cs1 name data cls Hin).
      destruct (deserializeEntity engine ed e rest cs1). simpl in *.
      apply IH; [congruence|assumption].
Qed.

Lemma deserializeEntity_adds_every_good_entry_witness :
  let r :=
    deserializeEntity sample_engine (sample_editor "edit") "e1"
      [("Missing", []); ("Unbuildable", []); ("Light", [("intensity", JNum 2)]);
       ("Script", well_behaved)]
      (fresh_system sample_types) in
  hasComponent "e1" "Light" (fst r) = true /\
  hasComponent "e1" "Script" (fst r) = true /\
  snd r = ["Missing"; "Unbuildable"].
Proof.
  intros r. split; [|split; [|reflexivity]].
  - apply (deserializeEntity_adds_every_good_entry sample_engine (sample_editor "edit") "e1"
             _ (fresh_system sample_types) "Light" [("intensity", JNum 2)] Proxy).
    + simpl. auto.
    + reflexivity.
    + discriminate.
  - apply (deserializeEntity_adds_every_good_entry sample_engine (sample_editor "edit") "e1"
             _ (fresh_system sample_types) "Script" well_behaved ScriptClass).
    + simpl. auto.
    + reflexivity.
    + discriminate.
Defined.

(** X13.  After [registerScriptTemplate(name, code)]:
    [addScriptFromTemplate] throws "not found" when the registered text is
    falsy (the empty string), leaving the system as it was; otherwise, on
    an entity without Script, it returns a Script for that entity named
    after the template, with the template's text as code, enabled, and
    stores it. *)
Theorem addScriptFromTemplate_after_register :
  forall engine ed templates e name code vars cs,
    let templates' := registerScriptTemplate name code templates in
    let r := addScriptFromTemplate engine ed templates' e name vars cs in
    (truthy code = false -> r = (Throw, cs)) /\
    (truthy code = true ->
     Map_get "Script" (componentTypes cs) = Some ScriptClass ->
     hasComponent e "Script" cs = false ->
     exists c s,
       fst r = Normal c /\ body c = BScript s /\
       entity s = e /\ scriptName s = JStr name /\ scriptCode s = code /\
       enabled s = JBool true /\
       getComponent e "Script" (snd r) = Some c).
Proof.
  intros engine ed templates e name code vars cs templates' r. subst r templates'.
  unfold addScriptFromTemplate, registerScriptTemplate. rewrite Map_get_set_same.
  split; [now intros ->|].
  intros Hc Ht Hh. rewrite Hc. unfold addScript, addComponent. rewrite Ht.
  rewrite lookup_after_ensure.
  assert (Hn : match Map_get e (entityComponents cs) with
               | Some comps => Map_get "Script" comps
               | None => None
               end = None).
  { unfold hasComponent, Map_has in Hh.
    destruct (Map_get e (entityComponents cs)) as [comps|]; [|reflexivity].
    destruct (Map_get "Script" comps); [discriminate|reflexivity]. }
  rewrite Hn. unfold construct.
  destruct (Script_new engine ed e _) as [s fx] eqn:Es.
  exists (mkComponent (nextRef cs) (BScript s)), s. simpl.
  assert (F : entity s = e /\ scriptName s = JStr name /\ scriptCode s = code /\
              enabled s = JBool true).
  { assert (Hs : s = fst (Script_new engine ed e
                     [("scriptName", JStr name); ("scriptCode", code);
                      ("variables", or_empty_object (or_empty_object vars))]))
      by now rewrite Es.
    rewrite Hs. unfold Script_new, compileScript, field, js_or. simpl. rewrite Hc.
    assert (Hname : (if negb (name =? "") then JStr name else JStr "") = JStr name).
    { destruct (String.eqb_spec name "") as [->|]; reflexivity. }
    rewrite ?Hname, ?Hc. simpl.
    destruct (createScriptContext ed _); [|auto].
    destruct (engine code); auto. }
  destruct F as (F1 & F2 & F3 & F4).
  repeat split; try assumption.
  unfold getComponent. simpl. now rewrite !Map_get_set_same.
Qed.

Lemma addScriptFromTemplate_after_register_witness :
  let code := JStr "function start() {} function update() {}" in
  let templates := registerScriptTemplate "Spinner" code [] in
  let good :=
    addScriptFromTemplate sample_engine (sample_editor "edit") templates "e1" "Spinner"
      JUndefined (fresh_system sample_types) in
  let empty :=
    addScriptFromTemplate sample_engine (sample_editor "edit")
      (registerScriptTemplate "Blank" (JStr "") templates) "e1" "Blank"
      JUndefined (fresh_system sample_types) in
  empty = (Throw, fresh_system sample_types) /\
  exists c s,
    fst good = Normal c /\ body c = BScript s /\
    scriptName s = JStr "Spinner" /\ scriptCode s = code /\
    getComponent "e1" "Script" (snd good) = Some c.
Proof.
  intros code templates good empty. split.
  - exact (proj1 (addScriptFromTemplate_after_register sample_engine (sample_editor "edit")
                    templates "e1" "Blank" (JStr "") JUndefined (fresh_system sample_types))
             eq_refl).
  - destruct (proj2 (addScriptFromTemplate_after_register sample_engine
                       (sample_editor "edit") [] "e1" "Spinner" code JUndefined
                       (fresh_system sample_types)) eq_refl eq_refl eq_refl)
      as (c & s & H1 & H2 & _ & H4 & H5 & _ & H7).
    exists c, s. repeat split; assumption.
Defined.

(** * The event bus *)

Lemma EventBus_invocations_app fx fx' :
  EventBus.invocations (fx ++ fx') = EventBus.invocations fx ++ EventBus.invocations fx'.
Proof.
  induction fx as [|x fx IH]; simpl; [reflexivity|].
  destruct x; simpl; now rewrite IH.
Qed.

Lemma EventBus_errors_app fx fx' :
  EventBus.errors (fx ++ fx') = (EventBus.errors fx + EventBus.errors fx')%nat.
Proof.
  induction fx as [|x fx IH]; simpl; [reflexivity|].
  destruct x; simpl; now rewrite IH.
Qed.

Lemma EventBus_debug_quiet bus l :
  EventBus.invocations (EventBus.debug bus l) = [] /\
  EventBus.errors (EventBus.debug bus l) = 0%nat.
Proof. unfold EventBus.debug. now destruct (EventBus.debugMode bus). Qed.

Lemma EventBus_calls isOnce t d ls :
  EventBus.invocations (flat_map (EventBus.call isOnce t d) ls) =
    map (EventBus.invocation d) ls /\
  EventBus.errors (flat_map (EventBus.call isOnce t d) ls) =
    List.length (filter EventBus.throwing ls).
Proof.
  induction ls as [|l ls [IH1 IH2]]; simpl; [auto|].
  unfold EventBus.throwing at 1.
  destruct (EventBus.ends (EventBus.callback l)); simpl;
    rewrite IH1, IH2; auto.
Qed.

(** What one [emit] does. *)
Lemma EventBus_emit_effects :
  forall t data bus,
    let fx := snd (EventBus.emit t data bus) in
    let ls := EventBus.listeners_of t (EventBus.events bus) ++
              EventBus.listeners_of t (EventBus.onceEvents bus) in
    EventBus.invocations fx = map (EventBus.invocation (EventBus.or_null data)) ls /\
    EventBus.errors fx = List.length (filter EventBus.throwing ls).
Proof.
  intros t data bus. unfold EventBus.emit, EventBus.listeners_of. simpl.
  destruct (EventBus_debug_quiet bus (EventBus.Emitting t (EventBus.or_null data)))
    as [D1 D2].
  assert (P : forall o,
    EventBus.invocations
      match o with
      | Some ls => flat_map (EventBus.call false t (EventBus.or_null data)) ls
      | None => []
      end = map (EventBus.invocation (EventBus.or_null data))
              match o with Some ls => ls | None => [] end /\
    EventBus.errors
      match o with
      | Some ls => flat_map (EventBus.call false t (EventBus.or_null data)) ls
      | None => []
      end = List.length (filter EventBus.throwing
                           match o with Some ls => ls | None => [] end)).
  { intros [ls|]; [apply EventBus_calls|auto]. }
  destruct (P (Map_get t (EventBus.events bus))) as [P1 P2].
  destruct (Map_get t (EventBus.onceEvents bus)) as [ls1|]; simpl.
  - destruct (EventBus_calls true t (EventBus.or_null data) ls1) as [Q1 Q2].
    rewrite !EventBus_invocations_app, !EventBus_errors_app, D1, D2, P1, P2, Q1, Q2.
    rewrite map_app, filter_app, length_app. auto.
  - rewrite !EventBus_invocations_app, !EventBus_errors_app, D1, D2, P1, P2.
    rewrite !app_nil_r. auto.
Qed.

(** X14.  [emit] calls every listener of the event type exactly once: the
    persistent ones in the order they subscribed, then the one-shot ones in
    the order they subscribed, each with the data (null when none is given)
    and with its context as [this] when that is truthy, with the listener
    record as [this] otherwise.  A listener that throws stops nothing: one
    console error is written per throwing listener. *)
Theorem EventBus_emit_calls_every_listener :
  forall t data bus,
    let fx := snd (EventBus.emit t data bus) in
    let ls := EventBus.listeners_of t (EventBus.events bus) ++
              EventBus.listeners_of t (EventBus.onceEvents bus) in
    EventBus.invocations fx = map (EventBus.invocation (EventBus.or_null data)) ls /\
    EventBus.errors fx = List.length (filter EventBus.throwing ls).
Proof. exact EventBus_emit_effects. Qed.

(** Tidy maps. *)
Lemma EventBus_tidy_set t ls m :
  EventBus.tidy m -> ls <> [] -> EventBus.tidy (Map_set t ls m).
Proof.
  intros [Hk Hn] Hl. split; [now apply NoDup_Map_set|].
  rewrite Forall_forall in *. intros x Hx. apply In_Map_set in Hx.
  destruct Hx as [->|Hx]; auto.
Qed.

Lemma EventBus_tidy_delete t m : EventBus.tidy m -> EventBus.tidy (Map_delete t m).
Proof.
  intros [Hk Hn]. split; [now apply NoDup_Map_delete|].
  rewrite Forall_forall in *. intros x Hx. apply In_Map_delete in Hx. auto.
Qed.

Lemma EventBus_tidy_push t l m : EventBus.tidy m -> EventBus.tidy (EventBus.push t l m).
Proof.
  intros H. apply EventBus_tidy_set; [assumption|]. now destruct (EventBus.listeners_of t m).
Qed.

Lemma EventBus_tidy_unsubscribe t cb m :
  EventBus.tidy m -> EventBus.tidy (fst (EventBus.unsubscribe t cb m)).
Proof.
  intros H. unfold EventBus.unsubscribe.
  destruct (Map_get t m) as [ls|]; [|assumption].
  destruct (EventBus.splice_first cb ls) as [ls' found]. simpl.
  destruct ls' eqn:E.
  - now apply EventBus_tidy_delete.
  - apply EventBus_tidy_set; [assumption|discriminate].
Qed.

Lemma EventBus_reachable_tidy bus :
  EventBus.reachable bus ->
  EventBus.tidy (EventBus.events bus) /\ EventBus.tidy (EventBus.onceEvents bus).
Proof.
  assert (T0 : EventBus.tidy []) by (split; constructor).
  induction 1 as [|t cb ctx bus _ [H1 H2]|t cb ctx bus _ [H1 H2]|t cb bus _ [H1 H2]
                  |t cb bus _ [H1 H2]|t data bus _ [H1 H2]|t bus _ [H1 H2]
                  |b bus _ [H1 H2]]; simpl.
  - auto.
  - split; [now apply EventBus_tidy_push|assumption].
  - split; [assumption|now apply EventBus_tidy_push].
  - unfold EventBus.off.
    pose proof (EventBus_tidy_unsubscribe t cb _ H1) as H.
    destruct (EventBus.unsubscribe t cb (EventBus.events bus)). simpl in *. auto.
  - unfold EventBus.offOnce.
    pose proof (EventBus_tidy_unsubscribe t cb _ H2) as H.
    destruct (EventBus.unsubscribe t cb (EventBus.onceEvents bus)). simpl in *. auto.
  - unfold EventBus.emit.
    destruct (Map_get t (EventBus.onceEvents bus)); simpl; [|auto].
    split; [assumption|now apply EventBus_tidy_delete].
  - unfold EventBus.clear. destruct t as [t|]; [|simpl; auto].
    destruct (negb (t =? "")); simpl; [|auto].
    split; now apply EventBus_tidy_delete.
  - auto.
Qed.

(** X15.  One-shot listeners fire once.  On a bus built by calls of its
    methods, [emit] leaves the persistent listeners in place and removes
    the one-shot listeners of the event type, and of no other type; a
    second [emit] of the type calls the persistent listeners only. *)
Theorem EventBus_once_listeners_fire_once :
  forall t data data' bus,
    EventBus.reachable bus ->
    let bus1 := fst (EventBus.emit t data bus) in
    EventBus.events bus1 = EventBus.events bus /\
    EventBus.listeners_of t (EventBus.onceEvents bus1) = [] /\
    (forall t', t' <> t ->
       EventBus.listeners_of t' (EventBus.onceEvents bus1) =
       EventBus.listeners_of t' (EventBus.onceEvents bus)) /\
    EventBus.invocations (snd (EventBus.emit t data' bus1)) =
      map (EventBus.invocation (EventBus.or_null data'))
        (EventBus.listeners_of t (EventBus.events bus)).
Proof.
  intros t data data' bus Hr bus1.
  destruct (EventBus_reachable_tidy bus Hr) as [_ [Hk _]].
  assert (A : EventBus.events bus1 = EventBus.events bus).
  { unfold bus1, EventBus.emit.
    now destruct (Map_get t (EventBus.onceEvents bus)). }
  assert (B : EventBus.listeners_of t (EventBus.onceEvents bus1) = []).
  { unfold bus1, EventBus.emit, EventBus.listeners_of.
    destruct (Map_get t (EventBus.onceEvents bus)) eqn:E; simpl.
    - now rewrite Map_get_delete_same.
    - now rewrite E. }
  split; [exact A|]. split; [exact B|]. split.
  - intros t' N. unfold bus1, EventBus.emit, EventBus.listeners_of.
    destruct (Map_get t (EventBus.onceEvents bus)); simpl; [|reflexivity].
    rewrite Map_get_delete_other; [reflexivity|congruence].
  - destruct (EventBus_emit_effects t data' bus1) as [H _].
    rewrite H, A, B. now rewrite app_nil_r.
Qed.

Lemma EventBus_once_listeners_fire_once_witness :
  let a := EventBus.mkCallback 1 Returns in
  let b := EventBus.mkCallback 2 Throws in
  let bus :=
    fst (EventBus.once "tick" b JUndefined
           (fst (EventBus.on "tick" a (JStr "ui") EventBus.empty))) in
  let first := EventBus.emit "tick" (JNum 7) bus in
  let second := EventBus.emit "tick" JUndefined (fst first) in
  EventBus.invocations (snd first) =
    [(1%nat, EventBus.TheContext (JStr "ui"), JNum 7);
     (2%nat, EventBus.TheListener (EventBus.mkListener b JNull), JNum 7)] /\
  EventBus.errors (snd first) = 1%nat /\
  EventBus.invocations (snd second) = [(1%nat, EventBus.TheContext (JStr "ui"), JNull)].
Proof.
  intros a b bus first second.
  assert (R : EventBus.reachable bus).
  { unfold bus. apply EventBus.reach_once, EventBus.reach_on, EventBus.reach_empty. }
  destruct (EventBus_once_listeners_fire_once "tick" (JNum 7) JUndefined bus R)
    as (_ & _ & _ & H).
  split; [reflexivity|]. split; [reflexivity|]. exact H.
Defined.

Lemma EventBus_splice_absent cb ls l :
  filter (fun x => Nat.eqb (EventBus.fn (EventBus.callback x)) (EventBus.fn cb)) ls = [] ->
  EventBus.callback l = cb ->
  EventBus.splice_first cb (ls ++ [l]) = (ls, true).
Proof.
  intros H Hl. induction ls as [|x ls IH]; simpl in *.
  - now rewrite Hl, Nat.eqb_refl.
  - destruct (Nat.eqb _ _); [discriminate|]. now rewrite IH.
Qed.

(** X16.  Subscribing and unsubscribing is a round trip: on a bus built by
    calls of its methods, [off] (the function that [on] returns) after [on]
    gives the bus back as it was, when the callback was not already
    subscribed to the event type. *)
Theorem EventBus_off_undoes_on :
  forall t cb ctx bus,
    EventBus.reachable bus ->
    EventBus.subscriptions t cb (EventBus.events bus) = 0%nat ->
    fst (EventBus.off t cb (fst (EventBus.on t cb ctx bus))) = bus.
Proof.
  intros t cb ctx bus Hr Hs.
  destruct (EventBus_reachable_tidy bus Hr) as [[_ Hne] _].
  unfold EventBus.subscriptions in Hs. apply length_zero_iff_nil in Hs.
  unfold EventBus.off, EventBus.on, EventBus.unsubscribe, EventBus.push. simpl.
  rewrite Map_get_set_same.
  rewrite (EventBus_splice_absent cb _ (EventBus.mkListener cb (EventBus.or_null ctx))
             Hs eq_refl).
  unfold EventBus.listeners_of in *.
  destruct (Map_get t (EventBus.events bus)) as [ls|] eqn:E.
  - destruct ls as [|x ls].
    + apply Map_get_In in E. rewrite Forall_forall in Hne.
      apply Hne in E. now contradiction E.
    + simpl. rewrite Map_set_twice, (Map_set_get_same _ _ _ E). now destruct bus.
  - simpl. rewrite (Map_delete_set_absent _ _ _ E). now destruct bus.
Qed.

Lemma EventBus_off_undoes_on_witness :
  let a := EventBus.mkCallback 1 Returns in
  let b := EventBus.mkCallback 2 Returns in
  let bus := fst (EventBus.on "tick" a JUndefined EventBus.empty) in
  fst (EventBus.off "tick" b (fst (EventBus.on "tick" b (JStr "ui") bus))) = bus /\
  fst (EventBus.off "tock" b (fst (EventBus.on "tock" b JUndefined bus))) = bus.
Proof.
  intros a b bus.
  assert (R : EventBus.reachable bus).
  { unfold bus. apply EventBus.reach_on, EventBus.reach_empty. }
  split; apply EventBus_off_undoes_on; try exact R; reflexivity.
Defined.

Lemma EventBus_splice_counts cb cb' ls :
  List.length
    (filter (fun x => Nat.eqb (EventBus.fn (EventBus.callback x)) (EventBus.fn cb'))
       (fst (EventBus.splice_first cb ls))) =
  if Nat.eqb (EventBus.fn cb) (EventBus.fn cb')
  then pred (List.length
               (filter (fun x => Nat.eqb (EventBus.fn (EventBus.callback x)) (EventBus.fn cb'))
                  ls))
  else List.length
         (filter (fun x => Nat.eqb (EventBus.fn (EventBus.callback x)) (EventBus.fn cb')) ls).
Proof.
  induction ls as [|x ls IH]; simpl.
  - now destruct (Nat.eqb _ _).
  - destruct (Nat.eqb (EventBus.fn (EventBus.callback x)) (EventBus.fn cb)) eqn:E.
    + apply Nat.eqb_eq in E. rewrite E. simpl.
      destruct (Nat.eqb (EventBus.fn cb) (EventBus.fn cb')); reflexivity.
    + destruct (EventBus.splice_first cb ls) as [ls' found]. simpl in *.
      destruct (Nat.eqb (EventBus.fn (EventBus.callback x)) (EventBus.fn cb')) eqn:E'.
      * simpl. rewrite IH.
        destruct (Nat.eqb (EventBus.fn cb) (EventBus.fn cb')) eqn:E''; [|reflexivity].
        apply Nat.eqb_eq in E', E''. apply Nat.eqb_neq in E. congruence.
      * exact IH.
Qed.

Lemma EventBus_unsubscribe_listeners t cb m t' :
  NoDup (map fst m) ->
  EventBus.listeners_of t' (fst (EventBus.unsubscribe t cb m)) =
  if t =? t' then fst (EventBus.splice_first cb (EventBus.listeners_of t m))
  else EventBus.listeners_of t' m.
Proof.
  intros Hk. unfold EventBus.unsubscribe, EventBus.listeners_of.
  destruct (Map_get t m) as [ls|] eqn:E.
  - destruct (EventBus.splice_first cb ls) as [ls' found]. simpl.
    destruct (String.eqb_spec t t') as [<-|N].
    + destruct ls'; [now rewrite Map_get_delete_same|now rewrite Map_get_set_same].
    + destruct ls'; [now rewrite Map_get_delete_other|now rewrite Map_get_set_other].
  - simpl. destruct (String.eqb_spec t t') as [<-|N]; [now rewrite E|reflexivity].
Qed.

(** X17.  [off] removes one subscription, the first one of the callback:
    on a bus built by calls of its methods, the number of subscriptions of
    the callback to the event type drops by one (a callback subscribed
    twice stays subscribed once), the subscriptions of other callbacks and
    the listeners of other event types stay as they are, and so do the
    one-shot listeners. *)
Theorem EventBus_off_removes_one_subscription :
  forall t cb bus,
    EventBus.reachable bus ->
    let bus1 := fst (EventBus.off t cb bus) in
    EventBus.subscriptions t cb (EventBus.events bus1) =
      pred (EventBus.subscriptions t cb (EventBus.events bus)) /\
    (forall cb', EventBus.fn cb' <> EventBus.fn cb ->
       EventBus.subscriptions t cb' (EventBus.events bus1) =
       EventBus.subscriptions t cb' (EventBus.events bus)) /\
    (forall t', t' <> t ->
       EventBus.listeners_of t' (EventBus.events bus1) =
       EventBus.listeners_of t' (EventBus.events bus)) /\
    EventBus.onceEvents bus1 = EventBus.onceEvents bus.
Proof.
  intros t cb bus Hr bus1.
  destruct (EventBus_reachable_tidy bus Hr) as [[Hk _] _].
  assert (E : EventBus.events bus1 =
              fst (EventBus.unsubscribe t cb (EventBus.events bus))).
  { unfold bus1, EventBus.off.
    now destruct (EventBus.unsubscribe t cb (EventBus.events bus)). }
  assert (O : EventBus.onceEvents bus1 = EventBus.onceEvents bus).
  { unfold bus1, EventBus.off.
    now destruct (EventBus.unsubscribe t cb (EventBus.events bus)). }
  rewrite E. unfold EventBus.subscriptions.
  split; [|split; [|split]].
  - rewrite EventBus_unsubscribe_listeners, String.eqb_refl by assumption.
    rewrite EventBus_splice_counts. now rewrite Nat.eqb_refl.
  - intros cb' N.
    rewrite EventBus_unsubscribe_listeners, String.eqb_refl by assumption.
    rewrite EventBus_splice_counts.
    destruct (Nat.eqb_spec (EventBus.fn cb) (EventBus.fn cb')); [congruence|reflexivity].
  - intros t' N. rewrite EventBus_unsubscribe_listeners by assumption.
    destruct (String.eqb_spec t t'); [congruence|reflexivity].
  - exact O.
Qed.

Lemma EventBus_off_removes_one_subscription_witness :
  let a := EventBus.mkCallback 1 Returns in
  let bus :=
    fst (EventBus.on "tick" a (JStr "second")
           (fst (EventBus.on "tick" a (JStr "first") EventBus.empty))) in
  let bus1 := fst (EventBus.off "tick" a bus) in
  EventBus.subscriptions "tick" a (EventBus.events bus) = 2%nat /\
  EventBus.subscriptions "tick" a (EventBus.events bus1) = 1%nat /\
  EventBus.invocations (snd (EventBus.emit "tick" JUndefined bus1)) =
    [(1%nat, EventBus.TheContext (JStr "second"), JNull)].
Proof.
  intros a bus bus1.
  assert (R : EventBus.reachable bus).
  { unfold bus. repeat apply EventBus.reach_on. apply EventBus.reach_empty. }
  destruct (EventBus_off_removes_one_subscription "tick" a bus R) as (H & _).
  split; [reflexivity|]. split; [exact H|reflexivity].
Defined.

Lemma EventBus_uniq_In x l : In x (EventBus.uniq l) <-> In x l.
Proof.
  induction l as [|y l IH]; simpl; [tauto|].
  rewrite filter_In, IH, negb_true_iff, String.eqb_neq.
  destruct (string_dec y x); [tauto|]. intuition congruence.
Qed.

Lemma EventBus_uniq_NoDup l : NoDup (EventBus.uniq l).
Proof.
  induction l as [|y l IH]; simpl; constructor.
  - rewrite filter_In, negb_true_iff, String.eqb_neq. tauto.
  - now apply NoDup_filter.
Qed.

Lemma Map_get_keys {A} k (m : list (string * A)) :
  In k (map fst m) <-> exists v, Map_get k m = Some v.
Proof.
  split.
  - intros H. destruct (Map_get k m) eqn:E; [eauto|].
    apply Map_get_None in E. contradiction.
  - intros [v H]. apply Map_get_In in H. now apply (in_map fst) in H.
Qed.

Lemma EventBus_tidy_count t m :
  EventBus.tidy m ->
  (In t (map fst m) <->
   (0 < match Map_get t m with Some ls => List.length ls | None => 0 end)%nat).
Proof.
  intros [_ Hne]. rewrite Map_get_keys. destruct (Map_get t m) as [ls|] eqn:E.
  - split; [|eauto]. intros _. apply Map_get_In in E.
    rewrite Forall_forall in Hne. apply Hne in E. simpl in E.
    destruct ls; [congruence|simpl; lia].
  - split; [intros [v H]; discriminate|lia].
Qed.

(** X18.  On a bus built by calls of its methods, [getEventTypes] lists
    each event type once, and lists exactly the event types that have a
    subscriber: those whose [listenerCount] is positive. *)
Theorem EventBus_getEventTypes_are_the_subscribed_types :
  forall bus,
    EventBus.reachable bus ->
    NoDup (EventBus.getEventTypes bus) /\
    forall t, In t (EventBus.getEventTypes bus) <-> (0 < EventBus.listenerCount t bus)%nat.
Proof.
  intros bus Hr. destruct (EventBus_reachable_tidy bus Hr) as [H1 H2].
  split; [apply EventBus_uniq_NoDup|].
  intros t. unfold EventBus.getEventTypes, EventBus.listenerCount.
  rewrite EventBus_uniq_In, in_app_iff.
  rewrite (EventBus_tidy_count t _ H1), (EventBus_tidy_count t _ H2). lia.
Qed.

Lemma EventBus_getEventTypes_are_the_subscribed_types_witness :
  let a := EventBus.mkCallback 1 Returns in
  let bus :=
    fst (EventBus.off "tock" a
           (fst (EventBus.once "tick" a JUndefined
                   (fst (EventBus.on "tock" a JUndefined
                           (fst (EventBus.on "tick" a JUndefined EventBus.empty))))))) in
  EventBus.getEventTypes bus = ["tick"] /\
  NoDup (EventBus.getEventTypes bus) /\
  (In "tick" (EventBus.getEventTypes bus) <-> (0 < EventBus.listenerCount "tick" bus)%nat) /\
  (In "tock" (EventBus.getEventTypes bus) <-> (0 < EventBus.listenerCount "tock" bus)%nat).
Proof.
  intros a bus.
  assert (R : EventBus.reachable bus).
  { unfold bus. apply EventBus.reach_off, EventBus.reach_once.
    repeat apply EventBus.reach_on. apply EventBus.reach_empty. }
  destruct (EventBus_getEventTypes_are_the_subscribed_types bus R) as [H1 H2].
  split; [reflexivity|]. split; [exact H1|]. split; apply H2.
Defined.

(** X19.  The [clear] of a namespaced emitter.  Called with an event type,
    it removes the listeners of that type in the namespace and of no other
    type.  Called without one (or with the empty string), it removes every
    listener of the bus, those outside the namespace included. *)
Theorem EventBus_namespaced_clear :
  forall ns arg bus,
    EventBus.reachable bus ->
    let bus1 := fst (EventBus.ns_clear ns arg bus) in
    match arg with
    | Some t =>
        if t =? "" then forall t', EventBus.listenerCount t' bus1 = 0%nat
        else EventBus.listenerCount (EventBus.qualified ns t) bus1 = 0%nat /\
             forall t', t' <> EventBus.qualified ns t ->
               EventBus.listenerCount t' bus1 = EventBus.listenerCount t' bus
    | None => forall t', EventBus.listenerCount t' bus1 = 0%nat
    end.
Proof.
  intros ns arg bus Hr bus1. subst bus1.
  destruct (EventBus_reachable_tidy bus Hr) as [[K1 _] [K2 _]].
  unfold EventBus.ns_clear. destruct arg as [t|]; [|reflexivity].
  destruct (t =? "") eqn:E; simpl; [reflexivity|].
  unfold EventBus.clear.
  assert (Q : (EventBus.qualified ns t =? "") = false).
  { unfold EventBus.qualified. apply String.eqb_neq.
    destruct ns; simpl; discriminate. }
  rewrite Q. simpl. unfold EventBus.listenerCount. simpl. split.
  - now rewrite !Map_get_delete_same.
  - intros t' N. rewrite !Map_get_delete_other; congruence.
Qed.

Lemma EventBus_namespaced_clear_witness :
  let a := EventBus.mkCallback 1 Returns in
  let bus :=
    fst (EventBus.ns_on "ui" "tick" a JUndefined
           (fst (EventBus.on "scene:loaded" a JUndefined EventBus.empty))) in
  EventBus.listenerCount "scene:loaded" bus = 1%nat /\
  EventBus.listenerCount "scene:loaded" (fst (EventBus.ns_clear "ui" None bus)) = 0%nat /\
  EventBus.listenerCount "ui:tick" (fst (EventBus.ns_clear "ui" (Some "tick") bus)) = 0%nat /\
  EventBus.listenerCount "scene:loaded" (fst (EventBus.ns_clear "ui" (Some "tick") bus)) = 1%nat.
Proof.
  intros a bus.
  assert (R : EventBus.reachable bus).
  { unfold bus, EventBus.ns_on. repeat apply EventBus.reach_on. apply EventBus.reach_empty. }
  split; [reflexivity|]. split.
  - exact (EventBus_namespaced_clear "ui" None bus R "scene:loaded").
  - destruct (EventBus_namespaced_clear "ui" (Some "tick") bus R) as [H1 H2].
    split; [exact H1|]. rewrite H2; [reflexivity|discriminate].
Defined.

(** * The update loop *)

Lemma run_frames_idle frames l cs :
  pending l = false -> run_frames frames l cs = (l, cs, []).
Proof.
  intros H. induction frames as [|[now ed] rest IH]; simpl; [reflexivity|].
  unfold frame. rewrite H. simpl. now rewrite IH.
Qed.

Lemma frame_live ed now l cs :
  isUpdating l = true -> pending l = true ->
  let r := frame ed now l cs in
  let dt := fl (fl (now - lastTime l) / 1000) in
  snd r = [dt] /\
  lastTime (fst (fst r)) = now /\
  isUpdating (fst (fst r)) = true /\
  (pending (fst (fst r)) = true <-> fst (updateComponents ed now dt cs) = Normal tt).
Proof.
  intros Hu Hp. unfold frame. rewrite Hu, Hp. simpl.
  destruct (updateComponents ed now (fl (fl (now - lastTime l) / 1000)) cs)
    as [[[]|] cs']; simpl; repeat split; auto; discriminate.
Qed.

(** The [deltaTime] of one frame, next to the time since the frame before. *)
Lemma deltaTime_near (last now : Q) :
  last <= now ->
  let dt := fl (fl (now - last) / 1000) in
  0 <= dt /\
  Qabs (dt - (now - last) / 1000)
    <= 3 * unit_roundoff * ((now - last) / 1000) + 2 * underflow.
Proof.
  intros H dt.
  destruct (fl_near (now - last)) as [Nz _]. specialize (Nz ltac:(lra)).
  pose proof (fl_nonneg (now - last) ltac:(lra)) as Pz.
  set (z := fl (now - last)) in *.
  assert (Pw : 0 <= z / 1000).
  { unfold Qdiv. apply Qmult_le_0_compat; [assumption|discriminate]. }
  destruct (fl_near (z / 1000)) as [Nd _]. specialize (Nd Pw).
  pose proof (fl_nonneg (z / 1000) Pw) as Pd. fold dt in Nd, Pd.
  split; [assumption|].
  pose proof underflow_pos as Pu.
  apply Qabs_Qle_condition. rewrite unit_roundoff_value.
  unfold Qdiv in *. change (/ 1000) with (1 # 1000) in *. lra.
Qed.

Lemma inject_Z_succ (n : nat) : inject_Z (Z.of_nat (S n)) == inject_Z (Z.of_nat n) + 1.
Proof. rewrite Nat2Z.inj_succ. unfold Z.succ. rewrite inject_Z_plus. reflexivity. Qed.

(** X20.  While the loop is alive it makes one tick per frame.  When the
    clock does not go back, no [deltaTime] it passes to [updateComponents]
    is negative, and the [deltaTime]s add up to the wall-clock time between
    the first reading and the last frame, in seconds, up to the rounding of
    the arithmetic: the sum differs from it by at most three units of
    roundoff of that time, and two of underflow per frame. *)
Theorem update_loop_deltas_add_up :
  forall frames l cs,
    isUpdating l = true -> pending l = true ->
    let r := run_frames frames l cs in
    pending (fst (fst r)) = true ->
    let elapsed := (lastTime (fst (fst r)) - lastTime l) / 1000 in
    List.length (snd r) = List.length frames /\
    (ascending (lastTime l) frames ->
     Forall (fun d => 0 <= d) (snd r) /\
     Qabs (total (snd r) - elapsed)
       <= 3 * unit_roundoff * elapsed
          + 2 * inject_Z (Z.of_nat (List.length frames)) * underflow).
Proof.
  induction frames as [|[now ed] rest IH]; intros l cs Hu Hp;
    cbn [run_frames fst snd List.length].
  - intros _. split; [reflexivity|]. intros _. split; [constructor|].
    unfold total. cbn [fold_right]. apply Qabs_Qle_condition.
    rewrite unit_roundoff_value.
    unfold Qdiv. change (/ 1000) with (1 # 1000).
    change (inject_Z (Z.of_nat 0)) with 0. lra.
  - destruct (frame_live ed now l cs Hu Hp) as (Hd & Ht & Hu1 & Hp1).
    destruct (frame ed now l cs) as [[l1 cs1] ds] eqn:Ef. simpl in Hd, Ht, Hu1, Hp1.
    destruct (pending l1) eqn:Epend.
    + specialize (IH l1 cs1 Hu1 Epend).
      destruct (run_frames rest l1 cs1) as [[l2 cs2] ds'] eqn:Er.
      cbn [fst snd] in *.
      intros Hp2. destruct (IH Hp2) as (S2 & S3).
      subst ds. split; [cbn [List.length app]; now rewrite S2|].
      intros [Hle Hasc]. rewrite Ht in S3. destruct (S3 Hasc) as [S4 S5].
      destruct (deltaTime_near (lastTime l) now Hle) as [D1 D2].
      split; [now constructor|].
      change (total (([fl (fl (now - lastTime l) / 1000)]) ++ ds'))
        with (fl (fl (now - lastTime l) / 1000) + total ds').
      set (dt := fl (fl (now - lastTime l) / 1000)) in *.
      rewrite inject_Z_succ.
      apply Qabs_Qle_condition in D2, S5. apply Qabs_Qle_condition.
      rewrite unit_roundoff_value in *.
      unfold Qdiv in *. change (/ 1000) with (1 # 1000) in *. lra.
    + rewrite (run_frames_idle rest l1 cs1 Epend). cbn [fst snd]. congruence.
Qed.

Lemma update_loop_deltas_add_up_witness :
  let start := startUpdateLoop (sample_editor "play") 1000 1001 healthy_system in
  let r :=
    run_frames [(1017, sample_editor "play"); (1034, sample_editor "pause");
                (1050, sample_editor "play")]
      (fst (fst start)) (snd (fst start)) in
  List.length (snd r) = 3%nat /\
  Forall (fun d => 0 <= d) (snd r) /\
  Qabs (total (snd r) - (1050 - 1001) / 1000)
    <= 3 * unit_roundoff * ((1050 - 1001) / 1000) + 2 * 3 * underflow.
Proof.
  intros start r.
  destruct (update_loop_deltas_add_up
              [(1017, sample_editor "play"); (1034, sample_editor "pause");
               (1050, sample_editor "play")]
              (fst (fst start)) (snd (fst start)) eq_refl eq_refl eq_refl)
    as (H1 & H2).
  split; [exact H1|].
  apply H2. simpl. repeat split; discriminate.
Defined.

(** X21.  The loop does not survive a tick that throws: the exception
    leaves the callback before it asks for the next frame, so no later
    frame calls [updateComponents] and the component system stays as the
    failed tick left it.  [stopUpdateLoop] ends the loop in the same way, at
    the next frame. *)
Theorem update_loop_ends :
  forall ed now l cs later,
    isUpdating l = true -> pending l = true ->
    (fst (updateComponents ed now (fl (fl (now - lastTime l) / 1000)) cs) = Throw ->
     let r := frame ed now l cs in
     run_frames later (fst (fst r)) (snd (fst r)) = (fst (fst r), snd (fst r), [])) /\
    (let r := run_frames later (stopUpdateLoop l) cs in
     snd (fst r) = cs /\ snd r = [] /\
     (later <> [] -> pending (fst (fst r)) = false)).
Proof.
  intros ed now l cs later Hu Hp. split.
  - intros Ht r. apply run_frames_idle.
    destruct (frame_live ed now l cs Hu Hp) as (_ & _ & _ & H).
    fold r in H. destruct (pending (fst (fst r))); [|reflexivity].
    destruct H as [H _]. rewrite H in Ht; [discriminate|reflexivity].
  - destruct later as [|[now' ed'] rest]; simpl.
    + repeat split. congruence.
    + unfold frame. simpl. rewrite Hp. simpl.
      rewrite run_frames_idle by reflexivity. simpl. repeat split.
Qed.

Lemma update_loop_ends_witness :
  let l := mkLoop true 1000 0 true in
  let r := frame (sample_editor "play") 1016 l faulty_system in
  let later := [(1033, sample_editor "play"); (1050, sample_editor "play")] in
  pending (fst (fst r)) = false /\
  run_frames later (fst (fst r)) (snd (fst r)) = (fst (fst r), snd (fst r), []) /\
  snd (run_frames later (stopUpdateLoop l) healthy_system) = [].
Proof.
  intros l r later.
  destruct (update_loop_ends (sample_editor "play") 1016 l faulty_system later
              eq_refl eq_refl) as [H1 _].
  destruct (update_loop_ends (sample_editor "play") 1016 l healthy_system later
              eq_refl eq_refl) as [_ (_ & H2 & _)].
  split; [reflexivity|]. split; [exact (H1 eq_refl)|exact H2].
Defined.

(** * Disposing of the component system *)

Lemma removeAllComponents_types e cs :
  componentTypes (snd (removeAllComponents e cs)) = componentTypes cs.
Proof.
  unfold removeAllComponents.
  destruct (Map_get e (entityComponents cs)) as [comps|]; [|reflexivity].
  generalize (map fst comps) as names. intros names. revert cs.
  induction names as [|name rest IH]; intros cs; simpl; [reflexivity|].
  assert (H : componentTypes (snd (removeComponent e name cs)) = componentTypes cs).
  { unfold removeComponent.
    destruct (Map_get e (entityComponents cs)) as [cm|]; [|reflexivity].
    destruct (Map_get name cm) as [c|]; [|reflexivity].
    now destruct (Component_destroy c) as [[[u|] c'] fx]. }
  destruct (removeComponent e name cs) as [[b|] cs1]; simpl in *; [|assumption].
  now rewrite IH.
Qed.

(** What [removeAllComponents] leaves when it throws. *)
Lemma removeAllComponents_thrower e cs cs' :
  removeAllComponents e cs = (Throw, cs') ->
  exists name c, getComponent e name cs' = Some c /\ destroy_throws c = true.
Proof.
  unfold removeAllComponents.
  destruct (Map_get e (entityComponents cs)) as [comps|] eqn:He; [|discriminate].
  destruct comps as [|p comps']; [discriminate|].
  destruct (remove_each_spec e (p :: comps') ltac:(discriminate) cs He)
    as (R1 & R2 & _).
  intros H. rewrite H in R1, R2. cbn [fst snd] in R1, R2.
  destruct (survivors_head (p :: comps')) as (name & c & rest & Hs & Hthrow).
  { intros Hnil. rewrite Hnil in R1. discriminate R1. }
  rewrite Hs in R2. exists name, c. split; [|assumption].
  unfold getComponent. rewrite R2, Map_get_set_same. simpl.
  now rewrite String.eqb_refl.
Qed.

Lemma dispose_each_throws ids :
  forall cs cs',
    dispose_each ids cs = (Throw, cs') ->
    componentTypes cs' = componentTypes cs /\
    exists e name c, getComponent e name cs' = Some c /\ destroy_throws c = true.
Proof.
  induction ids as [|e rest IH]; intros cs cs'; simpl; [discriminate|].
  pose proof (removeAllComponents_types e cs) as Ht.
  destruct (removeAllComponents e cs) as [[u|] cs1] eqn:Er; simpl in Ht.
  - intros H. destruct (IH cs1 cs' H) as (A & B). split; [congruence|exact B].
  - invert_result. split; [assumption|].
    destruct (removeAllComponents_thrower e cs cs' Er) as (name & c & H). eauto.
Qed.

Lemma dispose_each_returns todo :
  forall cs,
    NoDup (map fst todo) ->
    (forall e comps, In (e, comps) todo -> Map_get e (entityComponents cs) = Some comps) ->
    destroys_return todo = true ->
    exists cs' fx,
      dispose_each (map fst todo) cs = (Normal tt, cs') /\
      journal cs' = journal cs ++ fx /\
      destroy_calls fx = all_destroys todo.
Proof.
  induction todo as [|[e comps] rest IH]; intros cs Hk Hin Hok; simpl.
  - exists cs, []. now rewrite app_nil_r.
  - inversion Hk as [|? ? Hn Hk']; subst.
    unfold destroys_return in Hok. simpl in Hok.
    apply andb_true_iff in Hok. destruct Hok as [Hc Hrest].
    assert (He : Map_get e (entityComponents cs) = Some comps) by (apply Hin; now left).
    assert (Step : exists cs1 fx1,
              removeAllComponents e cs = (Normal tt, cs1) /\
              journal cs1 = journal cs ++ fx1 /\
              destroy_calls fx1 =
                map (fun nc => (e, fst nc)) (filter (fun nc => has_destroy (snd nc)) comps) /\
              forall e', e' <> e ->
                Map_get e' (entityComponents cs1) = Map_get e' (entityComponents cs)).
    { unfold removeAllComponents. rewrite He.
      destruct comps as [|p comps'].
      - exists cs, []. simpl. now rewrite app_nil_r.
      - destruct (remove_each_spec e (p :: comps') ltac:(discriminate) cs He)
          as (R1 & R2 & fx & Rj & _ & Rd).
        destruct (survivors_none _ Hc) as [Hs Hrm].
        rewrite Hs in R1, R2. rewrite Hs, Hrm in Rd. simpl firstn in Rd.
        rewrite app_nil_r in Rd.
        destruct (remove_each e (map fst (p :: comps')) cs) as [r cs1].
        simpl in R1, R2, Rj. subst r.
        exists cs1, fx. repeat split; try assumption.
        intros e' N. rewrite R2. apply Map_get_delete_other. congruence. }
    destruct Step as (cs1 & fx1 & Hr & Hj & Hd & Hframe).
    rewrite Hr.
    destruct (IH cs1 Hk') as (cs' & fx & Hr' & Hj' & Hd'); [|exact Hrest|].
    + intros e' comps' Hin'. rewrite Hframe.
      * apply Hin. now right.
      * intros ->. apply Hn. now apply (in_map fst) in Hin'.
    + exists cs', (fx1 ++ fx). split; [exact Hr'|]. split.
      * rewrite Hj', Hj. now rewrite app_assoc.
      * rewrite destroy_calls_app, Hd, Hd'. reflexivity.
Qed.

Lemma store_entries_found (store : list (EntityId * list (string * Component))) :
  NoDup (map fst store) ->
  forall e comps, In (e, comps) store -> Map_get e store = Some comps.
Proof.
  induction store as [|[e0 c0] rest IH]; simpl; intros Hk e comps Hin; [destruct Hin|].
  inversion Hk as [|? ? Hn Hk']; subst.
  destruct Hin as [Heq|Hin].
  - inversion Heq; subst. now rewrite String.eqb_refl.
  - destruct (String.eqb_spec e0 e) as [->|N]; [|auto].
    exfalso. apply Hn. now apply (in_map fst) in Hin.
Qed.

(** X22.  [dispose] stops the update loop first.  When no [destroy] in the
    store throws it returns, having called [destroy] once on every
    component that has one, entity by entity in the order of the store,
    and leaves the store, the registry and the updateable set empty.  When
    a [destroy] throws, [dispose] throws and clears nothing: the registry is
    as it was and the component that threw is still held. *)
Theorem dispose_destroys_everything_or_clears_nothing :
  forall engine l cs,
    reachable engine cs ->
    let r := dispose l cs in
    isUpdating (snd (fst r)) = false /\
    (destroys_return (entityComponents cs) = true ->
     fst (fst r) = Normal tt /\
     entityComponents (snd r) = [] /\
     componentTypes (snd r) = [] /\
     updateableComponents (snd r) = [] /\
     destroy_calls (new_entries cs (snd r)) = all_destroys (entityComponents cs)) /\
    (fst (fst r) = Throw ->
     componentTypes (snd r) = componentTypes cs /\
     exists e name c, getComponent e name (snd r) = Some c /\ destroy_throws c = true).
Proof.
  intros engine l cs Hr r. subst r. unfold dispose.
  assert (Hk : NoDup (map fst (entityComponents cs))) by (apply reachable_wf in Hr; apply Hr).
  split; [|split].
  - destruct (dispose_each (map fst (entityComponents cs)) cs) as [[u|] cs']; reflexivity.
  - intros Hok.
    destruct (dispose_each_returns (entityComponents cs) cs Hk
                (store_entries_found _ Hk) Hok) as (cs' & fx & Hd & Hj & Hc).
    unfold EntityId in *. rewrite Hd. simpl. repeat split.
    unfold new_entries. simpl. fold (new_entries cs cs').
    now rewrite (new_entries_appended _ _ _ Hj).
  - destruct (dispose_each (map fst (entityComponents cs)) cs) as [[u|] cs'] eqn:E;
      simpl; [discriminate|].
    intros _. now apply dispose_each_throws with (map fst (entityComponents cs)).
Qed.

Lemma dispose_destroys_everything_or_clears_nothing_witness :
  let l := mkLoop true 1000 3 true in
  let good := dispose l healthy_system in
  let bad := dispose l sticky_system in
  fst (fst good) = Normal tt /\
  entityComponents (snd good) = [] /\
  destroy_calls (new_entries healthy_system (snd good)) =
    [("e1", "Script"); ("e1", "Light"); ("e2", "Script")] /\
  fst (fst bad) = Throw /\
  componentTypes (snd bad) = componentTypes sticky_system /\
  exists e name c, getComponent e name (snd bad) = Some c /\ destroy_throws c = true.
Proof.
  intros l good bad.
  assert (R1 : reachable sample_engine healthy_system).
  { unfold healthy_system, add. repeat apply reach_add. apply reach_fresh. }
  assert (R2 : reachable sample_engine sticky_system).
  { unfold sticky_system, add. repeat apply reach_add. apply reach_register, reach_fresh. }
  destruct (dispose_destroys_everything_or_clears_nothing sample_engine l _ R1)
    as (_ & G & _).
  destruct (dispose_destroys_everything_or_clears_nothing sample_engine l _ R2)
    as (_ & _ & B).
  destruct (G eq_refl) as (G1 & G2 & _ & _ & G5).
  destruct (B eq_refl) as (B1 & B2).
  split; [exact G1|]. split; [exact G2|]. split; [exact G5|].
  split; [reflexivity|]. split; [exact B1|exact B2].
Defined.

(** * Recompiling a script *)

(** X23.  [setScript] with a text that parses replaces the compiled
    instance whole: the Script it leaves does not depend on the instance
    there was, no hook is called, neither [onDestroy] of the old instance
    nor [start] of the new one, and the new context has the time a fresh
    context starts with. *)
Theorem setScript_replaces_instance :
  forall engine editor name code s old,
    engine code <> ParseFails ->
    let r := setScript engine (Some editor) name code (with_instance old s) in
    fst r = fst (setScript engine (Some editor) name code s) /\
    (forall h, hook_calls h (snd r) = []) /\
    exists inst,
      scriptInstance (fst r) = Some inst /\
      ctx_time (context inst) = mkTime (16 # 1000) 0 /\
      ctx_gameObject (context inst) = Map_get (entity s) (objects editor).
Proof.
  intros engine editor name code s old Hp r. subst r.
  unfold setScript, compileScript. simpl.
  destruct (engine code) as [|on_this|on_this on_context]; [congruence| |].
  - split; [reflexivity|]. split; [intros []; reflexivity|].
    eexists. repeat split.
  - split; [reflexivity|]. split; [intros []; reflexivity|].
    eexists. repeat split.
Qed.

Lemma setScript_replaces_instance_witness :
  let good := fst (Script_new sample_engine (sample_editor "edit") "e1" well_behaved) in
  let r :=
    setScript sample_engine (sample_editor "edit") (JStr "quiet") (JStr "var x = 1;") good in
  hook_calls HOnDestroy (snd r) = [] /\
  exists inst,
    scriptInstance (fst r) = Some inst /\
    update inst = None /\
    ctx_time (context inst) = mkTime (16 # 1000) 0.
Proof.
  intros good r.
  destruct (setScript_replaces_instance sample_engine (sample_scene "edit")
              (JStr "quiet") (JStr "var x = 1;") good (scriptInstance good))
    as (_ & H2 & inst & H3 & H4 & _).
  - discriminate.
  - split; [apply H2|]. exists inst. split; [exact H3|]. split; [|exact H4].
    change (scriptInstance (fst r) = Some inst) in H3.
    vm_compute in H3. inversion H3. reflexivity.
Defined.

(** * What a tick does to scripts *)

Lemma Component_update_hooks ed cs now dt c :
  let fx := snd (Component_update ed cs now dt c) in
  hook_calls HStart fx = [] /\
  hook_calls HOnDestroy fx = [] /\
  (forall editor, ed = Some editor -> editorMode editor <> "play" ->
                  hook_calls HUpdate fx = []).
Proof.
  unfold Component_update, Script_update. destruct (body c) as [s|o].
  - destruct (negb (truthy (enabled s))); [simpl; auto|].
    destruct (scriptInstance s) as [inst|]; [|simpl; auto].
    destruct ed as [editor|]; [|simpl; auto].
    destruct (String.eqb_spec (editorMode editor) "play") as [E|E]; simpl.
    + destruct (Map_get (entity s) (objects editor)); simpl.
      * destruct (update inst) as [[|]|]; simpl; repeat split;
          intros ed' [= <-] N; congruence.
      * repeat split.
    + repeat split.
  - destruct (f_update o) as [[|]|]; simpl; auto.
Qed.

Lemma Component_update_ref ed cs now dt c :
  ref (snd (fst (Component_update ed cs now dt c))) = ref c.
Proof.
  unfold Component_update. destruct (body c) as [s|o].
  - now destruct (Script_update ed cs now dt s) as [[r s'] fx].
  - now destruct (f_update o) as [[|]|].
Qed.

Lemma forEach_component_hooks sel ed cs now dt e comps :
  let r := forEach_component sel ed cs now dt e comps in
  map fst (snd (fst r)) = map fst comps /\
  hook_calls HStart (snd r) = [] /\
  hook_calls HOnDestroy (snd r) = [] /\
  (forall editor, ed = Some editor -> editorMode editor <> "play" ->
                  hook_calls HUpdate (snd r) = []).
Proof.
  induction comps as [|[name c] rest (I1 & I2 & I3 & I4)]; simpl; [auto|].
  destruct (sel name && has_update c).
  - destruct (Component_update_hooks ed cs now dt c) as (C1 & C2 & C3).
    destruct (Component_update ed cs now dt c) as [[r c'] fx]. simpl in C1, C2, C3.
    destruct r.
    + destruct (forEach_component sel ed cs now dt e rest) as [[r' rest'] fx'].
      simpl in *. rewrite !hook_calls_app, C1, C2, I1, I2, I3.
      repeat split. intros editor He Hm. now rewrite (C3 editor He Hm), (I4 editor He Hm).
    + simpl. rewrite C1, C2. repeat split. intros editor He Hm. now apply C3 with editor.
  - destruct (forEach_component sel ed cs now dt e rest) as [[r' rest'] fx'].
    simpl in *. rewrite I1. auto.
Qed.

Lemma forEach_entity_hooks sel ed cs now dt store :
  let r := forEach_entity sel ed cs now dt store in
  map fst (snd (fst r)) = map fst store /\
  (forall e, map fst (components_of e (snd (fst r))) = map fst (components_of e store)) /\
  hook_calls HStart (snd r) = [] /\
  hook_calls HOnDestroy (snd r) = [] /\
  (forall editor, ed = Some editor -> editorMode editor <> "play" ->
                  hook_calls HUpdate (snd r) = []).
Proof.
  induction store as [|[e comps] rest (I1 & I2 & I3 & I4 & I5)]; simpl; [auto|].
  destruct (forEach_component_hooks sel ed cs now dt e comps) as (C1 & C2 & C3 & C4).
  destruct (forEach_component sel ed cs now dt e comps) as [[r comps'] fx].
  simpl in C1, C2, C3, C4. destruct r.
  - destruct (forEach_entity sel ed cs now dt rest) as [[r' rest'] fx'].
    simpl in *. rewrite !hook_calls_app, C2, C3, I1, I3, I4. repeat split.
    + intros e0. unfold components_of in *. simpl.
      destruct (e =? e0); [assumption|apply I2].
    + intros editor He Hm. now rewrite (C4 editor He Hm), (I5 editor He Hm).
  - simpl. repeat split; try assumption.
    intros e0. unfold components_of. simpl. now destruct (e =? e0).
Qed.

(** X24.  What a tick never does.  [updateComponents] adds and removes no
    entity and no component, and leaves the registry and the clock alone;
    it calls no [start] and no [onDestroy] hook; and outside play mode it
    calls no [update] hook either, whatever name the Script components are
    stored under, since [Script.update] checks the mode itself. *)
Theorem tick_leaves_store_shape_and_calls_no_hook_outside_play :
  forall ed now dt cs,
    let r := updateComponents ed now dt cs in
    map fst (entityComponents (snd r)) = map fst (entityComponents cs) /\
    (forall e, map fst (components_of e (entityComponents (snd r))) =
               map fst (components_of e (entityComponents cs))) /\
    componentTypes (snd r) = componentTypes cs /\
    (scriptStartTime (snd r), scriptPauseTime (snd r), totalPausedTime (snd r)) =
      (scriptStartTime cs, scriptPauseTime cs, totalPausedTime cs) /\
    hook_calls HStart (new_entries cs (snd r)) = [] /\
    hook_calls HOnDestroy (new_entries cs (snd r)) = [] /\
    (forall editor, ed = Some editor -> editorMode editor <> "play" ->
       hook_calls HUpdate (new_entries cs (snd r)) = []).
Proof.
  intros ed now dt cs.
  assert (P : forall sel,
    let r := update_pass sel ed now dt cs in
    map fst (entityComponents (snd r)) = map fst (entityComponents cs) /\
    (forall e, map fst (components_of e (entityComponents (snd r))) =
               map fst (components_of e (entityComponents cs))) /\
    componentTypes (snd r) = componentTypes cs /\
    (scriptStartTime (snd r), scriptPauseTime (snd r), totalPausedTime (snd r)) =
      (scriptStartTime cs, scriptPauseTime cs, totalPausedTime cs) /\
    hook_calls HStart (new_entries cs (snd r)) = [] /\
    hook_calls HOnDestroy (new_entries cs (snd r)) = [] /\
    (forall editor, ed = Some editor -> editorMode editor <> "play" ->
       hook_calls HUpdate (new_entries cs (snd r)) = [])).
  { intros sel. unfold update_pass.
    destruct (forEach_entity_hooks sel ed cs now dt (entityComponents cs))
      as (H1 & H2 & H3 & H4 & H5).
    destruct (forEach_entity sel ed cs now dt (entityComponents cs)) as [[r store] fx].
    simpl in *.
    rewrite (new_entries_appended cs (record fx (with_store store cs)) fx eq_refl).
    repeat split; assumption. }
  unfold updateComponents. destruct ed as [editor|].
  - destruct (editorMode editor =? "play"); [apply P|].
    destruct (editorMode editor =? "pause"); apply P.
  - simpl. unfold new_entries. rewrite skipn_all. repeat split.
Qed.

Lemma tick_leaves_store_shape_and_calls_no_hook_outside_play_witness :
  let r := updateComponents (sample_editor "pause") 5000 (16 # 1000) noisy_system in
  map fst (entityComponents (snd r)) = ["e1"; "e2"] /\
  hook_calls HUpdate (new_entries noisy_system (snd r)) = [] /\
  hook_calls HUpdate
    (new_entries noisy_system
       (snd (updateComponents (sample_editor "play") 5000 (16 # 1000) noisy_system))) =
    ["e1"; "e2"].
Proof.
  intros r.
  destruct (tick_leaves_store_shape_and_calls_no_hook_outside_play
              (sample_editor "pause") 5000 (16 # 1000) noisy_system)
    as (H1 & _ & _ & _ & _ & _ & H7).
  split; [exact H1|]. split; [|reflexivity].
  apply (H7 (sample_scene "pause")); [reflexivity|discriminate].
Defined.

Lemma forEach_component_get sel ed cs now dt e comps u comps' fx name :
  forEach_component sel ed cs now dt e comps = (Normal u, comps', fx) ->
  Map_get name comps' =
  match Map_get name comps with
  | Some c => Some (if sel name && has_update c then ticked ed cs now dt c else c)
  | None => None
  end.
Proof.
  revert comps' fx. induction comps as [|[k c] rest IH]; intros comps' fx; simpl.
  - now invert_result.
  - unfold ticked.
    destruct (sel k && has_update c) eqn:Es.
    + destruct (Component_update ed cs now dt c) as [[r c1] fx1] eqn:Ec.
      destruct r; [|discriminate].
      destruct (forEach_component sel ed cs now dt e rest) as [[r' rest'] fx'] eqn:Er.
      invert_result. simpl.
      destruct (String.eqb_spec k name) as [<-|N].
      * now rewrite Es, Ec.
      * eapply IH; reflexivity.
    + destruct (forEach_component sel ed cs now dt e rest) as [[r' rest'] fx'] eqn:Er.
      invert_result. simpl.
      destruct (String.eqb_spec k name) as [<-|N].
      * now rewrite Es.
      * eapply IH; reflexivity.
Qed.

Lemma forEach_entity_lookup sel ed cs now dt store u store' fx e name :
  forEach_entity sel ed cs now dt store = (Normal u, store', fx) ->
  lookup store' e name =
  match lookup store e name with
  | Some c => Some (if sel name && has_update c then ticked ed cs now dt c else c)
  | None => None
  end.
Proof.
  revert store' fx. induction store as [|[e0 comps] rest IH]; intros store' fx; simpl.
  - now invert_result.
  - destruct (forEach_component sel ed cs now dt e0 comps) as [[r comps1] fx1] eqn:Ec.
    destruct r; [|discriminate].
    destruct (forEach_entity sel ed cs now dt rest) as [[r' rest'] fx'] eqn:Er.
    invert_result. unfold lookup in *. simpl.
    destruct (e0 =? e).
    + eapply forEach_component_get; eauto.
    + eapply IH; reflexivity.
Qed.

(** X25.  A tick in play mode that runs to its end brings the time of
    every enabled, compiled Script up to date, whether or not its scene
    object exists: afterwards the context holds the [deltaTime] of the tick
    and the elapsed time of the clock, in the same component object with
    the same hooks. *)
Theorem tick_in_play_mode_sets_script_time :
  forall editor now dt cs e name c s inst,
    editorMode editor = "play" ->
    fst (updateComponents (Some editor) now dt cs) = Normal tt ->
    getComponent e name cs = Some c ->
    body c = BScript s ->
    truthy (enabled s) = true ->
    scriptInstance s = Some inst ->
    exists c' s' inst',
      getComponent e name (snd (updateComponents (Some editor) now dt cs)) = Some c' /\
      ref c' = ref c /\ body c' = BScript s' /\
      scriptInstance s' = Some inst' /\
      ctx_time (context inst') = mkTime dt (getTime cs now) /\
      (start inst', update inst', onDestroy inst') =
        (start inst, update inst, onDestroy inst).
Proof.
  intros editor now dt cs e name c s inst Hm Hr Hg Hb He Hi.
  revert Hr. unfold updateComponents. rewrite Hm. simpl. unfold update_pass.
  destruct (forEach_entity all_names (Some editor) cs now dt (entityComponents cs))
    as [[r store] fx] eqn:E.
  simpl. intros ->.
  pose proof (forEach_entity_lookup _ _ _ _ _ _ _ _ _ e name E) as L.
  change (lookup (entityComponents cs) e name = Some c) in Hg.
  rewrite Hg in L. unfold all_names, has_update in L. rewrite Hb in L. simpl in L.
  unfold ticked, Component_update, Script_update in L.
  rewrite Hb, He, Hi, Hm in L. simpl in L.
  change (getComponent e name (record fx (with_store store cs)))
    with (lookup store e name).
  rewrite L.
  destruct (Map_get (entity s) (objects editor)) as [g|].
  - destruct (update inst) as [[|]|] eqn:Eu; simpl; do 3 eexists; repeat split;
      simpl; now rewrite Eu.
  - simpl. do 3 eexists. repeat split.
Qed.

Lemma tick_in_play_mode_sets_script_time_witness :
  let cs := startScriptExecution 1000 healthy_system in
  let r := updateComponents (sample_editor "play") 1500 (16 # 1000) cs in
  exists c' s' inst',
    getComponent "e2" "Script" (snd r) = Some c' /\
    body c' = BScript s' /\ scriptInstance s' = Some inst' /\
    ctx_time (context inst') = mkTime (16 # 1000) (getTime cs 1500) /\
    getTime cs 1500 == 1 # 2.
Proof.
  intros cs r.
  edestruct (tick_in_play_mode_sets_script_time (sample_scene "play") 1500 (16 # 1000)
               cs "e2" "Script")
    as (c' & s' & inst' & H1 & _ & H3 & H4 & H5 & _).
  - reflexivity.
  - reflexivity.
  - vm_compute. reflexivity.
  - reflexivity.
  - reflexivity.
  - reflexivity.
  - exists c', s', inst'. repeat split; assumption.
Defined.

(** * The registry, the order of components, and play *)

Lemma Map_set_absent_values {A} k (v : A) m :
  Map_get k m = None -> map snd (Map_set k v m) = map snd m ++ [v].
Proof.
  induction m as [|[k' v'] m IH]; simpl; [reflexivity|].
  destruct (k' =? k); [discriminate|]. intros H. simpl. now rewrite IH.
Qed.

(** X26.  Registering is last-write-wins: after [registerComponent(name,
    cls)] the components already in the store are untouched, the other
    types are registered as before, and [addComponent] for [name] on an
    entity that has no such component builds an instance of [cls], also
    when another class was registered under the name before. *)
Theorem registerComponent_last_write_wins :
  forall engine ed name cls cs e data,
    let cs1 := registerComponent name cls cs in
    entityComponents cs1 = entityComponents cs /\
    (forall name', name' <> name ->
       Map_get name' (componentTypes cs1) = Map_get name' (componentTypes cs)) /\
    (hasComponent e name cs = false ->
     forall b fx,
       construct engine ed cls e data = Some (b, fx) ->
       fst (addComponent engine ed e name data cs1) = Normal (mkComponent (nextRef cs) b)).
Proof.
  intros engine ed name cls cs e data cs1. subst cs1.
  split; [reflexivity|]. split.
  - intros name' N. simpl. apply Map_get_set_other. congruence.
  - intros Hh b fx Hb. unfold addComponent. simpl.
    rewrite Map_get_set_same, lookup_after_ensure.
    unfold hasComponent, Map_has in Hh.
    destruct (Map_get e (entityComponents cs)) as [comps|].
    + destruct (Map_get name comps); [discriminate|]. now rewrite Hb.
    + now rewrite Hb.
Qed.

Lemma registerComponent_last_write_wins_witness :
  let cs := registerComponent "Light" Faulty (fresh_system sample_types) in
  exists c o,
    fst (addComponent sample_engine (sample_editor "edit") "e1" "Light" [] cs) = Normal c /\
    body c = BForeign o /\ f_update o = Some Throws /\
    Map_get "Collider" (componentTypes cs) = Some Proxy.
Proof.
  intros cs.
  destruct (registerComponent_last_write_wins sample_engine (sample_editor "edit")
              "Light" Faulty (fresh_system sample_types) "e1" [])
    as (_ & H2 & H3).
  exists (mkComponent 0 (BForeign (mkForeign [] (Some Throws) (Some Returns)))).
  eexists. split; [exact (H3 eq_refl _ _ eq_refl)|].
  split; [reflexivity|]. split; [reflexivity|].
  unfold cs. rewrite H2; [reflexivity|discriminate].
Defined.

(** X27.  Components keep the order in which they were added: when
    [addComponent] builds a new component, [getComponents] returns the
    components the entity had, in their order, followed by the new one. *)
Theorem addComponent_appends :
  forall engine ed e name data cs c cs',
    hasComponent e name cs = false ->
    addComponent engine ed e name data cs = (Normal c, cs') ->
    getComponents e cs' = getComponents e cs ++ [c].
Proof.
  intros engine ed e name data cs c cs' Hh. unfold addComponent.
  destruct (Map_get name (componentTypes cs)) as [cls|]; [|discriminate].
  rewrite lookup_after_ensure.
  unfold hasComponent, Map_has in Hh. unfold getComponents.
  unfold ensure_entity, components_of, Map_has.
  destruct (Map_get e (entityComponents cs)) as [comps|] eqn:Ee.
  - destruct (Map_get name comps) eqn:Ec; [discriminate|].
    destruct (construct engine ed cls e data) as [[b fx]|]; [|discriminate].
    invert_result. simpl. rewrite ?Ee, Map_get_set_same.
    now apply Map_set_absent_values.
  - destruct (construct engine ed cls e data) as [[b fx]|]; [|discriminate].
    invert_result. simpl. now rewrite !Map_get_set_same.
Qed.

Lemma addComponent_appends_witness :
  let r := addComponent sample_engine (sample_editor "edit") "e1" "Collider" [] healthy_system in
  exists c,
    fst r = Normal c /\
    getComponents "e1" (snd r) = getComponents "e1" healthy_system ++ [c] /\
    map ref (getComponents "e1" (snd r)) = [0; 1; 3]%nat.
Proof.
  intros r.
  exists (mkComponent 3 (BForeign (mkForeign [] (Some Returns) (Some Returns)))).
  split; [reflexivity|]. split; [|reflexivity].
  apply (addComponent_appends sample_engine (sample_editor "edit") "e1" "Collider" []
           healthy_system); reflexivity.
Defined.

Lemma start_all_get store e :
  Map_get e (fst (start_all store)) =
  match Map_get e store with
  | Some comps => Some (fst (start_entity e comps))
  | None => None
  end.
Proof.
  induction store as [|[e0 comps] rest IH]; simpl; [reflexivity|].
  destruct (start_entity e0 comps) as [comps' fx] eqn:E0.
  destruct (start_all rest) as [rest' fx']. simpl in *.
  destruct (String.eqb_spec e0 e) as [->|N]; [now rewrite E0|exact IH].
Qed.

(** X28.  [startScriptExecution] resets the time every compiled Script
    sees: afterwards the context of the Script stored under the name Script
    has [time = 0] and [deltaTime = 0], in the same component object with
    the same hooks; the other components of the entity are untouched. *)
Theorem startScriptExecution_resets_script_time :
  forall now cs e c s inst,
    getComponent e "Script" cs = Some c ->
    body c = BScript s ->
    scriptInstance s = Some inst ->
    let cs' := startScriptExecution now cs in
    getComponent e "Script" cs' =
      Some (mkComponent (ref c)
              (BScript (with_instance (Some (with_time (mkTime 0 0) inst)) s))) /\
    forall name, name <> "Script" -> getComponent e name cs' = getComponent e name cs.
Proof.
  intros now cs e c s inst Hg Hb Hi cs'. subst cs'.
  unfold startScriptExecution. simpl.
  pose proof (start_all_get (entityComponents cs) e) as G.
  destruct (start_all (entityComponents cs)) as [store fx]. simpl in *.
  unfold getComponent in *. simpl. rewrite G.
  destruct (Map_get e (entityComponents cs)) as [comps|]; [|discriminate].
  unfold start_entity, compiled_script. rewrite Hg, Hb, Hi. simpl.
  unfold zero_time. split.
  - apply Map_get_set_same.
  - intros name N. apply Map_get_set_other. congruence.
Qed.

Lemma startScriptExecution_resets_script_time_witness :
  let ticked_once :=
    snd (updateComponents (sample_editor "play") 1500 (16 # 1000)
           (startScriptExecution 1000 healthy_system)) in
  let replay := startScriptExecution 9000 ticked_once in
  exists c s inst c' s' inst',
    getComponent "e1" "Script" ticked_once = Some c /\ body c = BScript s /\
    scriptInstance s = Some inst /\ time (ctx_time (context inst)) == 1 # 2 /\
    getComponent "e1" "Script" replay = Some c' /\ body c' = BScript s' /\
    scriptInstance s' = Some inst' /\ ctx_time (context inst') = mkTime 0 0 /\
    getComponent "e1" "Light" replay = getComponent "e1" "Light" ticked_once.
Proof.
  intros ticked_once replay.
  edestruct (startScriptExecution_resets_script_time 9000 ticked_once "e1")
    as [H1 H2].
  - vm_compute. reflexivity.
  - reflexivity.
  - reflexivity.
  - do 6 eexists.
    split; [vm_compute; reflexivity|]. split; [reflexivity|]. split; [reflexivity|].
    split; [reflexivity|]. split; [exact H1|]. split; [reflexivity|].
    split; [reflexivity|]. split; [reflexivity|].
    apply H2. discriminate.
Defined.
